(** * Amor: reference-guided song generation

    A shallow embedding of the retrieval, drafting, submission and polling
    code of the application ([src/lib/lyrics-processor.ts], [src/lib/gemini.ts],
    [src/lib/ai-music.ts], [src/app/api/songs/generate/route.ts] and
    [src/app/api/songs/[id]/retry/route.ts]) together with the properties the
    specification states about it.

    JavaScript strings are sequences of UTF-16 code units; they are modelled as
    [list N].  External collaborators (the embedding and text-generation
    services, the audio API, the lyrics table) are oracles gathered in an
    environment record; the [songs] table is a finite map. *)

From Stdlib Require Import ZArith NArith QArith Qround Qminmax String Ascii DecimalString Lia.
From stdpp Require Import gmap list.

(** ** Strings as code units *)

Module Str.

Definition str := list N.

(** Decoding of the UTF-8 bytes of a literal of this file into code points. *)
Fixpoint utf8_points (bs : list N) : list N :=
  match bs with
  | [] => []
  | b :: r =>
      if (b <? 128)%N then b :: utf8_points r
      else if (b <? 224)%N then
        match r with
        | b2 :: r' => ((b - 192) * 64 + (b2 - 128))%N :: utf8_points r'
        | _ => []
        end
      else if (b <? 240)%N then
        match r with
        | b2 :: b3 :: r' =>
            ((b - 224) * 4096 + (b2 - 128) * 64 + (b3 - 128))%N :: utf8_points r'
        | _ => []
        end
      else
        match r with
        | b2 :: b3 :: b4 :: r' =>
            ((b - 240) * 262144 + (b2 - 128) * 4096 + (b3 - 128) * 64 + (b4 - 128))%N
              :: utf8_points r'
        | _ => []
        end
  end.

(** A code point as one code unit, or as a surrogate pair above the BMP. *)
Definition units_of_point (p : N) : list N :=
  if (p <? 65536)%N then [p]
  else [(55296 + (p - 65536) / 1024)%N; (56320 + (p - 65536) mod 1024)%N].

(** The JavaScript string denoted by a literal. *)
Definition utf16 (s : string) : str :=
  concat (map units_of_point (utf8_points (map N_of_ascii (list_ascii_of_string s)))).

Definition str_eqb (a b : str) : bool := bool_decide (a = b).

Definition LF : N := 10.
Definition STAR : N := 42.
Definition LBRACKET : N := 91.
Definition RBRACKET : N := 93.

(** [WhiteSpace] and [LineTerminator] of ECMAScript: what [trim] removes and
    what [\s] matches. *)
Definition is_space (c : N) : bool :=
  ((9 <=? c) && (c <=? 13) || (c =? 32) || (c =? 160) || (c =? 5760)
   || (8192 <=? c) && (c <=? 8202) || (c =? 8232) || (c =? 8233)
   || (c =? 8239) || (c =? 8287) || (c =? 12288) || (c =? 65279))%N.

Fixpoint trimStart (s : str) : str :=
  match s with
  | c :: t => if is_space c then trimStart t else s
  | [] => []
  end.

Definition trimEnd (s : str) : str := rev (trimStart (rev s)).

Definition trim (s : str) : str := trimEnd (trimStart s).

Fixpoint startsWith (pat s : str) : bool :=
  match pat, s with
  | [], _ => true
  | p :: pat', c :: s' => (p =? c)%N && startsWith pat' s'
  | _ :: _, [] => false
  end.

Definition endsWith (pat s : str) : bool := startsWith (rev pat) (rev s).

(** Case folding of the regular expression flag [i] without flag [u], for the
    literals of this file: only the Basic Latin letters are identified (a code
    unit of 128 or more never folds to one below 128). *)
Definition lc (c : N) : N :=
  if ((65 <=? c) && (c <=? 90))%N then (c + 32)%N else c.

(** A text of Basic Latin characters. *)
Definition basic_latin (s : str) : Prop := Forall (fun c => (c < 128)%N) s.

(** [String.prototype.toLowerCase] is a built-in of the host: it lowers every
    cased letter of Unicode and may change the length of the text.  It is
    taken as a parameter wherever the code calls it.  On a text of Basic
    Latin characters it maps the letters [A] to [Z] and nothing else, which
    is all that is ever assumed of it. *)
Definition lowers_basic_latin (toLowerCase : str -> str) : Prop :=
  forall s, basic_latin s -> toLowerCase s = map lc s.

Definition is_letter (c : N) : bool := ((97 <=? lc c) && (lc c <=? 122))%N.

Definition is_digit (c : N) : bool := ((48 <=? c) && (c <=? 57))%N.

(** A literal pattern matched at the head of [s], ignoring case. *)
Fixpoint starts_ci (pat s : str) : bool :=
  match pat, s with
  | [], _ => true
  | p :: pat', c :: s' => (lc p =? lc c)%N && starts_ci pat' s'
  | _ :: _, [] => false
  end.

(** [search p s]: the least index at which [p] holds of the rest of [s]. *)
Fixpoint search (p : str -> bool) (s : str) : option nat :=
  if p s then Some 0
  else match s with
       | [] => None
       | _ :: t => option_map S (search p t)
       end.

(** [String.prototype.includes]. *)
Definition includes (pat s : str) : bool :=
  match search (startsWith pat) s with Some _ => true | None => false end.

(** Occurrence of a literal, ignoring case. *)
Definition occurs_ci (pat s : str) : bool :=
  match search (starts_ci pat) s with Some _ => true | None => false end.

(** [String.prototype.lastIndexOf], [-1] when there is no occurrence. *)
Fixpoint lastIndexOf (pat s : str) : Z :=
  match s with
  | [] => if startsWith pat [] then 0 else (-1)
  | _ :: t =>
      let r := lastIndexOf pat t in
      if (0 <=? r)%Z then (r + 1)%Z
      else if startsWith pat s then 0%Z else (-1)%Z
  end.

(** [s.substring(0, e)]: a negative end counts as zero. *)
Definition substring_to (e : Z) (s : str) : str := take (Z.to_nat e) s.

(** [Array.prototype.join]. *)
Fixpoint join (sep : str) (l : list str) : str :=
  match l with
  | [] => []
  | [x] => x
  | x :: r => x ++ sep ++ join sep r
  end.

(** Decimal numeral of an integer, as [String(n)] prints it. *)
Definition decimal (z : Z) : str :=
  map N_of_ascii (list_ascii_of_string (NilZero.string_of_int (Z.to_int z))).

(** Global replacement by the empty string of a pattern whose match at the
    head of the text, if any, has the length given by [match_len]. *)
Fixpoint remove_all_go (match_len : str -> option nat) (skip : nat) (s : str) : str :=
  match s with
  | [] => []
  | c :: t =>
      match skip with
      | S k => remove_all_go match_len k t
      | O =>
          match match_len s with
          | Some (S k) => remove_all_go match_len k t
          | _ => c :: remove_all_go match_len 0 t
          end
      end
  end.

Definition remove_all (match_len : str -> option nat) (s : str) : str :=
  remove_all_go match_len 0 s.

(** Replacement by the empty string of the first match of [/lit[^]*$/i]: the
    text is cut at the first occurrence of the literal. *)
Fixpoint cut_at (lit s : str) : str :=
  if starts_ci lit s then []
  else match s with
       | [] => []
       | c :: t => c :: cut_at lit t
       end.

(** [s.split(sep)] for a separator of one code unit. *)
Fixpoint split_on_go (sep : N) (cur : str) (s : str) : list str :=
  match s with
  | [] => [cur]
  | c :: t =>
      if (c =? sep)%N then cur :: split_on_go sep [] t
      else split_on_go sep (cur ++ [c]) t
  end.

Definition split_on (sep : N) (s : str) : list str := split_on_go sep [] s.

(** [s.split(/\s+/)]. *)
Fixpoint split_go (in_gap : bool) (cur : str) (s : str) : list str :=
  match s with
  | [] => [cur]
  | c :: t =>
      if is_space c then
        if in_gap then split_go true [] t else cur :: split_go true [] t
      else split_go false (cur ++ [c]) t
  end.

Definition split_ws (s : str) : list str := split_go false [] s.

End Str.

Import Str.

(** ** Content drafting: the cleanup pass of [gemini.ts] *)

Module Gemini.

(** The section names of [/\[(Verse|Chorus|Bridge|Intro|Outro)/i]. *)
Definition section_names : list str :=
  [utf16 "Verse"; utf16 "Chorus"; utf16 "Bridge"; utf16 "Intro"; utf16 "Outro"].

(** The section names of the last regular expression, which leaves [Intro] out. *)
Definition closing_section_names : list str :=
  [utf16 "Verse"; utf16 "Chorus"; utf16 "Bridge"; utf16 "Outro"].

(** [/\[(Verse|Chorus|Bridge|Intro|Outro)/i] matched at the head of the text. *)
Definition section_start (s : str) : bool :=
  match s with
  | c :: t => (c =? LBRACKET)%N && existsb (fun w => starts_ci w t) section_names
  | [] => false
  end.

(** Length of the longest run of code units other than [*]. *)
Fixpoint nonstar_run (s : str) : nat :=
  match s with
  | c :: t => if (c =? STAR)%N then 0 else S (nonstar_run t)
  | [] => 0
  end.

(** [/\*\*[^*]*\*\*/] at the head of the text: the length of the match. *)
Definition bold_len (s : str) : option nat :=
  match s with
  | a :: b :: t =>
      if ((a =? STAR) && (b =? STAR))%N then
        let k := nonstar_run t in
        match drop k t with
        | c :: d :: _ => if ((c =? STAR) && (d =? STAR))%N then Some (k + 4) else None
        | _ => None
        end
      else None
  | _ => None
  end.

(** [/\*[^*]*\*/] at the head of the text. *)
Definition italic_len (s : str) : option nat :=
  match s with
  | a :: t =>
      if (a =? STAR)%N then
        let k := nonstar_run t in
        match drop k t with
        | c :: _ => if (c =? STAR)%N then Some (k + 2) else None
        | _ => None
        end
      else None
  | _ => None
  end.

Inductive Pattern :=
  | Bold
  | Italic
  | Trailing (lit : str).

(** The phrases of the patterns [/phrase[^]*$/i], in the order of the source. *)
Definition trailing_phrases : list str :=
  [ utf16 "I hope these lyrics"; utf16 "These lyrics capture"; utf16 "The song";
    utf16 "Style Elements:"; utf16 "Explanation"; utf16 "Translation";
    utf16 "Meaning"; utf16 "Note:"; utf16 "Here are"; utf16 "This song" ].

Definition unwantedPatterns : list Pattern :=
  Bold :: Italic :: map Trailing trailing_phrases.

(** [cleaned.replace(pattern, "")]. *)
Definition replace_pattern (p : Pattern) (s : str) : str :=
  match p with
  | Bold => remove_all bold_len s
  | Italic => remove_all italic_len s
  | Trailing lit => cut_at lit s
  end.

(** [\n\n[A-Z]] under flag [i], at the head of the text. *)
Definition para_break (s : str) : bool :=
  match s with
  | a :: b :: c :: _ => ((a =? LF) && (b =? LF))%N && is_letter c
  | _ => false
  end.

(** What the lazy [[^]*?] consumes before [(?:\n\n[A-Z]|$)] succeeds. *)
Fixpoint lazy_body (s : str) : nat :=
  if para_break s then 0
  else match s with
       | [] => 0
       | _ :: t => S (lazy_body t)
       end.

Fixpoint index_of (x : N) (s : str) : option nat :=
  match s with
  | [] => None
  | c :: t => if (c =? x)%N then Some 0 else option_map S (index_of x t)
  end.

(** The first group of
    [/(\[(?:Verse|Chorus|Bridge|Outro)[^\]]*\][^]*?)(?:\n\n[A-Z]|$)/i]
    matched at the head of the text: its length. *)
Definition section_block_len (s : str) : option nat :=
  match s with
  | c :: t =>
      if (c =? LBRACKET)%N then
        match find (fun w => starts_ci w t) closing_section_names with
        | Some w =>
            let after := drop (length w) t in
            match index_of RBRACKET after with
            | Some k => Some (1 + length w + k + 1 + lazy_body (drop (S k) after))
            | None => None
            end
        | None => None
        end
      else None
  | [] => None
  end.

(** [cleaned.match(...)]: the first group of the leftmost match. *)
Fixpoint first_block (s : str) : option str :=
  match section_block_len s with
  | Some n => Some (take n s)
  | None => match s with
            | [] => None
            | _ :: t => first_block t
            end
  end.

Definition cleanLyricsResponse (lyrics : str) : str :=
  let cleaned := trim lyrics in
  let cleaned :=
    match search section_start cleaned with
    | Some lyricsStart => drop lyricsStart cleaned
    | None => cleaned
    end in
  let cleaned := fold_left (fun acc p => replace_pattern p acc) unwantedPatterns cleaned in
  let cleaned :=
    match first_block cleaned with
    | Some block =>
        let lastSectionEnd := (lastIndexOf block cleaned + Z.of_nat (length block))%Z in
        substring_to lastSectionEnd cleaned
    | None => cleaned
    end in
  trim cleaned.

(** The loop over the patterns, and the cut after the last section, as
    separate steps. *)
Definition run_patterns (ps : list Pattern) (s : str) : str :=
  fold_left (fun acc p => replace_pattern p acc) ps s.

Definition cut_last_section (cleaned : str) : str :=
  match first_block cleaned with
  | Some block =>
      substring_to (lastIndexOf block cleaned + Z.of_nat (length block))%Z cleaned
  | None => cleaned
  end.

(** The output has text before its first section marker. *)
Definition has_preamble (s : str) : bool :=
  match search section_start s with
  | Some (S _) => true
  | _ => false
  end.

End Gemini.

(** ** Thrown values and fallible calls *)

Module Js.

(** A thrown value: an [Error] with its message, or any other value with the
    text [String(value)] gives it. *)
Inductive Exn :=
  | ErrorObj (message : str)
  | NonError (text : str).

(** [error instanceof Error ? error.message : dflt]. *)
Definition message_or (dflt : str) (e : Exn) : str :=
  match e with
  | ErrorObj m => m
  | NonError _ => dflt
  end.

(** [error instanceof Error ? error : new Error(String(error))]. *)
Definition as_Error (e : Exn) : Exn :=
  match e with
  | ErrorObj m => ErrorObj m
  | NonError t => ErrorObj t
  end.

Definition message (e : Exn) : str :=
  match e with
  | ErrorObj m => m
  | NonError t => t
  end.

(** The outcome of a call: a value, or a thrown value. *)
Inductive Result (A : Type) :=
  | Ok (a : A)
  | Throw (e : Exn).
Arguments Ok {A} a.
Arguments Throw {A} e.

Definition bind {A B} (r : Result A) (k : A -> Result B) : Result B :=
  match r with
  | Ok a => k a
  | Throw e => Throw e
  end.

(** [try { body } catch (e) { handler(e) }]. *)
Definition try_catch {A} (body : Result A) (handler : Exn -> Result A) : Result A :=
  match body with
  | Ok a => Ok a
  | Throw e => handler e
  end.

(** Truthiness of a string that may be absent. *)
Definition truthy (s : option str) : bool :=
  match s with
  | Some (_ :: _) => true
  | _ => false
  end.

(** What the persistence client hands back: [{ data, error }]. *)
Record DbReply (A : Type) := { data : option A; error : option str }.
Arguments data {A} _.
Arguments error {A} _.

(** [!error && data && data.length > 0]. *)
Definition usable {A} (reply : DbReply (list A)) : option (list A) :=
  match error reply, data reply with
  | None, Some (x :: rows) => Some (x :: rows)
  | _, _ => None
  end.

End Js.

Import Js.
Notation "x <-? r ;; k" := (Js.bind r (fun x => k))
  (at level 62, r at next level, right associativity).

(** ** Reference retrieval: [findSimilarLyrics] of [lyrics-processor.ts] *)

Module LyricsProcessor.

Record LyricsRow := { row_song_name : str; row_lyrics_text : str }.

(** A row of the [match_lyrics] function. *)
Record MatchRow := { m_song_name : str; m_lyrics_text : str; m_similarity : Q }.

(** What [findSimilarLyrics] returns. *)
Record SimilarLyrics :=
  { song_name : str; lyrics_text : str; similarity : option Q }.

(** The host, the embedding service and the [lyrics_index] table, as the
    retrieval code sees them. *)
Record LyricsStore := {
  (** [String.prototype.toLowerCase] *)
  toLowerCase : str -> str;
  generateEmbedding : str -> Result (list Q);
  (** [rpc("match_lyrics", { query_embedding, match_threshold, match_count })] *)
  match_lyrics : list Q -> Q -> Z -> Result (DbReply (list MatchRow));
  (** [from("lyrics_index").select(...).or(searchConditions).limit(n)]: the
      filter is handed over as one text *)
  search_text : str -> Z -> Result (DbReply (list LyricsRow));
  (** [from("lyrics_index").select(...).limit(n)] *)
  sample_rows : Z -> Result (DbReply (list LyricsRow))
}.

Definition stop_words : list str :=
  map utf16
    [ "the"; "and"; "for"; "are"; "but"; "not"; "you"; "all"; "can"; "had";
      "her"; "was"; "one"; "our"; "out"; "day"; "get"; "has"; "him"; "his";
      "how"; "its"; "may"; "new"; "now"; "old"; "see"; "two"; "who"; "boy";
      "did"; "she"; "use"; "way"; "who"; "oil"; "sit"; "set" ]%string.

(** A word survives when it has more than two code units and is no stop word. *)
Definition keeps_word (word : str) : bool :=
  (2 <? length word) && negb (existsb (str_eqb word) stop_words).

Definition COMMA : N := 44.

(** [`song_name.ilike.%${keyword}%,lyrics_text.ilike.%${keyword}%`]: the
    keyword is pasted as it is. *)
Definition condition_pair (keyword : str) : str :=
  utf16 "song_name.ilike.%" ++ keyword ++ utf16 "%,lyrics_text.ilike.%"
    ++ keyword ++ utf16 "%".

(** The text given to [.or(...)]: the pairs of the keywords, joined by commas. *)
Definition searchConditions (kws : list str) : str :=
  join [COMMA] (map condition_pair kws).

Definition of_match (r : MatchRow) : SimilarLyrics :=
  {| song_name := m_song_name r; lyrics_text := m_lyrics_text r;
     similarity := Some (m_similarity r) |}.

Definition of_row (r : LyricsRow) : SimilarLyrics :=
  {| song_name := row_song_name r; lyrics_text := row_lyrics_text r;
     similarity := None |}.

Definition hardcoded_fallback : list SimilarLyrics :=
  [ {| song_name := utf16 "Yeh Dosti";
       lyrics_text := utf16 "Yeh dosti hum nahin todhenge
Todhenge dum magar
Tera saath na chhodenge";
       similarity := None |};
    {| song_name := utf16 "Haan Jab Tak Hain Jaan";
       lyrics_text := utf16 "Haan jab tak hain jaan
Jaane jahaan main naachoongi
Pyar kabhi bhi marta nahin";
       similarity := None |};
    {| song_name := utf16 "Koi Haseena";
       lyrics_text := utf16 "Koi haseena jab rooth jaati hain toh
Aur bhi haseen ho jaati hain";
       similarity := None |} ].

Definition final_fallback : list SimilarLyrics :=
  [ {| song_name := utf16 "Classic Hindi Song";
       lyrics_text := utf16 "Dil mein basi hai teri yaad
Sapno mein aata hai tera chehra
Mohabbat ki yeh kahani";
       similarity := None |} ].

Section Retrieval.
Variable db : LyricsStore.

(** [queryText.toLowerCase().split(/\s+/).filter(...)]. *)
Definition keywords (queryText : str) : list str :=
  List.filter keeps_word (split_ws (toLowerCase db queryText)).

(** Strategy 1, inside its own [try]: [Some] is an early return. *)
Definition embeddingTier (queryText : str) (matchCount : Z) (matchThreshold : Q)
  : option (list SimilarLyrics) :=
  match
    try_catch
      (queryEmbedding <-? generateEmbedding db queryText ;;
       reply <-? match_lyrics db queryEmbedding matchThreshold matchCount ;;
       Ok (option_map (map of_match) (usable reply)))
      (fun _ => Ok None)
  with
  | Ok r => r
  | Throw _ => None
  end.

(** Strategy 2. *)
Definition keywordTier (queryText : str) (matchCount : Z)
  : Result (option (list SimilarLyrics)) :=
  let kws := keywords queryText in
  if 0 <? length kws then
    reply <-? search_text db (searchConditions kws) matchCount ;;
    Ok (option_map (map of_row) (usable reply))
  else Ok None.

(** Strategy 3. *)
Definition sampleTier (matchCount : Z) : Result (option (list SimilarLyrics)) :=
  reply <-? sample_rows db matchCount ;;
  Ok (option_map (map of_row) (usable reply)).

Definition findSimilarLyrics (queryText : str) (matchCount : Z) (matchThreshold : Q)
  : Result (list SimilarLyrics) :=
  try_catch
    (match embeddingTier queryText matchCount matchThreshold with
     | Some found => Ok found
     | None =>
         byKeyword <-? keywordTier queryText matchCount ;;
         match byKeyword with
         | Some found => Ok found
         | None =>
             bySample <-? sampleTier matchCount ;;
             match bySample with
             | Some found => Ok found
             | None => Ok hardcoded_fallback
             end
         end
     end)
    (fun _ => Ok final_fallback).

(** The list is made of the rows the table gave to one of the three queries,
    each of which asks for [matchCount] rows. *)
Definition from_table (queryText : str) (matchCount : Z) (matchThreshold : Q)
    (found : list SimilarLyrics) : Prop :=
  (exists queryEmbedding reply rows,
      generateEmbedding db queryText = Ok queryEmbedding
      /\ match_lyrics db queryEmbedding matchThreshold matchCount = Ok reply
      /\ usable reply = Some rows /\ found = map of_match rows)
  \/ (exists reply rows,
        search_text db (searchConditions (keywords queryText)) matchCount = Ok reply
        /\ usable reply = Some rows /\ found = map of_row rows)
  \/ (exists reply rows,
        sample_rows db matchCount = Ok reply
        /\ usable reply = Some rows /\ found = map of_row rows).

(** Every reply of the table holds at most as many rows as were asked for
    (none for a negative count). *)
Definition honours_limit : Prop :=
  (forall emb th n reply rows,
      match_lyrics db emb th n = Ok reply -> data reply = Some rows ->
      (Z.of_nat (length rows) <= Z.max 0 n)%Z)
  /\ (forall conds n reply rows,
      search_text db conds n = Ok reply -> data reply = Some rows ->
      (Z.of_nat (length rows) <= Z.max 0 n)%Z)
  /\ (forall n reply rows,
      sample_rows db n = Ok reply -> data reply = Some rows ->
      (Z.of_nat (length rows) <= Z.max 0 n)%Z).
End Retrieval.

(** Default arguments of [findSimilarLyrics]. *)
Definition default_matchCount : Z := 5.
Definition default_matchThreshold : Q := 1 # 100.

(** *** The table, ideally *)

Inductive Column := col_song_name | col_lyrics_text.

(** One condition [column.ilike.pattern] of a filter, once read. *)
Record Ilike := { column : Column; pattern : str }.

Definition field (c : Column) (r : LyricsRow) : str :=
  match c with
  | col_song_name => row_song_name r
  | col_lyrics_text => row_lyrics_text r
  end.

Definition PERCENT : N := 37.
Definition UNDERSCORE : N := 95.

(** The code units that are syntax of the filter or of its patterns: the
    comma between conditions, the dot and the colon of a condition,
    parentheses, the double quote, the backslash, and the wild cards [%], [*]
    and [_]. *)
Definition filter_syntax (c : N) : bool :=
  existsb (N.eqb c) [COMMA; 46; 58; 40; 41; 34; 92; PERCENT; STAR; UNDERSCORE]%N.

(** A text that the filter takes as it stands. *)
Definition plain (s : str) : bool := forallb (fun c => negb (filter_syntax c)) s.

(** Modelled from the spec: the match of a text by a pattern of [ilike], which
    the persistence layer evaluates outside the repository.  [%], also
    written [*], stands for any run of code units, [_] for any one code unit,
    and every other code unit for itself, whatever its case. *)
Fixpoint like (pat s : str) : bool :=
  match pat with
  | [] => match s with [] => true | _ :: _ => false end
  | p :: pat' =>
      if ((p =? PERCENT) || (p =? STAR))%N then
        (fix from (s : str) : bool :=
           like pat' s || match s with [] => false | _ :: t => from t end) s
      else
        match s with
        | [] => false
        | c :: t => ((p =? UNDERSCORE) || (lc p =? lc c))%N && like pat' t
        end
  end.

(** Modelled from the spec: the reading of one condition of the filter.  A
    pattern that holds a dot, a colon, a parenthesis, a double quote or a
    backslash is outside this reading. *)
Definition read_condition (part : str) : option Ilike :=
  let read (c : Column) (name : str) :=
    let pat := drop (length name) part in
    if forallb (fun u => negb (existsb (N.eqb u) [46; 58; 40; 41; 34; 92]%N)) pat
    then Some {| column := c; pattern := pat |}
    else None in
  if startsWith (utf16 "song_name.ilike.") part then
    read col_song_name (utf16 "song_name.ilike.")
  else if startsWith (utf16 "lyrics_text.ilike.") part then
    read col_lyrics_text (utf16 "lyrics_text.ilike.")
  else None.

Fixpoint read_conditions (parts : list str) : option (list Ilike) :=
  match parts with
  | [] => Some []
  | part :: rest =>
      match read_condition part, read_conditions rest with
      | Some c, Some cs => Some (c :: cs)
      | _, _ => None
      end
  end.

(** Modelled from the spec: the reading of the filter of [.or(...)], a list
    of conditions separated by commas. *)
Definition read_filter (filter : str) : option (list Ilike) :=
  read_conditions (split_on COMMA filter).

(** Modelled from the spec: the match of a row by a filter, when one of its
    conditions matches. *)
Definition row_matches (conds : list Ilike) (r : LyricsRow) : bool :=
  existsb (fun c => like (pattern c) (field (column c) r)) conds.

(** Modelled from the spec: the answer of the table to the keyword query.  The
    selected rows come in table order and the limit keeps the first ones; a
    filter that cannot be read is answered with an error. *)
Definition table_search (rows : list LyricsRow) (filter : str) (limit : Z)
  : Result (DbReply (list LyricsRow)) :=
  match read_filter filter with
  | Some conds =>
      Ok {| data := Some (take (Z.to_nat limit) (List.filter (row_matches conds) rows));
            error := None |}
  | None =>
      Ok {| data := None; error := Some (utf16 "failed to parse logic tree") |}
  end.

(** Modelled from the spec: the answer of the table to the query without a
    filter, the first rows in table order. *)
Definition table_sample (rows : list LyricsRow) (limit : Z)
  : Result (DbReply (list LyricsRow)) :=
  Ok {| data := Some (take (Z.to_nat limit) rows); error := None |}.

(** Modelled from the spec: a reachable table holding [rows], none of them
    near enough to any query for the similarity search to return it, on a
    host whose lower-casing is [lower]. *)
Definition table_store (lower : str -> str) (rows : list LyricsRow) : LyricsStore :=
  {| toLowerCase := lower;
     generateEmbedding := fun _ => Ok [];
     match_lyrics := fun _ _ _ => Ok {| data := Some []; error := None |};
     search_text := table_search rows;
     sample_rows := table_sample rows |}.

(** The two parts of the filter that come from one keyword, and the two
    conditions they are read as. *)
Definition name_part (k : str) : str :=
  utf16 "song_name.ilike." ++ PERCENT :: k ++ [PERCENT].

Definition text_part (k : str) : str :=
  utf16 "lyrics_text.ilike." ++ PERCENT :: k ++ [PERCENT].

Definition conditions_of (k : str) : list Ilike :=
  [ {| column := col_song_name; pattern := PERCENT :: k ++ [PERCENT] |};
    {| column := col_lyrics_text; pattern := PERCENT :: k ++ [PERCENT] |} ].

(** A row holds one of the keywords in its name or in its text, whatever the
    case: what the spec takes the keyword query to select. *)
Definition holds_keyword (kws : list str) (r : LyricsRow) : bool :=
  existsb (fun k => occurs_ci k (row_song_name r) || occurs_ci k (row_lyrics_text r)) kws.

End LyricsProcessor.

(** ** Ingestion of the lyrics corpus: [processLyricsCSV] *)

Module Ingestion.

(** A parsed row of the CSV file. *)
Record LyricsData :=
  { songTitle : str; hindiLyrics : str; englishTranslation : str }.

(** An element of the parsed array: a string, or another JSON value with the
    text [String(value)] gives it and the text [join] renders it as. *)
Inductive JsonElem :=
  | JsonString (s : str)
  | JsonOther (as_string : str) (joined : str).

(** What is inserted into [lyrics_index]. *)
Record StoredRow :=
  { st_song_name : str; st_lyrics_text : str; st_embedding : list Q }.

(** The runtime and the services the ingestion pass calls. *)
Record IngestEnv := {
  (** [JSON.parse] of a text that opens an array *)
  JSON_parse : str -> Result (list JsonElem);
  generateEmbedding : str -> Result (list Q);
  (** the [error] of [from("lyrics_index").insert(row)] *)
  insert : StoredRow -> Result (option str)
}.

Definition APOSTROPHE : N := 39.
Definition QUOTE : N := 34.

(** Every apostrophe becomes a double quote, as the global [replace] of the
    source does before parsing. *)
Definition requote (s : str) : str :=
  map (fun c => if (c =? APOSTROPHE)%N then QUOTE else c) s.

(** [/^\d+$/.test(s)]. *)
Definition all_digits (s : str) : bool :=
  match s with
  | [] => false
  | _ => forallb is_digit s
  end.

Definition elem_string (e : JsonElem) : str :=
  match e with
  | JsonString s => s
  | JsonOther a _ => a
  end.

Definition elem_joined (e : JsonElem) : str :=
  match e with
  | JsonString s => s
  | JsonOther _ j => j
  end.

(** [line !== "Lyrics" && !/^\d+$/.test(line)]. *)
Definition keeps_line (line : JsonElem) : bool :=
  negb (match line with
        | JsonString s => str_eqb s (utf16 "Lyrics")
        | JsonOther _ _ => false
        end)
  && negb (all_digits (elem_string line)).

(** The text looks like the print of a Python list of strings. *)
Definition list_literal (s : str) : bool :=
  startsWith (utf16 "['") s && endsWith (utf16 "']") s.

Section Pass.
Variable env : IngestEnv.

Definition cleanLyrics (hindi : str) : str :=
  if list_literal hindi then
    match
      try_catch
        (lyricsArray <-? JSON_parse env (requote hindi) ;;
         Ok (trim (join [LF] (map elem_joined (List.filter keeps_line lyricsArray)))))
        (fun _ => Ok hindi)
    with
    | Ok s => s
    | Throw _ => hindi
    end
  else hindi.

(** One turn of the loop: the row that was stored, if any. *)
Definition processSong (song : LyricsData) : option StoredRow :=
  match songTitle song, hindiLyrics song with
  | _ :: _, _ :: _ =>
      match
        try_catch
          (let clean := cleanLyrics (hindiLyrics song) in
           if (length clean <? 10) then Ok None
           else
             embedding <-? generateEmbedding env clean ;;
             let row := {| st_song_name := songTitle song;
                           st_lyrics_text := clean;
                           st_embedding := embedding |} in
             error <-? insert env row ;;
             match error with
             | Some _ => Ok None
             | None => Ok (Some row)
             end)
          (fun _ => Ok None)
      with
      | Ok r => r
      | Throw _ => None
      end
  | _, _ => None
  end.

Record Tally := { stored : list StoredRow; processed : nat; skipped : nat }.

Definition step (t : Tally) (song : LyricsData) : Tally :=
  match processSong song with
  | Some row =>
      {| stored := stored t ++ [row]; processed := S (processed t);
         skipped := skipped t |}
  | None =>
      {| stored := stored t; processed := processed t;
         skipped := S (skipped t) |}
  end.

Definition processLyricsCSV (lyricsData : list LyricsData) : Tally :=
  fold_left step lyricsData {| stored := []; processed := 0; skipped := 0 |}.
End Pass.

(** Lines of a text. *)
Fixpoint lines_go (cur : str) (s : str) : list str :=
  match s with
  | [] => [cur]
  | c :: t => if (c =? LF)%N then cur :: lines_go [] t else lines_go (cur ++ [c]) t
  end.

Definition lines (s : str) : list str := lines_go [] s.

(** The artifacts of the source format: the brackets of a list literal around
    the text, a line [Lyrics], a line of digits. *)
Definition has_artifacts (text : str) : bool :=
  (startsWith (utf16 "[") text && endsWith (utf16 "]") text)
  || existsb (fun l => str_eqb l (utf16 "Lyrics") || all_digits l) (lines text).

End Ingestion.

(** ** The [songs] table, the external services and the effects *)

(** A row of the [songs] table, with the columns the pipeline writes. *)
Module Song.

Inductive Status := pending | generating | completed | failed.

Record t := {
  clerk_user_id : str;
  title : str;
  status : Status;
  task_id : option str;
  clip_id : option str;
  lyrics : option str;
  tags : option str;
  audio_url : option str;
  video_url : option str;
  image_url : option str;
  duration : option Z;
  reference_songs : list str;
  error_message : option str;
  completed_at : option str
}.

(** [Partial<Song>]: the columns an update names ([Some None] writes null). *)
Record Patch := {
  p_title : option str;
  p_status : option Status;
  p_task_id : option str;
  p_clip_id : option str;
  p_lyrics : option str;
  p_tags : option str;
  p_audio_url : option str;
  p_video_url : option str;
  p_image_url : option str;
  p_duration : option (option Z);
  p_reference_songs : option (list str);
  p_error_message : option (option str);
  p_completed_at : option str
}.

Definition no_change : Patch :=
  {| p_title := None; p_status := None; p_task_id := None; p_clip_id := None;
     p_lyrics := None; p_tags := None; p_audio_url := None; p_video_url := None;
     p_image_url := None; p_duration := None; p_reference_songs := None;
     p_error_message := None; p_completed_at := None |}.

Definition or_keep {A} (new : option A) (old : A) : A :=
  match new with
  | Some v => v
  | None => old
  end.

Definition or_keep_opt {A} (new : option A) (old : option A) : option A :=
  match new with
  | Some v => Some v
  | None => old
  end.

Definition apply (p : Patch) (s : t) : t :=
  {| clerk_user_id := clerk_user_id s;
     title := or_keep (p_title p) (title s);
     status := or_keep (p_status p) (status s);
     task_id := or_keep_opt (p_task_id p) (task_id s);
     clip_id := or_keep_opt (p_clip_id p) (clip_id s);
     lyrics := or_keep_opt (p_lyrics p) (lyrics s);
     tags := or_keep_opt (p_tags p) (tags s);
     audio_url := or_keep_opt (p_audio_url p) (audio_url s);
     video_url := or_keep_opt (p_video_url p) (video_url s);
     image_url := or_keep_opt (p_image_url p) (image_url s);
     duration := or_keep (p_duration p) (duration s);
     reference_songs := or_keep (p_reference_songs p) (reference_songs s);
     error_message := or_keep (p_error_message p) (error_message s);
     completed_at := or_keep_opt (p_completed_at p) (completed_at s) |}.

Definition terminal (s : Status) : bool :=
  match s with
  | completed | failed => true
  | pending | generating => false
  end.

End Song.

(** A clip of a task of the audio service. *)
Module Clip.

Record t := {
  clip_id : str;
  title : str;
  tags : str;
  lyrics : str;
  image_url : str;
  audio_url : str;
  video_url : str;
  created_at : str;
  mv : str;
  duration : option Q;
  state : str
}.

End Clip.

Module Effects.

(** The [data] of a task response: an array of clips, or anything else. *)
Inductive TaskData :=
  | DataArray (clips : list Clip.t)
  | NoArray.

Record SunoTaskResponse := { code : Z; data : TaskData; message : str }.

(** The JSON body of the status endpoint: read as a task response, and its
    [error] member. *)
Record TaskJson := { as_task : SunoTaskResponse; error_member : option str }.

(** The body of the creation request. *)
Record CreateBody := {
  task_type : str;
  custom_mode : bool;
  prompt : str;
  body_title : str;
  body_tags : str;
  body_mv : str
}.

(** The JSON body of the creation endpoint. *)
Record CreateJson := { created_task_id : option str; created_message : str }.

(** What [fetch] gives: a thrown value, or a response with its status, its
    text, and its body parsed as JSON (which may throw). *)
Inductive Fetch (J : Type) :=
  | NetworkError (e : Exn)
  | Response (status : Z) (text : str) (json : Result J).
Arguments NetworkError {J} e.
Arguments Response {J} status text json.

Record GenerationLog := {
  log_song_id : str;
  step : str;
  log_status : str;
  log_error_message : option str
}.

(** The collaborators of the pipeline. *)
Record Env := {
  lyricsStore : LyricsProcessor.LyricsStore;
  (** [geminiModel.generateContent(prompt)] and the text of its response *)
  generateContent : str -> Result str;
  create_endpoint : CreateBody -> Fetch CreateJson;
  (** the answer to the n-th request of the status of a task *)
  task_endpoint : str -> nat -> Fetch TaskJson;
  (** [Date.now()], [new Date().toISOString()] and
      [Math.random().toString(36).substr(2, 9)] *)
  now_ms : Z;
  now_iso : str;
  random_suffix : str;
  (** the error of [checkDatabaseSetup], and what the client throws when an
      update finds no row or a log cannot be written *)
  database_error : option str;
  row_missing : Exn;
  log_failure : GenerationLog -> option Exn
}.

Inductive Event :=
  | Slept (ms : Q)
  | StatusRequest (taskId : str)
  | CreateRequest (body : CreateBody)
  | GenerateContent (prompt : str)
  | SongUpdate (songId : str) (updates : Song.Patch).

Record World := {
  songs : gmap str Song.t;
  generation_logs : list GenerationLog;
  events : list Event
}.

(** A computation: a value or a thrown value, and the world it leaves. *)
Definition M (A : Type) : Type := World -> Result A * World.

Definition ret {A} (a : A) : M A := fun w => (Ok a, w).

Definition throw {A} (e : Exn) : M A := fun w => (Throw e, w).

Definition bindM {A B} (m : M A) (k : A -> M B) : M B :=
  fun w =>
    match m w with
    | (Ok a, w') => k a w'
    | (Throw e, w') => (Throw e, w')
    end.

(** [try { body } catch (e) { handler(e) }]: what the body did stays done. *)
Definition catch {A} (body : M A) (handler : Exn -> M A) : M A :=
  fun w =>
    match body w with
    | (Ok a, w') => (Ok a, w')
    | (Throw e, w') => handler e w'
    end.

Definition lift {A} (r : Result A) : M A := fun w => (r, w).

Definition add_event (w : World) (e : Event) : World :=
  {| songs := songs w; generation_logs := generation_logs w;
     events := events w ++ [e] |}.

Definition emit (e : Event) : M unit := fun w => (Ok tt, add_event w e).

Definition when (b : bool) (m : M unit) : M unit := if b then m else ret tt.

(** A call that is not awaited: its outcome is dropped. *)
Definition detached {A} (m : M A) : M unit :=
  fun w => (Ok tt, snd (m w)).

(** [await new Promise((resolve) => setTimeout(resolve, ms))]. *)
Definition sleep (ms : Q) : M unit := emit (Slept ms).

Definition is_status_request (e : Event) : bool :=
  match e with
  | StatusRequest _ => true
  | _ => false
  end.

(** How many status requests have been sent. *)
Definition status_requests (w : World) : nat :=
  length (List.filter is_status_request (events w)).

End Effects.

Notation "x <-- m ;; k" := (Effects.bindM m (fun x => k))
  (at level 62, m at next level, right associativity).

(** ** Drafting the lyrics: [optimizeLyricsPrompt] *)

Module Drafting.
Import Effects.

Definition QUOTE : N := 34.

Definition quoted (s : str) : str := [QUOTE] ++ s ++ [QUOTE].

(** [`${i + 1}. ${lyrics.substring(0, 200)}...`] for the reference of index [i]. *)
Fixpoint numbered (i : nat) (similarLyrics : list str) : list str :=
  match similarLyrics with
  | [] => []
  | lyrics :: rest =>
      (decimal (Z.of_nat (i + 1)) ++ utf16 ". " ++ take 200 lyrics ++ utf16 "...")
        :: numbered (S i) rest
  end.

Definition references_block (similarLyrics : list str) : str :=
  match similarLyrics with
  | [] => []
  | _ =>
      utf16 "REFERENCE SONGS FOR INSPIRATION:
" ++ join (utf16 "

") (numbered 0 similarLyrics) ++ utf16 "

Use these only for emotion, vibe, and flow. Do NOT copy rare, complex, or niche words; replace them with simple, melodic Hindi or minor English words."
  end.

Definition lyricsPrompt (userPrompt : str) (styleTags similarLyrics : list str) : str :=
  utf16 "You are a professional Hindi lyricist. Write ORIGINAL, modern Bollywood-style Hindi song lyrics based on the user's request.

USER REQUEST: " ++ quoted userPrompt ++ utf16 "
STYLE: " ++ join (utf16 ", ") styleTags ++ utf16 "

" ++ references_block similarLyrics ++ utf16 "

STRICT REQUIREMENTS:
- Output ONLY Hindi song lyrics (Hinglish words allowed sparingly for natural modern feel)
- Avoid very heavy, old-fashioned, or niche Hindi words and cultural references
- Avoid slang, internet memes, or uncommon English words that are hard to pronounce
- Lyrics must be easy to sing with smooth, melodic flow
- Short to medium-length phrases; natural rhythm for modern Bollywood songs
- Modern, youthful, romantic Hindi with memorable rhymes and emotional impact
- Minor English words (like " ++ quoted (utf16 "love") ++ utf16 ", "
  ++ quoted (utf16 "baby") ++ utf16 ", " ++ quoted (utf16 "forever")
  ++ utf16 ") are okay, max 1–2 per line
- Song structure: [Verse], [Chorus], [Verse 2], [Chorus], [Bridge], [Outro]
- Verses: 4–6 lines, Chorus: 4 lines
- Maintain emotional depth and connection, with hooks that feel natural in singing

OUTPUT FORMAT:
[Verse]
Lyrics here...

[Chorus]
Lyrics here...

[Verse 2]
Lyrics here...

[Chorus]
Lyrics here...

[Bridge]
Lyrics here...

[Outro]
Lyrics here...

Generate the modern Hindi lyrics now:".

Section WithEnv.
Variable env : Env.

Definition optimizeLyricsPrompt (userPrompt : str) (styleTags similarLyrics : list str)
  : M str :=
  let prompt := lyricsPrompt userPrompt styleTags similarLyrics in
  catch
    (_ <-- emit (GenerateContent prompt) ;;
     text <-- lift (generateContent env prompt) ;;
     let lyrics := trim text in
     ret (Gemini.cleanLyricsResponse lyrics))
    (fun error => throw error).
End WithEnv.

End Drafting.

(** ** The audio service: [ai-music.ts] *)

Module AiMusic.
Import Effects.

(** [response.ok]. *)
Definition ok_status (status : Z) : bool := ((200 <=? status) && (status <=? 299))%Z.

Definition api_error (status : Z) (errorText : str) : Exn :=
  ErrorObj (utf16 "Suno API error (" ++ decimal status ++ utf16 "): " ++ errorText).

(** What [sunoApiCall] makes of the answer of [fetch]. *)
Definition sunoApiCall_outcome {J} (answer : Fetch J) : Result J :=
  match answer with
  | NetworkError e => Throw e
  | Response status text json =>
      if negb (ok_status status) then Throw (api_error status text) else json
  end.

(** What [getTaskStatus] makes of the answer of [fetch]. *)
Definition getTaskStatus_outcome (answer : Fetch TaskJson) : Result SunoTaskResponse :=
  match answer with
  | NetworkError e => Throw e
  | Response status text json =>
      if (status =? 202)%Z then
        notReadyResponse <-? json ;;
        Ok {| code := 202; data := DataArray [];
              message := if truthy (error_member notReadyResponse)
                         then default [] (error_member notReadyResponse)
                         else utf16 "Task not ready, please wait" |}
      else if negb (ok_status status) then Throw (api_error status text)
      else
        body <-? json ;;
        Ok (as_task body)
  end.

Definition state_is (s : string) (clip : Clip.t) : bool :=
  str_eqb (Clip.state clip) (utf16 s).

(** [taskId.replace("mock_", "clip_")]: the first occurrence is replaced. *)
Fixpoint replace_first (pat by_ s : str) : str :=
  if startsWith pat s then by_ ++ drop (length pat) s
  else match s with
       | [] => []
       | c :: t => c :: replace_first pat by_ t
       end.

Definition mock_clip (taskId created : str) : Clip.t :=
  {| Clip.clip_id := replace_first (utf16 "mock_") (utf16 "clip_") taskId;
     Clip.title := utf16 "Generated Song";
     Clip.state := utf16 "succeeded";
     Clip.audio_url := utf16 "https://cdn1.suno.ai/mock-audio-url.mp3";
     Clip.video_url := utf16 "https://cdn1.suno.ai/mock-video-url.mp4";
     Clip.image_url := utf16 "https://cdn1.suno.ai/mock-image-url.jpg";
     Clip.duration := Some (180 # 1);
     Clip.tags := utf16 "bollywood, hindi, romantic";
     Clip.lyrics := utf16 "Mock generated lyrics";
     Clip.created_at := created;
     Clip.mv := utf16 "chirp-v5" |}.

Definition mock_response (taskId created : str) : SunoTaskResponse :=
  {| code := 200;
     data := DataArray [mock_clip taskId created];
     message := utf16 "Mock task completed successfully" |}.

(** How the loop over the attempts ends. *)
Inductive PollEnd :=
  | Returned (result : SunoTaskResponse)
  | Exhausted (lastError : option Exn).

(** The fallback lyric of [generateCompleteSong]. *)
Definition fallback_lyrics : str :=
  utf16 "[Verse]
प्रेम की ये कहानी सुनाते हैं
दिल की गहराइयों से आवाज़ लाते हैं

[Chorus]
गाते हैं हम ये गाना
प्रेम का ये दीवाना
खुशी से भरा है मन
सुनो इसे तुम भी एक बार".

Record SongParams := {
  title : str;
  theme : str;
  genre : option str;
  mood : option str;
  styles : option (list str);
  customLyrics : option str;
  usePersona : option bool;
  personaId : option str
}.

(** What [generateCompleteSong] resolves to. *)
Record CompleteSong := {
  lyrics : str;
  song_title : str;
  task_id : option str;
  reference_songs : list str;
  error : option str
}.

Section WithEnv.
Variable env : Env.

Definition getTaskStatus (taskId : str) : M SunoTaskResponse :=
  fun w =>
    bindM (emit (StatusRequest taskId))
          (fun _ => lift (getTaskStatus_outcome
                            (task_endpoint env taskId (status_requests w)))) w.

Section Poll.
Variables (taskId : str) (maxAttempts intervalMs : Z).

Definition wait_before_next_poll (attempt : Z) : M unit :=
  when (attempt <? maxAttempts - 1)%Z (sleep (inject_Z intervalMs)).

(** The body of the [try]: [Some result] stands for [return result]. *)
Definition poll_attempt (attempt : Z) : M (option SunoTaskResponse) :=
  result <-- getTaskStatus taskId ;;
  if (code result =? 202)%Z then
    _ <-- wait_before_next_poll attempt ;; ret None
  else
    match data result with
    | NoArray => _ <-- wait_before_next_poll attempt ;; ret None
    | DataArray clips =>
        let hasCompleted := existsb (state_is "succeeded") clips in
        let hasFailed := existsb (state_is "failed") clips in
        let allPending :=
          forallb (fun clip => state_is "pending" clip || state_is "running" clip)
                  clips in
        if hasCompleted || hasFailed then ret (Some result)
        else if negb allPending then ret (Some result)
        else _ <-- wait_before_next_poll attempt ;; ret None
    end.

(** [Math.min(intervalMs * Math.pow(1.5, attempt), 120000)]. *)
Definition backoffDelay (attempt : Z) : Q :=
  Qmin (inject_Z intervalMs * (3 # 2) ^ attempt) (120000 # 1).

(** One turn of the loop: [inl result] stands for [return result],
    [inr e] for going on with [lastError = e]. *)
Definition poll_turn (attempt : Z) (lastError : option Exn)
  : M (SunoTaskResponse + option Exn) :=
  catch
    (r <-- poll_attempt attempt ;;
     ret (match r with
          | Some result => inl result
          | None => inr lastError
          end))
    (fun error =>
       _ <-- when (attempt <? maxAttempts - 1)%Z (sleep (backoffDelay attempt)) ;;
       ret (inr (Some (as_Error error)))).

Fixpoint poll_loop (remaining : nat) (attempt : Z) (lastError : option Exn)
  : M PollEnd :=
  match remaining with
  | O => ret (Exhausted lastError)
  | S remaining' =>
      turn <-- poll_turn attempt lastError ;;
      match turn with
      | inl result => ret (Returned result)
      | inr lastError' => poll_loop remaining' (attempt + 1)%Z lastError'
      end
  end.

End Poll.

(** [pollTaskCompletion].  The parameter is declared a string, but the
    generation route hands over [result.task_id], which is [undefined] when
    [generateCompleteSong] resolved without a task: [None] stands for that
    call, where [taskId.startsWith], outside every [try], throws. *)
Definition pollTaskCompletion (taskId : option str) (maxAttempts intervalMs : Z)
  : M SunoTaskResponse :=
  match taskId with
  | None =>
      throw (ErrorObj
               (utf16 "Cannot read properties of undefined (reading 'startsWith')"))
  | Some taskId =>
      if startsWith (utf16 "mock_") taskId then
        _ <-- sleep (2000 # 1) ;;
        ret (mock_response taskId (now_iso env))
      else
        fin <-- poll_loop taskId maxAttempts intervalMs (Z.to_nat maxAttempts) 0 None ;;
        match fin with
        | Returned result => ret result
        | Exhausted (Some lastError) =>
            ret {| code := 500; data := DataArray [];
                   message := utf16 "Polling failed: " ++ Js.message lastError |}
        | Exhausted None =>
            catch (getTaskStatus taskId)
                  (fun error =>
                     ret {| code := 500; data := DataArray [];
                            message := utf16 "Final status check failed: "
                                       ++ message_or (utf16 "Unknown error") error |})
        end
  end.

Definition sunoApiCall_create (body : CreateBody) : M CreateJson :=
  _ <-- emit (CreateRequest body) ;;
  lift (sunoApiCall_outcome (create_endpoint env body)).

(** Step 1 of [generateCompleteSong]: the lyrics and the names of the
    references, unless lyrics are given.  [referenceSongs] is assigned
    before the drafting call and keeps its value when that call throws. *)
Definition draftLyrics (params : SongParams) : M (str * list str) :=
  let styles := default [] (styles params) in
  if truthy (customLyrics params) then
    ret (default [] (customLyrics params), [])
  else
    fun w =>
      match LyricsProcessor.findSimilarLyrics (lyricsStore env) (theme params) 3
              LyricsProcessor.default_matchThreshold with
      | Throw _ => (Ok (fallback_lyrics, []), w)
      | Ok similarLyrics =>
          let found := 0 <? length similarLyrics in
          let referenceSongs :=
            if found then map LyricsProcessor.song_name similarLyrics else [] in
          let referenceLyricsTexts :=
            if found then map LyricsProcessor.lyrics_text similarLyrics else [] in
          catch (lyrics <-- Drafting.optimizeLyricsPrompt env (theme params) styles
                              referenceLyricsTexts ;;
                 ret (lyrics, referenceSongs))
                (fun _ => ret (fallback_lyrics, referenceSongs)) w
      end.

Definition create_body (params : SongParams) (lyrics : str) : CreateBody :=
  {| task_type := utf16 "create_music";
     custom_mode := true;
     prompt := lyrics;
     body_title := title params;
     body_tags := match default [] (styles params) with
                  | [] => default (utf16 "bollywood") (genre params)
                          ++ utf16 ", hindi, bollywood"
                  | styles => join (utf16 ", ") styles
                  end;
     body_mv := utf16 "chirp-v5" |}.

Definition mockTaskId : str :=
  utf16 "mock_" ++ decimal (now_ms env) ++ utf16 "_" ++ random_suffix env.

(** Step 2 of [generateCompleteSong]: the creation request, and the mock
    task when it fails. *)
Definition submitMusic (params : SongParams) (lyrics : str) (referenceSongs : list str)
  : M CompleteSong :=
  match lyrics with
  | [] =>
      ret {| lyrics := []; song_title := title params; task_id := None;
             reference_songs := referenceSongs;
             error := Some (utf16 "Failed to generate lyrics") |}
  | _ =>
      catch
        (createResponse <-- sunoApiCall_create (create_body params lyrics) ;;
         if truthy (created_task_id createResponse) then
           ret {| lyrics := lyrics; song_title := title params;
                  task_id := created_task_id createResponse;
                  reference_songs := referenceSongs; error := None |}
         else throw (ErrorObj (utf16 "No task_id received from Suno API")))
        (fun musicError =>
           ret {| lyrics := lyrics; song_title := title params;
                  task_id := Some mockTaskId;
                  reference_songs := referenceSongs; error := None |})
  end.

Definition generateCompleteSong (params : SongParams) : M CompleteSong :=
  drafted <-- draftLyrics params ;;
  submitMusic params (fst drafted) (snd drafted).

(** [safeApiCall]. *)
Definition safeApiCall {A} (apiCall : M A) (errorContext : str) : M A :=
  catch apiCall
        (fun error =>
           throw (ErrorObj (errorContext ++ utf16 ": "
                            ++ message_or (utf16 "Unknown error") error))).
End WithEnv.

End AiMusic.

(** ** Persistence helpers: [supabase.ts] *)

Module Supabase.
Import Effects.

Section WithEnv.
Variable env : Env.

(** [updateSong]: the row is changed and returned; no row, and the client's
    error is thrown. *)
Definition updateSong (songId : str) (updates : Song.Patch) : M Song.t :=
  fun w =>
    match songs w !! songId with
    | Some song =>
        let song' := Song.apply updates song in
        (Ok song',
         {| songs := <[songId := song']> (songs w);
            generation_logs := generation_logs w;
            events := events w ++ [SongUpdate songId updates] |})
    | None => (Throw (row_missing env), w)
    end.

Definition getSongById (songId : str) : M (option Song.t) :=
  fun w => (Ok (songs w !! songId), w).

Definition createGenerationLog (logData : GenerationLog) : M unit :=
  fun w =>
    match log_failure env logData with
    | Some e => (Throw e, w)
    | None =>
        (Ok tt,
         {| songs := songs w;
            generation_logs := generation_logs w ++ [logData];
            events := events w |})
    end.

(** A log written inside its own [try], whose failure is only printed. *)
Definition log_quietly (logData : GenerationLog) : M unit :=
  catch (createGenerationLog logData) (fun _ => ret tt).
End WithEnv.

End Supabase.

(** ** The generation route: [api/songs/generate/route.ts] *)

Module GenerateRoute.
Import Effects Supabase.

(** [duration ? Math.round(parseFloat(duration)) : null]. *)
Definition persisted_duration (duration : option Q) : option Z :=
  match duration with
  | Some q => if Qeq_bool q 0 then None else Some (Qfloor (q + (1 # 2)))
  | None => None
  end.

Definition set_status (s : Song.Status) (error_message : option str) : Song.Patch :=
  {| Song.p_title := None; Song.p_status := Some s; Song.p_task_id := None;
     Song.p_clip_id := None; Song.p_lyrics := None; Song.p_tags := None;
     Song.p_audio_url := None; Song.p_video_url := None; Song.p_image_url := None;
     Song.p_duration := None; Song.p_reference_songs := None;
     Song.p_error_message := option_map Some error_message;
     Song.p_completed_at := None |}.

(** The update that completes a song from a clip. *)
Definition completed_from (successfulClip : Clip.t) (now : str) : Song.Patch :=
  {| Song.p_title := None;
     Song.p_status := Some Song.completed;
     Song.p_task_id := None;
     Song.p_clip_id := Some (Clip.clip_id successfulClip);
     Song.p_lyrics := None;
     Song.p_tags := None;
     Song.p_audio_url := Some (Clip.audio_url successfulClip);
     Song.p_video_url := Some (Clip.video_url successfulClip);
     Song.p_image_url := Some (Clip.image_url successfulClip);
     Song.p_duration := Some (persisted_duration (Clip.duration successfulClip));
     Song.p_reference_songs := None;
     Song.p_error_message := Some None;
     Song.p_completed_at := Some now |}.

Definition log_entry (songId : str) (step status : string) (error_message : option str)
  : GenerationLog :=
  {| log_song_id := songId; step := utf16 step; log_status := utf16 status;
     log_error_message := error_message |}.

Record RouteParams := {
  title : str;
  theme : str;
  styles : list str;
  customLyrics : option str
}.

Section WithEnv.
Variable env : Env.

(** What [pollSongCompletion] writes once polling has resolved. *)
Definition persist_result (songId : str) (result : SunoTaskResponse) : M unit :=
  match data result with
  | NoArray =>
      if (code result =? 500)%Z
         && includes (utf16 "Polling failed") (message result) then
        _ <-- updateSong env songId
                (set_status Song.generating
                   (Some (utf16 "Song is being generated - Suno API experiencing temporary issues. Please check back later."))) ;;
        log_quietly env
          (log_entry songId "polling_failed_api_issues" "error"
             (Some (utf16 "Suno API service issues during polling - song likely still generating")))
      else
        _ <-- updateSong env songId
                (set_status Song.failed (Some (utf16 "Invalid response from Suno API"))) ;;
        ret tt
  | DataArray clips =>
      match find (AiMusic.state_is "succeeded") clips with
      | Some successfulClip =>
          _ <-- updateSong env songId (completed_from successfulClip (now_iso env)) ;;
          log_quietly env (log_entry songId "generation_completed" "success" None)
      | None =>
          match find (AiMusic.state_is "failed") clips with
          | Some failedClip =>
              _ <-- updateSong env songId
                      (set_status Song.failed
                         (Some (utf16 "Song generation failed on Suno API"))) ;;
              log_quietly env
                (log_entry songId "generation_failed" "error"
                   (Some (utf16 "Song generation failed on Suno API")))
          | None =>
              _ <-- updateSong env songId
                      (set_status Song.failed (Some (utf16 "Song generation timed out"))) ;;
              log_quietly env
                (log_entry songId "generation_timeout" "error"
                   (Some (utf16 "Song generation timed out after 5 minutes")))
          end
      end
  end.

Definition pollSongCompletion (songId : str) (taskId : option str) : M unit :=
  catch
    (result <-- AiMusic.pollTaskCompletion env taskId 15 30000 ;;
     persist_result songId result)
    (fun error =>
       _ <-- updateSong env songId
               (set_status Song.failed
                  (Some (message_or (utf16 "Polling error") error))) ;;
       createGenerationLog env
         (log_entry songId "polling_error" "error"
            (Some (message_or (utf16 "Polling error") error)))).

Definition task_info (params : RouteParams) (result : AiMusic.CompleteSong) : Song.Patch :=
  {| Song.p_title := Some (AiMusic.song_title result);
     Song.p_status := None;
     Song.p_task_id := AiMusic.task_id result;
     Song.p_clip_id := None;
     Song.p_lyrics := Some (AiMusic.lyrics result);
     Song.p_tags := Some (match styles params with
                          | [] => utf16 "bollywood, hindi"
                          | _ => join (utf16 ", ") (styles params)
                          end);
     Song.p_audio_url := None; Song.p_video_url := None; Song.p_image_url := None;
     Song.p_duration := None;
     Song.p_reference_songs := Some (AiMusic.reference_songs result);
     Song.p_error_message := None;
     Song.p_completed_at := None |}.

Definition generateSongInBackground (songId : str) (params : RouteParams) : M unit :=
  catch
    (_ <-- updateSong env songId (set_status Song.generating None) ;;
     result <-- AiMusic.safeApiCall
                  (AiMusic.generateCompleteSong env
                     {| AiMusic.title := title params;
                        AiMusic.theme := theme params;
                        AiMusic.genre := None;
                        AiMusic.mood := None;
                        AiMusic.styles := Some (styles params);
                        AiMusic.customLyrics := customLyrics params;
                        AiMusic.usePersona := Some false;
                        AiMusic.personaId := None |})
                  (utf16 "Song generation") ;;
     _ <-- log_quietly env (log_entry songId "music_generation_started" "success" None) ;;
     _ <-- updateSong env songId (task_info params result) ;;
     detached (pollSongCompletion songId (AiMusic.task_id result)))
    (fun error =>
       _ <-- updateSong env songId
               (set_status Song.failed
                  (Some (message_or (utf16 "Unknown error") error))) ;;
       log_quietly env
         (log_entry songId "generation_failed" "error"
            (Some (message_or (utf16 "Unknown error") error)))).
End WithEnv.

(** The statuses written by the updates among some events, in order. *)
Definition status_writes (songId : str) (evs : list Event) : list Song.Status :=
  flat_map (fun e => match e with
                     | SongUpdate id updates =>
                         if str_eqb id songId then
                           match Song.p_status updates with
                           | Some s => [s]
                           | None => []
                           end
                         else []
                     | _ => []
                     end) evs.

End GenerateRoute.

(** ** The manual check: [api/songs/[id]/retry/route.ts] *)

Module RetryRoute.
Import Effects Supabase GenerateRoute.

(** The JSON answer of the route, with the members the route sends. *)
Record ApiReply := {
  http_status : Z;
  success : option bool;
  status : option Song.Status;
  error : option str;
  message : option str;
  details : option str;
  audio_url : option str
}.

Definition refusal (http : Z) (error : string) : ApiReply :=
  {| http_status := http; success := None; status := None;
     error := Some (utf16 error); message := None; details := None;
     audio_url := None |}.

Definition answer (success : bool) (status : Song.Status) (message : string) : ApiReply :=
  {| http_status := 200; success := Some success; status := Some status;
     error := None; message := Some (utf16 message); details := None;
     audio_url := None |}.

Section WithEnv.
Variable env : Env.

(** The direct [fetch] of the task, and what the route makes of it. *)
Definition fetch_result (taskId : str) : M SunoTaskResponse :=
  fun w =>
    bindM (emit (StatusRequest taskId))
      (fun _ =>
         match task_endpoint env taskId (status_requests w) with
         | NetworkError e => throw e
         | Response status text json =>
             if (status =? 202)%Z then
               notReadyResponse <-- lift json ;;
               ret {| code := 202; data := DataArray [];
                      Effects.message :=
                        if truthy (error_member notReadyResponse)
                        then default [] (error_member notReadyResponse)
                        else utf16 "Task not ready, please wait" |}
             else if AiMusic.ok_status status then
               body <-- lift json ;; ret (as_task body)
             else throw (AiMusic.api_error status text)
         end) w.

(** The inner [try] of the route, for a song that passed the guards: the
    task is asked for once and the song is updated from the answer. *)
Definition check_task (songId : str) (task_id : str) : M ApiReply :=
  catch
    (result <-- fetch_result task_id ;;
     if (code result =? 202)%Z then
       _ <-- updateSong env songId
               (set_status Song.generating
                  (Some (utf16 "Song is still being generated. Please try again later."))) ;;
       ret (answer true Song.generating
              "Song is still being generated. Please try again in a few minutes.")
     else
       match data result with
       | DataArray (clip :: rest) =>
           let clips := clip :: rest in
           match find (AiMusic.state_is "succeeded") clips with
           | Some successfulClip =>
               _ <-- updateSong env songId
                       (completed_from successfulClip (now_iso env)) ;;
               _ <-- log_quietly env
                       (log_entry songId "manual_retry_success" "success" None) ;;
               ret {| http_status := 200; success := Some true;
                      status := Some Song.completed; error := None;
                      message := Some (utf16 "Song generation completed successfully!");
                      details := None;
                      audio_url := Some (Clip.audio_url successfulClip) |}
           | None =>
               match find (AiMusic.state_is "failed") clips with
               | Some failedClip =>
                   _ <-- updateSong env songId
                           (set_status Song.failed
                              (Some (utf16 "Song generation failed on Suno API"))) ;;
                   ret (answer false Song.failed
                          "Song generation failed. Please try creating a new song.")
               | None =>
                   _ <-- updateSong env songId
                           (set_status Song.generating
                              (Some (utf16 "Song is still being generated. Please try again later."))) ;;
                   ret (answer true Song.generating
                          "Song is still being generated. Please try again in a few minutes.")
               end
           end
       | _ =>
           _ <-- updateSong env songId
                   (set_status Song.generating
                      (Some (utf16 "Unable to check song status due to API issues. Please try again later."))) ;;
           ret (answer true Song.generating
                  "Unable to check song status due to temporary API issues. Please try again later.")
       end)
    (fun error =>
       _ <-- log_quietly env
               (log_entry songId "manual_retry_failed" "error"
                  (Some (message_or (utf16 "Unknown error") error))) ;;
       _ <-- updateSong env songId
               (set_status Song.generating
                  (Some (utf16 "Unable to check song status due to API issues. Please try again later."))) ;;
       ret {| http_status := 200; success := Some false;
              status := Some Song.generating;
              error := Some (message_or (utf16 "Unknown error") error);
              message := Some (utf16 "Unable to check song status due to temporary API issues. Please try again later.");
              details := None; audio_url := None |}).

(** [POST]: [userId] is what [auth()] gives, absent without a session;
    [!userId] turns away the empty text too. *)
Definition POST (userId : option str) (songId : str) : M ApiReply :=
  catch
    (if negb (truthy userId) then ret (refusal 401 "Unauthorized")
     else
       match database_error env with
       | Some dbError =>
           ret {| http_status := 503; success := None; status := None;
                  error := Some (utf16 "Database not properly set up");
                  message := Some (utf16 "Please run the database setup script first");
                  details := Some dbError; audio_url := None |}
       | None =>
           found <-- getSongById songId ;;
           match found with
           | None => ret (refusal 404 "Song not found")
           | Some song =>
               if negb (bool_decide (Some (Song.clerk_user_id song) = userId)) then
                 ret (refusal 403 "Forbidden")
               else if negb (truthy (Song.task_id song)) then
                 ret (refusal 400 "Song has no task ID - cannot retry")
               else
                 match Song.status song with
                 | Song.completed => ret (refusal 400 "Song is already completed")
                 | _ => check_task songId (default [] (Song.task_id song))
                 end
           end
       end)
    (fun _ => ret (refusal 500 "Internal server error")).
End WithEnv.

End RetryRoute.

(** ** What a computation may do *)

Module Footprint.
Import Effects.

(** A computation that never throws. *)
Definition safe {A} (m : M A) : Prop :=
  forall w, exists a w', m w = (Ok a, w').

(** A relation between the world before and the world after that every run
    of the computation satisfies. *)
Definition respects (R : World -> World -> Prop) {A} (m : M A) : Prop :=
  forall w r w', m w = (r, w') -> R w w'.

(** The events grow by events that satisfy [P]. *)
Definition grows (P : Event -> Prop) (w w' : World) : Prop :=
  exists new, events w' = events w ++ new /\ Forall P new.

(** The tables are left alone, and the events grow by events that satisfy [P]. *)
Definition outside (P : Event -> Prop) (w w' : World) : Prop :=
  songs w' = songs w /\ generation_logs w' = generation_logs w /\ grows P w w'.

(** The events of polling: delays and status requests. *)
Definition poll_event (e : Event) : Prop :=
  match e with
  | Slept _ | StatusRequest _ => True
  | _ => False
  end.

Definition is_generate_content (e : Event) : Prop :=
  match e with
  | GenerateContent _ => True
  | _ => False
  end.

Definition is_create_request (e : Event) : Prop :=
  match e with
  | CreateRequest _ => True
  | _ => False
  end.

Definition is_song_update (e : Event) : Prop :=
  match e with
  | SongUpdate _ _ => True
  | _ => False
  end.

(** What the manual check may do to the world: send requests other than
    creation requests, leave the other songs alone, and leave the task
    identifier and the owner of the song as they are, its status either kept
    or set to a status other than [pending]. *)
Definition retry_step (songId : str) (w w' : World) : Prop :=
  grows (fun e => ~ is_create_request e) w w'
  /\ (forall id, id <> songId -> songs w' !! id = songs w !! id)
  /\ (forall song, songs w !! songId = Some song ->
        exists song',
          songs w' !! songId = Some song'
          /\ Song.task_id song' = Song.task_id song
          /\ Song.clerk_user_id song' = Song.clerk_user_id song
          /\ (Song.status song' = Song.status song
              \/ Song.status song' <> Song.pending)).

End Footprint.

(** ** Sample data *)

Module Samples.
Import LyricsProcessor Ingestion.

(** The lower-casing of the host on the sample texts, which are all of Basic
    Latin characters: the letters [A] to [Z] are lowered. *)
Definition basic_lower : str -> str := map lc.

Definition sample_corpus : list LyricsRow :=
  [ {| row_song_name := utf16 "Love Song A"; row_lyrics_text := utf16 "pyar ka geet" |};
    {| row_song_name := utf16 "love song b"; row_lyrics_text := utf16 "dil se" |};
    {| row_song_name := utf16 "Yeh Dosti"; row_lyrics_text := utf16 "yeh dosti hum nahin" |} ].

Definition second_love_row : LyricsRow :=
  {| row_song_name := utf16 "love song b"; row_lyrics_text := utf16 "dil se" |}.

(** A runtime whose parser answers with the array of the sample cell, and
    whose services accept what they are given. *)
Definition sample_env : IngestEnv :=
  {| JSON_parse := fun _ =>
       Ok [ JsonString (utf16 "Lyrics"); JsonString (utf16 "12");
            JsonString (utf16 "Yeh dosti hum nahin todhenge") ];
     generateEmbedding := fun _ => Ok [];
     insert := fun _ => Ok None |}.

Definition sample_song : LyricsData :=
  {| songTitle := utf16 "Yeh Dosti";
     hindiLyrics := utf16 "['Lyrics', '12', 'Yeh dosti hum nahin todhenge']";
     englishTranslation := [] |}.

Definition sample_row : StoredRow :=
  {| st_song_name := utf16 "Yeh Dosti";
     st_lyrics_text := utf16 "Yeh dosti hum nahin todhenge";
     st_embedding := [] |}.

(** The print of a Python list whose first string holds an apostrophe: the
    string is printed within double quotes. *)
Definition quoted_cell : str :=
  [LBRACKET; QUOTE] ++ utf16 "Don't go" ++ [QUOTE]
  ++ utf16 ", 'Lyrics', '12', 'Yeh dosti']".

(** An audio service that is down, a text service out of quota, an empty
    lyrics table. *)
Definition outage (status_answers : str -> nat -> Effects.Fetch Effects.TaskJson)
  : Effects.Env :=
  {| Effects.lyricsStore := table_store basic_lower [];
     Effects.generateContent := fun _ => Throw (ErrorObj (utf16 "quota exceeded"));
     Effects.create_endpoint := fun _ => Effects.NetworkError (ErrorObj (utf16 "fetch failed"));
     Effects.task_endpoint := status_answers;
     Effects.now_ms := 1700000000000;
     Effects.now_iso := utf16 "2024-01-01T00:00:00.000Z";
     Effects.random_suffix := utf16 "k3j9x0q1z";
     Effects.database_error := None;
     Effects.row_missing := NonError (utf16 "PGRST116");
     Effects.log_failure := fun _ => None |}.

Definition always_down : str -> nat -> Effects.Fetch Effects.TaskJson :=
  fun _ _ => Effects.NetworkError (ErrorObj (utf16 "fetch failed")).

Definition not_ready_json : Effects.TaskJson :=
  {| Effects.as_task := {| Effects.code := 202; Effects.data := Effects.NoArray;
                           Effects.message := [] |};
     Effects.error_member := None |}.

Definition always_not_ready : str -> nat -> Effects.Fetch Effects.TaskJson :=
  fun _ _ => Effects.Response 202 [] (Ok not_ready_json).

Definition ready_clip : Clip.t :=
  {| Clip.clip_id := utf16 "clip-1"; Clip.title := utf16 "Barsaat";
     Clip.tags := utf16 "romantic"; Clip.lyrics := utf16 "la la";
     Clip.image_url := utf16 "https://cdn/i.jpg";
     Clip.audio_url := utf16 "https://cdn/a.mp3";
     Clip.video_url := utf16 "https://cdn/v.mp4";
     Clip.created_at := utf16 "2024-01-01"; Clip.mv := utf16 "chirp-v5";
     Clip.duration := Some (367 # 2); Clip.state := utf16 "succeeded" |}.

Definition ready_json : Effects.TaskJson :=
  {| Effects.as_task := {| Effects.code := 200;
                           Effects.data := Effects.DataArray [ready_clip];
                           Effects.message := utf16 "success" |};
     Effects.error_member := None |}.

(** Three answers [202], then the clip. *)
Definition ready_after_three : str -> nat -> Effects.Fetch Effects.TaskJson :=
  fun _ n => if n <? 3 then Effects.Response 202 [] (Ok not_ready_json)
             else Effects.Response 200 [] (Ok ready_json).

Definition a_song (status : Song.Status) : Song.t :=
  {| Song.clerk_user_id := utf16 "user_1"; Song.title := utf16 "Barsaat";
     Song.status := status; Song.task_id := Some (utf16 "task-1");
     Song.clip_id := None; Song.lyrics := None; Song.tags := None;
     Song.audio_url := None; Song.video_url := None; Song.image_url := None;
     Song.duration := None; Song.reference_songs := [];
     Song.error_message := None; Song.completed_at := None |}.

(** A world whose one song has the given status. *)
Definition one_song (status : Song.Status) : Effects.World :=
  {| Effects.songs := {[ utf16 "song-1" := a_song status ]};
     Effects.generation_logs := [];
     Effects.events := [] |}.

Definition sample_params : AiMusic.SongParams :=
  {| AiMusic.title := utf16 "Barsaat"; AiMusic.theme := utf16 "rain in the city";
     AiMusic.genre := None; AiMusic.mood := None; AiMusic.styles := None;
     AiMusic.customLyrics := None; AiMusic.usePersona := Some false;
     AiMusic.personaId := None |}.

End Samples.

(** ** Answers of the status endpoint, as the polling loop reads them *)

Module PollAnswers.
Import Effects AiMusic.

(** An answer after which the loop of [pollTaskCompletion] goes on: code
    202, data that is no array, or clips that are all pending or running. *)
Definition keeps_polling (result : SunoTaskResponse) : bool :=
  (code result =? 202)%Z
  || match data result with
     | NoArray => true
     | DataArray clips =>
         negb (existsb (state_is "succeeded") clips
               || existsb (state_is "failed") clips)
         && forallb (fun clip => state_is "pending" clip || state_is "running" clip)
                    clips
     end.

(** An answer whose clips, if any, are all pending or running: what the
    service says of a task that is not done.  (The answer made of a response
    with status 202 is one, its array being empty.) *)
Definition still_waiting (result : SunoTaskResponse) : bool :=
  match data result with
  | NoArray => false
  | DataArray clips =>
      negb (existsb (state_is "succeeded") clips
            || existsb (state_is "failed") clips)
      && forallb (fun clip => state_is "pending" clip || state_is "running" clip)
                 clips
  end.

(** What [getTaskStatus] makes of the answer to the n-th status request of a
    task. *)
Definition outcome_at (env : Env) (taskId : str) (n : nat) : Result SunoTaskResponse :=
  getTaskStatus_outcome (task_endpoint env taskId n).

(** An outcome of a request after which the loop goes on: a thrown value, or
    an answer that keeps it polling. *)
Definition goes_on (outcome : Result SunoTaskResponse) : bool :=
  match outcome with
  | Throw _ => true
  | Ok result => keeps_polling result
  end.

(** The error the loop remembers after an outcome. *)
Definition remembered (outcome : Result SunoTaskResponse) (lastError : option Exn)
  : option Exn :=
  match outcome with
  | Throw e => Some (as_Error e)
  | Ok _ => lastError
  end.

(** The error remembered after the outcomes of the requests [first],
    [first + 1], ..., [first + count - 1] of a task. *)
Fixpoint remembered_after (outcomes : nat -> Result SunoTaskResponse)
    (first count : nat) (lastError : option Exn) : option Exn :=
  match count with
  | O => lastError
  | S count' =>
      remembered_after outcomes (S first) count'
        (remembered (outcomes first) lastError)
  end.

(** The delays among some events, in order. *)
Definition delays (evs : list Event) : list Q :=
  flat_map (fun e => match e with
                     | Slept ms => [ms]
                     | _ => []
                     end) evs.

(** The status requests among some events. *)
Definition requests (evs : list Event) : nat :=
  length (List.filter is_status_request evs).

End PollAnswers.

(** ** One turn of the polling loop, as a function of the outcome of its request *)

Module PollTrace.
Import Effects AiMusic PollAnswers.

Definition add_events (w : World) (new : list Event) : World :=
  {| songs := songs w; generation_logs := generation_logs w;
     events := events w ++ new |}.

Section Turn.
Variables (taskId : str) (maxAttempts intervalMs : Z).

(** The delay after an outcome that lets the loop go on. *)
Definition turn_delay (attempt : Z) (outcome : Result SunoTaskResponse) : Q :=
  match outcome with
  | Throw _ => backoffDelay intervalMs attempt
  | Ok _ => inject_Z intervalMs
  end.

Definition turn_events (attempt : Z) (outcome : Result SunoTaskResponse) : list Event :=
  StatusRequest taskId
  :: (if goes_on outcome && (attempt <? maxAttempts - 1)%Z
      then [Slept (turn_delay attempt outcome)] else []).

Definition turn_result (outcome : Result SunoTaskResponse) (lastError : option Exn)
  : SunoTaskResponse + option Exn :=
  match outcome with
  | Ok result => if keeps_polling result then inr lastError else inl result
  | Throw _ => inr (remembered outcome lastError)
  end.
End Turn.

(** The events of a run of [n] turns none of which throws or returns: a
    request and a delay for every turn but the last, which only has the
    request. *)
Definition waiting_events (taskId : str) (intervalMs : Z) (n : nat) : list Event :=
  match n with
  | O => []
  | S m =>
      concat (repeat [StatusRequest taskId; Slept (inject_Z intervalMs)] m)
      ++ [StatusRequest taskId]
  end.

End PollTrace.

(** ** The argument of [generateCompleteSong] in the generation route *)

Module Background.
Import Effects.

(** [{ ...params, usePersona: false }]. *)
Definition song_params (params : GenerateRoute.RouteParams) : AiMusic.SongParams :=
  {| AiMusic.title := GenerateRoute.title params;
     AiMusic.theme := GenerateRoute.theme params;
     AiMusic.genre := None;
     AiMusic.mood := None;
     AiMusic.styles := Some (GenerateRoute.styles params);
     AiMusic.customLyrics := GenerateRoute.customLyrics params;
     AiMusic.usePersona := Some false;
     AiMusic.personaId := None |}.

(** An event that reaches the audio service. *)
Definition is_audio_request (e : Event) : bool :=
  match e with
  | CreateRequest _ | StatusRequest _ => true
  | _ => false
  end.

End Background.

(** ** The styles of a generation request: [POST] of [api/songs/generate/route.ts] *)

Module GenerateRequest.

Definition COMMA : N := 44.

(** The [styles] member of the request body: a string, an array (its
    elements taken to be strings), or anything else. *)
Inductive StylesField :=
  | StylesString (s : str)
  | StylesArray (items : list str)
  | StylesOther.

(** [s.split(",")]. *)
Fixpoint split_comma_go (cur : str) (s : str) : list str :=
  match s with
  | [] => [cur]
  | c :: t =>
      if (c =? COMMA)%N then cur :: split_comma_go [] t
      else split_comma_go (cur ++ [c]) t
  end.

Definition split_comma (s : str) : list str := split_comma_go [] s.

(** The parsing of the styles from a comma-separated string to an array. *)
Definition stylesArray (styles : StylesField) : list str :=
  match styles with
  | StylesString s =>
      List.filter (fun s => 0 <? length s) (map trim (split_comma s))
  | StylesArray items => items
  | StylesOther => []
  end.

(** [stylesArray.length > 0 ? stylesArray[0] : "bollywood"]. *)
Definition genre (stylesArray : list str) : str :=
  match stylesArray with
  | first :: _ => first
  | [] => utf16 "bollywood"
  end.

(** A style as the parsing leaves it: not empty, without a comma, without
    white space around it. *)
Definition plain_style (s : str) : Prop :=
  s <> [] /\ ~ In COMMA s /\ trim s = s.

End GenerateRequest.

(** ** More sample data *)

Module MoreSamples.
Import Samples.

Definition failed_clip : Clip.t :=
  {| Clip.clip_id := utf16 "clip-2"; Clip.title := utf16 "Barsaat";
     Clip.tags := utf16 "romantic"; Clip.lyrics := utf16 "la la";
     Clip.image_url := []; Clip.audio_url := []; Clip.video_url := [];
     Clip.created_at := utf16 "2024-01-01"; Clip.mv := utf16 "chirp-v5";
     Clip.duration := None; Clip.state := utf16 "failed" |}.

Definition failed_json : Effects.TaskJson :=
  {| Effects.as_task := {| Effects.code := 200;
                           Effects.data := Effects.DataArray [failed_clip];
                           Effects.message := utf16 "success" |};
     Effects.error_member := None |}.

(** A request that fails, an answer [202], then the failed clip. *)
Definition flaky_then_failed : str -> nat -> Effects.Fetch Effects.TaskJson :=
  fun _ n =>
    match n with
    | 0 => Effects.NetworkError (ErrorObj (utf16 "fetch failed"))
    | 1 => Effects.Response 202 [] (Ok not_ready_json)
    | _ => Effects.Response 200 [] (Ok failed_json)
    end.

(** A body that holds the succeeded clip under the code [202], and then the
    failed clip. *)
Definition early_clip_json : Effects.TaskJson :=
  {| Effects.as_task := {| Effects.code := 202;
                           Effects.data := Effects.DataArray [ready_clip];
                           Effects.message := utf16 "success" |};
     Effects.error_member := None |}.

Definition early_clip_then_failed : str -> nat -> Effects.Fetch Effects.TaskJson :=
  fun _ n =>
    match n with
    | 0 => Effects.Response 200 [] (Ok early_clip_json)
    | _ => Effects.Response 200 [] (Ok failed_json)
    end.

(** An embedding service that is down and a table whose keyword query
    throws, while its plain query would answer. *)
Definition broken_search : LyricsProcessor.LyricsStore :=
  {| LyricsProcessor.toLowerCase := basic_lower;
     LyricsProcessor.generateEmbedding := fun _ => Throw (ErrorObj (utf16 "quota exceeded"));
     LyricsProcessor.match_lyrics := fun _ _ _ => Ok {| data := Some []; error := None |};
     LyricsProcessor.search_text := fun _ _ => Throw (ErrorObj (utf16 "fetch failed"));
     LyricsProcessor.sample_rows := LyricsProcessor.table_sample sample_corpus |}.

(** The clip is ready at once. *)
Definition always_ready : str -> nat -> Effects.Fetch Effects.TaskJson :=
  fun _ _ => Effects.Response 200 [] (Ok ready_json).

(** A request that brings its own lyrics. *)
Definition custom_params : AiMusic.SongParams :=
  {| AiMusic.title := utf16 "Barsaat"; AiMusic.theme := utf16 "rain in the city";
     AiMusic.genre := None; AiMusic.mood := None; AiMusic.styles := None;
     AiMusic.customLyrics := Some (utf16 "[Verse]
Baarish ki boondein");
     AiMusic.usePersona := Some false; AiMusic.personaId := None |}.

(** The request of the generation route for the sample song. *)
Definition route_params : GenerateRoute.RouteParams :=
  {| GenerateRoute.title := utf16 "Barsaat";
     GenerateRoute.theme := utf16 "rain in the city";
     GenerateRoute.styles := [];
     GenerateRoute.customLyrics := None |}.

(** A text service that answers with emphasis and nothing else, an audio
    service that is down. *)
Definition only_emphasis : Effects.Env :=
  {| Effects.lyricsStore := LyricsProcessor.table_store basic_lower [];
     Effects.generateContent := fun _ => Ok (utf16 "**Here you go!**");
     Effects.create_endpoint := fun _ => Effects.NetworkError (ErrorObj (utf16 "fetch failed"));
     Effects.task_endpoint := always_down;
     Effects.now_ms := 1700000000000;
     Effects.now_iso := utf16 "2024-01-01T00:00:00.000Z";
     Effects.random_suffix := utf16 "k3j9x0q1z";
     Effects.database_error := None;
     Effects.row_missing := NonError (utf16 "PGRST116");
     Effects.log_failure := fun _ => None |}.

(** A request with two styles, and what drafting and submission gave. *)
Definition styled_params : GenerateRoute.RouteParams :=
  {| GenerateRoute.title := utf16 "Barsaat";
     GenerateRoute.theme := utf16 "rain in the city";
     GenerateRoute.styles := [utf16 "romantic"; utf16 "sufi"];
     GenerateRoute.customLyrics := None |}.

Definition a_result : AiMusic.CompleteSong :=
  {| AiMusic.lyrics := utf16 "la la"; AiMusic.song_title := utf16 "Barsaat";
     AiMusic.task_id := Some (utf16 "task-1"); AiMusic.reference_songs := [];
     AiMusic.error := None |}.

End MoreSamples.

(** * Properties *)

(** ** Facts about strings *)

Module StrFacts.

Lemma starts_ci_prefix pat u v :
  starts_ci pat u = true -> u `prefix_of` v -> starts_ci pat v = true.
Proof.
  revert u v. induction pat as [|p pat IH]; intros u v Hs Hp; [done|].
  destruct u as [|c u]; [done|].
  destruct v as [|d v]; [by apply prefix_nil_inv in Hp|].
  pose proof (prefix_cons_inv_1 _ _ _ _ Hp) as ->.
  apply prefix_cons_inv_2 in Hp. simpl in *.
  apply andb_true_iff in Hs as [-> Hs]. simpl. eauto.
Qed.

Lemma occurs_ci_cons lit c t :
  occurs_ci lit (c :: t) = starts_ci lit (c :: t) || occurs_ci lit t.
Proof.
  unfold occurs_ci. simpl search.
  destruct (starts_ci lit (c :: t)); [done|].
  by destruct (search (starts_ci lit) t).
Qed.

Lemma occurs_ci_nil lit : occurs_ci lit [] = starts_ci lit [].
Proof. unfold occurs_ci. simpl. by destruct (starts_ci lit []). Qed.

(** An occurrence in a prefix is an occurrence in the whole text. *)
Lemma occurs_ci_prefix lit u v :
  u `prefix_of` v -> occurs_ci lit u = true -> occurs_ci lit v = true.
Proof.
  revert v. induction u as [|c u IH]; intros v Hp Ho.
  - rewrite occurs_ci_nil in Ho.
    destruct v as [|d v]; [by rewrite occurs_ci_nil|].
    rewrite occurs_ci_cons. apply orb_true_iff. left.
    eapply starts_ci_prefix; [exact Ho|apply prefix_nil].
  - destruct v as [|d v]; [by apply prefix_nil_inv in Hp|].
    pose proof (prefix_cons_inv_1 _ _ _ _ Hp) as ->.
    pose proof (prefix_cons_inv_2 _ _ _ _ Hp) as Hp'.
    rewrite occurs_ci_cons in Ho |- *.
    apply orb_true_iff in Ho as [Ho|Ho]; apply orb_true_iff.
    + left. eapply starts_ci_prefix; eauto.
    + right. eauto.
Qed.

(** An occurrence in a suffix is an occurrence in the whole text. *)
Lemma occurs_ci_app_r lit k u :
  occurs_ci lit u = true -> occurs_ci lit (k ++ u) = true.
Proof.
  induction k as [|c k IH]; [done|]. intros Ho. simpl.
  rewrite occurs_ci_cons. apply orb_true_iff. right. auto.
Qed.

Lemma cut_at_prefix lit s : cut_at lit s `prefix_of` s.
Proof.
  induction s as [|c s IH]; simpl.
  - destruct (starts_ci lit []); apply prefix_nil.
  - destruct (starts_ci lit (c :: s)); [apply prefix_nil|by apply prefix_cons].
Qed.

(** After the cut no occurrence of the literal is left. *)
Lemma cut_at_no_occurrence lit s :
  lit <> [] -> occurs_ci lit (cut_at lit s) = false.
Proof.
  intros Hlit.
  assert (Hnil : starts_ci lit [] = false) by (by destruct lit).
  induction s as [|c s IH]; simpl.
  - rewrite Hnil. by rewrite occurs_ci_nil.
  - destruct (starts_ci lit (c :: s)) eqn:E.
    + by rewrite occurs_ci_nil.
    + rewrite occurs_ci_cons, IH, orb_false_r.
      destruct (starts_ci lit (c :: cut_at lit s)) eqn:E'; [|done].
      rewrite (starts_ci_prefix _ _ (c :: s) E') in E; [done|].
      apply prefix_cons, cut_at_prefix.
Qed.

Lemma trimStart_suffix s : exists k, s = k ++ trimStart s.
Proof.
  induction s as [|c s [k IH]]; [by exists []|]. simpl.
  destruct (is_space c); [|by exists []].
  exists (c :: k). simpl. by f_equal.
Qed.

Lemma trimEnd_prefix s : trimEnd s `prefix_of` s.
Proof.
  unfold trimEnd. destruct (trimStart_suffix (rev s)) as [k Hk].
  exists (rev k). rewrite <- rev_app_distr, <- Hk. by rewrite rev_involutive.
Qed.

Lemma trimStart_head c s : is_space c = false -> trimStart (c :: s) = c :: s.
Proof. intros H. simpl. by rewrite H. Qed.

(** Neither [trim] nor a cut creates an occurrence. *)
Lemma occurs_ci_trim lit s : occurs_ci lit (trim s) = true -> occurs_ci lit s = true.
Proof.
  unfold trim. intros H.
  apply (occurs_ci_prefix _ _ _ (trimEnd_prefix _)) in H.
  destruct (trimStart_suffix s) as [k Hk]. rewrite Hk.
  by apply occurs_ci_app_r.
Qed.

Lemma startsWith_app_refl pat rest : startsWith pat (pat ++ rest) = true.
Proof. induction pat as [|p pat IH]; [done|]. simpl. by rewrite N.eqb_refl. Qed.

Lemma search_here (p : str -> bool) s : p s = true -> search p s = Some 0.
Proof. intros H. destruct s; simpl; by rewrite H. Qed.

(** A text includes what it begins with. *)
Lemma includes_app_refl pat rest : includes pat (pat ++ rest) = true.
Proof. unfold includes. by rewrite search_here by apply startsWith_app_refl. Qed.

End StrFacts.

(** ** The cleanup pass *)

Module GeminiFacts.
Import StrFacts Gemini.

Lemma trailing_patterns_prefix lits s :
  run_patterns (map Trailing lits) s `prefix_of` s.
Proof.
  revert s. induction lits as [|l lits IH]; intros s; simpl; [done|].
  etrans; [apply IH|apply cut_at_prefix].
Qed.

(** Once a phrase has been cut, the later cuts only shorten the text. *)
Lemma trailing_patterns_no_occurrence lits s :
  Forall (fun lit => lit <> []) lits ->
  Forall (fun lit => occurs_ci lit (run_patterns (map Trailing lits) s) = false) lits.
Proof.
  intros Hne. revert s.
  induction Hne as [|l lits Hl Hne IH]; intros s; constructor.
  - simpl. destruct (occurs_ci l _) eqn:E; [|done].
    apply (occurs_ci_prefix _ _ _ (trailing_patterns_prefix _ _)) in E.
    by rewrite cut_at_no_occurrence in E.
  - apply IH.
Qed.

Lemma trailing_phrases_nonempty : Forall (fun lit : str => lit <> []) trailing_phrases.
Proof. repeat constructor; discriminate. Qed.

Lemma cut_last_section_prefix s : cut_last_section s `prefix_of` s.
Proof.
  unfold cut_last_section, substring_to.
  destruct (first_block s); [apply prefix_take|done].
Qed.

Lemma cleanLyricsResponse_unfold raw :
  cleanLyricsResponse raw =
  trim (cut_last_section
          (run_patterns unwantedPatterns
             (match search section_start (trim raw) with
              | Some i => drop i (trim raw)
              | None => trim raw
              end))).
Proof. reflexivity. Qed.

Lemma run_patterns_unwanted s :
  run_patterns unwantedPatterns s =
  run_patterns (map Trailing trailing_phrases)
    (replace_pattern Italic (replace_pattern Bold s)).
Proof. reflexivity. Qed.

Lemma no_trailing_phrase raw :
  Forall (fun phrase => occurs_ci phrase (cleanLyricsResponse raw) = false)
         trailing_phrases.
Proof.
  rewrite cleanLyricsResponse_unfold.
  set (t := match search section_start (trim raw) with
            | Some i => drop i (trim raw) | None => trim raw end).
  rewrite run_patterns_unwanted.
  set (t3 := replace_pattern Italic (replace_pattern Bold t)).
  pose proof (trailing_patterns_no_occurrence _ t3 trailing_phrases_nonempty) as H.
  eapply Forall_impl; [exact H|]. cbv beta. intros lit Hlit.
  destruct (occurs_ci lit (trim _)) eqn:E; [|done].
  apply occurs_ci_trim in E.
  apply (occurs_ci_prefix _ _ _ (cut_last_section_prefix _)) in E.
  exact (eq_trans (eq_sym E) Hlit).
Qed.

(** *** The preamble *)

Lemma search_found_here p s i : search p s = Some i -> p (drop i s) = true.
Proof.
  revert i. induction s as [|c s IH]; intros i; simpl.
  - destruct (p []) eqn:E; [|done]. intros [= <-]. done.
  - destruct (p (c :: s)) eqn:E; [intros [= <-]; done|].
    destruct (search p s) as [j|]; [|done]. intros [= <-]. simpl. auto.
Qed.

Lemma remove_all_keeps_word m w t :
  (forall c s, c <> STAR -> m (c :: s) = None) ->
  Forall (fun c => lc c <> STAR) w ->
  starts_ci w t = true ->
  starts_ci w (remove_all m t) = true.
Proof.
  intros Hm Hw. revert t. unfold remove_all.
  induction Hw as [|a w Ha Hw IH]; intros t Hs; [done|].
  destruct t as [|c t]; [done|]. simpl in Hs.
  apply andb_true_iff in Hs as [Hac Hs]. apply N.eqb_eq in Hac.
  assert (c <> STAR) as Hc.
  { intros ->. apply Ha. rewrite Hac. reflexivity. }
  simpl. rewrite (Hm _ _ Hc). simpl.
  rewrite Hac, N.eqb_refl. simpl. auto.
Qed.

Lemma section_names_no_star :
  Forall (fun w => Forall (fun c => lc c <> STAR) w) section_names.
Proof. repeat constructor; discriminate. Qed.

Lemma section_start_cons c t :
  section_start (c :: t) =
  (c =? LBRACKET)%N && existsb (fun w => starts_ci w t) section_names.
Proof. reflexivity. Qed.

Lemma remove_all_cons_keep m c t :
  m (c :: t) = None -> remove_all m (c :: t) = c :: remove_all m t.
Proof. intros H. unfold remove_all. simpl. by rewrite H. Qed.

Lemma remove_all_keeps_section m s :
  (forall c s, c <> STAR -> m (c :: s) = None) ->
  section_start s = true -> section_start (remove_all m s) = true.
Proof.
  intros Hm. destruct s as [|c t]; [done|]. rewrite section_start_cons.
  intros H. apply andb_true_iff in H as [Hc Hw].
  apply N.eqb_eq in Hc. subst c.
  rewrite remove_all_cons_keep by (apply Hm; discriminate).
  rewrite section_start_cons, N.eqb_refl. cbn [andb].
  apply existsb_exists in Hw as (w & Hin & Hw).
  apply existsb_exists. exists w. split; [done|].
  apply remove_all_keeps_word; [done| |done].
  pose proof section_names_no_star as Hall.
  rewrite Forall_forall in Hall. apply Hall. by apply list_elem_of_In.
Qed.

Lemma bold_len_head c s : c <> STAR -> bold_len (c :: s) = None.
Proof.
  intros Hc. unfold bold_len. destruct s as [|b t]; [done|].
  apply N.eqb_neq in Hc. by rewrite Hc.
Qed.

Lemma italic_len_head c s : c <> STAR -> italic_len (c :: s) = None.
Proof. intros Hc. unfold italic_len. apply N.eqb_neq in Hc. by rewrite Hc. Qed.

(** A strict prefix of a section name holds letters of that name only. *)
Lemma starts_ci_cut w t u :
  starts_ci w t = true -> u `prefix_of` t -> starts_ci w u = false ->
  Forall (fun c => In (lc c) (map lc w)) u.
Proof.
  revert t u. induction w as [|a w IH]; intros t u Ht Hp Hu; [done|].
  destruct t as [|c t]; [done|].
  destruct u as [|d u]; [constructor|].
  pose proof (prefix_cons_inv_1 _ _ _ _ Hp) as ->.
  apply prefix_cons_inv_2 in Hp. simpl in Ht, Hu.
  apply andb_true_iff in Ht as [Hac Ht]. rewrite Hac in Hu. simpl in Hu.
  apply N.eqb_eq in Hac. constructor.
  - left. done.
  - eapply Forall_impl; [exact (IH _ _ Ht Hp Hu)|].
    cbv beta. intros x Hx. by right.
Qed.

Lemma search_section_no_bracket u :
  Forall (fun c => c <> LBRACKET) u -> search section_start u = None.
Proof.
  induction 1 as [|c u Hc Hu IH]; [done|]. cbn [search].
  rewrite section_start_cons.
  apply N.eqb_neq in Hc. rewrite Hc. cbn [andb]. by rewrite IH.
Qed.

Lemma section_names_no_bracket :
  Forall (fun w => ~ In LBRACKET (map lc w)) section_names.
Proof.
  repeat constructor; vm_compute; intuition discriminate.
Qed.

Lemma prefix_of_section_no_preamble t u :
  section_start t = true -> u `prefix_of` t -> has_preamble u = false.
Proof.
  intros Ht Hp. unfold has_preamble.
  destruct u as [|c u]; [done|].
  destruct t as [|d t]; [done|].
  pose proof (prefix_cons_inv_1 _ _ _ _ Hp) as ->.
  apply prefix_cons_inv_2 in Hp.
  cbn [search]. destruct (section_start (d :: u)) eqn:Hu; [done|].
  rewrite section_start_cons in Ht, Hu. apply andb_true_iff in Ht as [Hd Hw].
  rewrite Hd in Hu. cbn [andb] in Hu.
  apply existsb_exists in Hw as (w & Hin & Hw).
  assert (starts_ci w u = false) as Hwu.
  { destruct (starts_ci w u) eqn:E; [|done].
    assert (existsb (fun w => starts_ci w u) section_names = true) as Hex
      by (apply existsb_exists; eauto).
    congruence. }
  rewrite search_section_no_bracket; [done|].
  eapply Forall_impl; [exact (starts_ci_cut _ _ _ Hw Hp Hwu)|].
  cbv beta. intros x Hx ->.
  pose proof section_names_no_bracket as Hall.
  rewrite Forall_forall in Hall. apply (Hall w); [by apply list_elem_of_In|].
  exact Hx.
Qed.

Lemma trim_prefix_of_section t u :
  section_start t = true -> u `prefix_of` t -> trim u `prefix_of` t.
Proof.
  intros Ht Hp. unfold trim.
  destruct u as [|c u]; [apply prefix_nil|].
  destruct t as [|d t]; [done|].
  pose proof (prefix_cons_inv_1 _ _ _ _ Hp) as ->.
  rewrite section_start_cons in Ht.
  apply andb_true_iff in Ht as [Hd _]. apply N.eqb_eq in Hd. subst d.
  rewrite trimStart_head by reflexivity.
  etrans; [apply trimEnd_prefix|done].
Qed.

Lemma no_preamble_after_marker raw i :
  search section_start (trim raw) = Some i ->
  has_preamble (cleanLyricsResponse raw) = false.
Proof.
  intros Hi. rewrite cleanLyricsResponse_unfold, Hi.
  pose proof (search_found_here _ _ _ Hi) as H1.
  set (t1 := drop i (trim raw)) in *.
  rewrite run_patterns_unwanted.
  set (t3 := replace_pattern Italic (replace_pattern Bold t1)).
  assert (section_start t3 = true) as H3.
  { unfold t3. simpl.
    apply remove_all_keeps_section; [apply italic_len_head|].
    apply remove_all_keeps_section; [apply bold_len_head|done]. }
  apply (prefix_of_section_no_preamble t3); [done|].
  apply trim_prefix_of_section; [done|].
  etrans; [apply cut_last_section_prefix|apply trailing_patterns_prefix].
Qed.

(** C5, as far as the code goes: the output holds none of the trailing
    phrases, and when the trimmed reply of the text-generation service holds a
    section marker the output has no text before its first section marker.
    (A marker that only appears once the emphasis marks are removed is not
    looked for.) *)
Theorem cleanLyricsResponse_clean (raw : str) :
  Forall (fun phrase => occurs_ci phrase (cleanLyricsResponse raw) = false)
         trailing_phrases
  /\ (forall i, search section_start (trim raw) = Some i ->
                has_preamble (cleanLyricsResponse raw) = false).
Proof.
  split; [apply no_trailing_phrase|apply no_preamble_after_marker].
Qed.

Lemma cleanLyricsResponse_clean_witness :
  has_preamble
    (cleanLyricsResponse (utf16 "Sure, here you go: [Verse] la la Note: enjoy")) = false.
Proof.
  apply (proj2 (cleanLyricsResponse_clean _) 19). reflexivity.
Defined.

(** C5 as stated fails: the reply [x [*a*Verse]] holds no marker until the
    italic pattern has removed [*a*], and the output [x [Verse]] keeps the
    preamble. *)
Lemma preamble_survives :
  cleanLyricsResponse (utf16 "x [*a*Verse]") = utf16 "x [Verse]"
  /\ has_preamble (cleanLyricsResponse (utf16 "x [*a*Verse]")) = true.
Proof. split; reflexivity. Qed.

End GeminiFacts.

(** ** Reference retrieval *)

Module RetrievalFacts.
Import LyricsProcessor StrFacts Samples.

Lemma usable_spec {A} (reply : DbReply (list A)) rows :
  usable reply = Some rows -> rows <> [] /\ data reply = Some rows.
Proof.
  unfold usable. destruct (error reply); [done|].
  destruct (data reply) as [[|x l]|]; [done| |done].
  intros [= <-]. done.
Qed.

(** A list that is not empty and bounded by [max 0 n] is bounded by [n]. *)
Lemma bounded_by_count {A} (l : list A) n :
  l <> [] -> (Z.of_nat (length l) <= Z.max 0 n)%Z -> (Z.of_nat (length l) <= n)%Z.
Proof. destruct l; [done|]. simpl. lia. Qed.

Section Tiers.
Variable db : LyricsStore.

Lemma embeddingTier_spec q n th found :
  embeddingTier db q n th = Some found ->
  found <> [] /\ from_table db q n th found
  /\ (honours_limit db -> (Z.of_nat (length found) <= n)%Z).
Proof.
  unfold embeddingTier, try_catch, bind.
  destruct (generateEmbedding db q) as [emb|] eqn:He; [|done].
  destruct (match_lyrics db emb th n) as [reply|] eqn:Hr; [|done].
  destruct (usable reply) as [rows|] eqn:Hu; [|done].
  intros [= <-]. pose proof Hu as Hu'. apply usable_spec in Hu as [Hne Hd].
  assert (map of_match rows <> []) as Hne' by (by destruct rows).
  split; [done|]. split.
  - left. by exists emb, reply, rows.
  - intros (H & _ & _). apply bounded_by_count; [done|].
    rewrite length_map. eauto.
Qed.

Lemma keywordTier_spec q n found :
  keywordTier db q n = Ok (Some found) ->
  found <> [] /\ (forall th, from_table db q n th found)
  /\ (honours_limit db -> (Z.of_nat (length found) <= n)%Z).
Proof.
  unfold keywordTier, bind.
  destruct (0 <? length (keywords db q)); [|done].
  destruct (search_text db _ n) as [reply|] eqn:Hr; [|done].
  destruct (usable reply) as [rows|] eqn:Hu; [|done].
  intros [= <-]. pose proof Hu as Hu'. apply usable_spec in Hu as [Hne Hd].
  assert (map of_row rows <> []) as Hne' by (by destruct rows).
  split; [done|]. split.
  - intros th. right. left. by exists reply, rows.
  - intros (_ & H & _). apply bounded_by_count; [done|].
    rewrite length_map. eauto.
Qed.

Lemma sampleTier_spec n found :
  sampleTier db n = Ok (Some found) ->
  found <> [] /\ (forall q th, from_table db q n th found)
  /\ (honours_limit db -> (Z.of_nat (length found) <= n)%Z).
Proof.
  unfold sampleTier, bind.
  destruct (sample_rows db n) as [reply|] eqn:Hr; [|done].
  destruct (usable reply) as [rows|] eqn:Hu; [|done].
  intros [= <-]. pose proof Hu as Hu'. apply usable_spec in Hu as [Hne Hd].
  assert (map of_row rows <> []) as Hne' by (by destruct rows).
  split; [done|]. split.
  - intros q th. right. right. by exists reply, rows.
  - intros (_ & _ & H). apply bounded_by_count; [done|].
    rewrite length_map. eauto.
Qed.

End Tiers.


(** The answer of [findSimilarLyrics], whatever the services do. *)
Lemma findSimilarLyrics_answers db (queryText : str) (matchCount : Z) (matchThreshold : Q) :
  exists found,
    findSimilarLyrics db queryText matchCount matchThreshold = Ok found
    /\ found <> []
    /\ (from_table db queryText matchCount matchThreshold found
        /\ (honours_limit db -> (Z.of_nat (length found) <= matchCount)%Z)
        \/ found = hardcoded_fallback /\ length found = 3
        \/ found = final_fallback /\ length found = 1).
Proof.
  unfold findSimilarLyrics.
  destruct (embeddingTier db queryText matchCount matchThreshold) as [l|] eqn:He.
  { exists l. apply embeddingTier_spec in He as (Hne & Hfrom & Hlim).
    split; [done|]. split; [done|]. by left. }
  destruct (keywordTier db queryText matchCount) as [[l|]|] eqn:Hk; simpl.
  - exists l. apply keywordTier_spec in Hk as (Hne & Hfrom & Hlim).
    split; [done|]. split; [done|]. left. by split.
  - destruct (sampleTier db matchCount) as [[l|]|] eqn:Hs; simpl.
    + exists l. apply sampleTier_spec in Hs as (Hne & Hfrom & Hlim).
      split; [done|]. split; [done|]. left. by split.
    + exists hardcoded_fallback. split; [done|]. split; [done|]. right. by left.
    + exists final_fallback. split; [done|]. split; [done|]. right. by right.
  - exists final_fallback. split; [done|]. split; [done|]. right. by right.
Qed.





(** *** The keyword tier *)

Lemma lc_upper c : (65 <= c <= 90)%N -> lc c = (c + 32)%N.
Proof.
  intros [H1 H2]. unfold lc.
  apply N.leb_le in H1, H2. by rewrite H1, H2.
Qed.

Lemma lc_other c : ~ (65 <= c <= 90)%N -> lc c = c.
Proof.
  intros H. unfold lc.
  destruct (N.leb_spec 65 c), (N.leb_spec c 90); simpl; try done. lia.
Qed.

Lemma lc_idem c : lc (lc c) = lc c.
Proof.
  destruct (decide (65 <= c <= 90)%N) as [H|H].
  - rewrite (lc_upper c H). apply lc_other. lia.
  - by rewrite !(lc_other c H).
Qed.

Lemma not_space_letter c : (65 <= c <= 122)%N -> is_space c = false.
Proof.
  intros H. unfold is_space.
  rewrite !(proj2 (N.eqb_neq c _)) by lia.
  rewrite (proj2 (N.leb_gt c 13)) by lia.
  rewrite (proj2 (N.leb_gt 8192 c)) by lia.
  by rewrite andb_false_r.
Qed.

Lemma is_space_lc c : is_space (lc c) = is_space c.
Proof.
  destruct (decide (65 <= c <= 90)%N) as [H|H].
  - rewrite (lc_upper c H). rewrite !not_space_letter by lia. done.
  - by rewrite (lc_other c H).
Qed.

(** Lowering the Basic Latin letters commutes with the splitting into words. *)
Lemma split_go_lower gap cur s :
  split_go gap (map lc cur) (map lc s) = map (map lc) (split_go gap cur s).
Proof.
  revert gap cur. induction s as [|c s IH]; intros gap cur; simpl; [done|].
  rewrite is_space_lc. destruct (is_space c).
  - destruct gap; simpl; [apply (IH true [])|].
    f_equal. apply (IH true []).
  - rewrite <- IH. by rewrite map_app.
Qed.

Lemma split_ws_lower s : split_ws (map lc s) = map (map lc) (split_ws s).
Proof. apply (split_go_lower false []). Qed.

(** The words of a text are made of its code units that are no white space. *)
Lemma split_go_chars (P : N -> Prop) gap cur s :
  Forall P cur ->
  Forall (fun c => is_space c = false -> P c) s ->
  Forall (Forall P) (split_go gap cur s).
Proof.
  revert gap cur. induction s as [|c s IH]; intros gap cur Hcur Hs; simpl.
  - by constructor.
  - apply Forall_cons in Hs as [Hc Hs].
    destruct (is_space c) eqn:E.
    + destruct gap; [by apply IH|]. constructor; [done|by apply IH].
    + apply IH; [|done]. apply Forall_app. split; [done|]. constructor; [auto|done].
Qed.

Lemma startsWith_starts_ci w s :
  startsWith w s = true -> starts_ci (map lc w) s = true.
Proof.
  revert s. induction w as [|p w IH]; intros s; [done|].
  destruct s as [|c s]; [done|]. simpl.
  intros H. apply andb_true_iff in H as [Hp Hw]. apply N.eqb_eq in Hp. subst c.
  rewrite lc_idem, N.eqb_refl. simpl. auto.
Qed.

Lemma search_mono (p q : str -> bool) s :
  (forall t, p t = true -> q t = true) ->
  search p s <> None -> search q s <> None.
Proof.
  intros Hpq. induction s as [|c s IH]; simpl.
  - destruct (p []) eqn:E; [|done]. by rewrite (Hpq _ E).
  - destruct (q (c :: s)) eqn:Eq; [done|].
    destruct (p (c :: s)) eqn:E; [apply Hpq in E; congruence|].
    destruct (search p s), (search q s); simpl; try done.
    intros _. by apply IH.
Qed.

Lemma search_ext (p q : str -> bool) s :
  (forall t, p t = q t) -> search p s = search q s.
Proof.
  intros Hpq. induction s as [|c s IH]; simpl; rewrite Hpq; [done|].
  by rewrite IH.
Qed.

(** A verbatim occurrence is an occurrence of the lower-cased word for the
    case-insensitive match. *)
Lemma includes_occurs_ci w s :
  includes w s = true -> occurs_ci (map lc w) s = true.
Proof.
  unfold includes, occurs_ci. intros H.
  assert (search (startsWith w) s <> None) as Hs
    by (destruct (search (startsWith w) s); done).
  apply (search_mono _ (starts_ci (map lc w))) in Hs;
    [|apply startsWith_starts_ci].
  by destruct (search (starts_ci (map lc w)) s).
Qed.

Lemma keeps_word_spec word :
  keeps_word word = true <-> 2 < length word /\ ~ In word stop_words.
Proof.
  unfold keeps_word. rewrite andb_true_iff, Nat.ltb_lt, negb_true_iff.
  split; intros [Hlen Hstop]; (split; [done|]).
  - intros Hin.
    assert (existsb (str_eqb word) stop_words = true) as Hex; [|congruence].
    apply existsb_exists. exists word. split; [done|].
    unfold str_eqb. by apply bool_decide_eq_true_2.
  - destruct (existsb (str_eqb word) stop_words) eqn:He; [|done].
    apply existsb_exists in He as (x & Hx & Heq).
    unfold str_eqb in Heq. apply bool_decide_eq_true in Heq. by subst x.
Qed.

(** On a host that lowers Basic Latin texts letter by letter, a surviving
    word of a Basic Latin theme is a keyword, lowered. *)
Lemma word_is_keyword db theme word :
  lowers_basic_latin (toLowerCase db) -> basic_latin theme ->
  In word (split_ws theme) -> keeps_word (map lc word) = true ->
  In (map lc word) (keywords db theme).
Proof.
  intros Hlow Hth Hin Hk. unfold keywords. apply filter_In. split; [|done].
  rewrite (Hlow theme Hth), split_ws_lower. by apply in_map.
Qed.

(** **** The filter, read back *)

Lemma filter_syntax_false c :
  filter_syntax c = false ->
  c <> COMMA /\ c <> PERCENT /\ c <> STAR /\ c <> UNDERSCORE
  /\ existsb (N.eqb c) [46; 58; 40; 41; 34; 92]%N = false.
Proof.
  unfold filter_syntax. cbn [existsb]. rewrite !orb_false_iff.
  intros (H1 & H2 & H3 & H4 & H5 & H6 & H7 & H8 & H9 & H10 & _).
  rewrite H2, H3, H4, H5, H6, H7.
  apply N.eqb_neq in H1, H8, H9, H10. done.
Qed.

Lemma plain_cons c k : plain (c :: k) = true <-> filter_syntax c = false /\ plain k = true.
Proof. unfold plain. cbn [forallb]. by rewrite andb_true_iff, negb_true_iff. Qed.

Lemma plain_no_comma k : plain k = true -> ~ In COMMA k.
Proof.
  induction k as [|c k IH]; [by intros _ []|].
  rewrite plain_cons. intros [Hc Hk] [->|Hin]; [discriminate Hc|by apply IH].
Qed.

Lemma plain_readable k :
  plain k = true ->
  forallb (fun u => negb (existsb (N.eqb u) [46; 58; 40; 41; 34; 92]%N)) k = true.
Proof.
  induction k as [|c k IH]; [done|].
  rewrite plain_cons. intros [Hc Hk]. cbn [forallb]. rewrite (IH Hk), andb_true_r.
  apply filter_syntax_false in Hc as (_ & _ & _ & _ & ->). done.
Qed.

(** [%] alone matches everything. *)
Lemma like_any s : like [PERCENT] s = true.
Proof. induction s as [|c s IH]; [done|]. simpl in *. by rewrite IH. Qed.

(** A plain text followed by [%] matches what begins with it, whatever the
    case. *)
Lemma like_plain_prefix k s :
  plain k = true -> like (k ++ [PERCENT]) s = starts_ci k s.
Proof.
  revert s. induction k as [|c k IH]; intros s; [intros _; apply like_any|].
  rewrite plain_cons. intros [Hc Hk].
  apply filter_syntax_false in Hc as (_ & Hp & Hs & Hu & _).
  apply N.eqb_neq in Hp, Hs, Hu.
  change ((c :: k) ++ [PERCENT]) with (c :: (k ++ [PERCENT])).
  cbn [like starts_ci]. rewrite Hp, Hs, Hu. cbn [orb].
  destruct s as [|d s]; [done|]. by rewrite IH.
Qed.

Lemma like_from pat s :
  like (PERCENT :: pat) s
  = match search (like pat) s with Some _ => true | None => false end.
Proof.
  induction s as [|c s IH].
  - cbn. by destruct (like pat []).
  - change (like (PERCENT :: pat) (c :: s))
      with (like pat (c :: s) || like (PERCENT :: pat) s).
    rewrite IH. cbn [search]. destruct (like pat (c :: s)); [done|].
    by destruct (search (like pat) s).
Qed.

(** The pattern the code builds from a plain keyword selects the texts that
    hold the keyword, whatever the case. *)
Lemma like_keyword k s :
  plain k = true -> like (PERCENT :: k ++ [PERCENT]) s = occurs_ci k s.
Proof.
  intros Hk. rewrite like_from. unfold occurs_ci.
  by rewrite (search_ext _ (starts_ci k)) by (intros t; by apply like_plain_prefix).
Qed.

Lemma condition_pair_parts k :
  condition_pair k = name_part k ++ COMMA :: text_part k.
Proof.
  unfold condition_pair, name_part, text_part.
  change (utf16 "song_name.ilike.%") with (utf16 "song_name.ilike." ++ [PERCENT]).
  change (utf16 "%,lyrics_text.ilike.%")
    with ([PERCENT] ++ COMMA :: utf16 "lyrics_text.ilike." ++ [PERCENT]).
  change (utf16 "%") with [PERCENT].
  rewrite <- !app_assoc. cbn [app]. by rewrite <- !app_assoc.
Qed.

Lemma readable_pattern k :
  plain k = true ->
  forallb (fun u => negb (existsb (N.eqb u) [46; 58; 40; 41; 34; 92]%N))
          (PERCENT :: k ++ [PERCENT]) = true.
Proof.
  intros Hk. cbn [forallb]. rewrite forallb_app, (plain_readable k Hk). done.
Qed.

Lemma read_name_part k :
  plain k = true ->
  read_condition (name_part k)
  = Some {| column := col_song_name; pattern := PERCENT :: k ++ [PERCENT] |}.
Proof.
  intros Hk. unfold read_condition, name_part.
  rewrite startsWith_app_refl, drop_app_length, (readable_pattern k Hk). done.
Qed.

Lemma read_text_part k :
  plain k = true ->
  read_condition (text_part k)
  = Some {| column := col_lyrics_text; pattern := PERCENT :: k ++ [PERCENT] |}.
Proof.
  intros Hk. unfold read_condition, text_part.
  assert (forall rest, startsWith (utf16 "song_name.ilike.")
                         (utf16 "lyrics_text.ilike." ++ rest) = false) as ->
    by (intros rest; vm_compute; reflexivity).
  rewrite startsWith_app_refl, drop_app_length, (readable_pattern k Hk). done.
Qed.

Lemma part_no_comma (name k : str) :
  ~ In COMMA name -> plain k = true -> ~ In COMMA (name ++ PERCENT :: k ++ [PERCENT]).
Proof.
  intros Hn Hk. rewrite in_app_iff. intros [H|[H|H]]; [done|done|].
  apply in_app_iff in H as [H|[H|[]]]; [|done]. by apply plain_no_comma in H.
Qed.

Lemma split_on_go_app sep cur x rest :
  ~ In sep x -> split_on_go sep cur (x ++ rest) = split_on_go sep (cur ++ x) rest.
Proof.
  revert cur. induction x as [|c x IH]; intros cur Hx; simpl.
  - by rewrite app_nil_r.
  - destruct (N.eqb_spec c sep) as [->|Hc]; [exfalso; apply Hx; by left|].
    rewrite IH by (intros H; apply Hx; by right).
    by rewrite <- app_assoc.
Qed.

Lemma split_on_go_last sep cur x :
  ~ In sep x -> split_on_go sep cur x = [cur ++ x].
Proof.
  intros Hx. rewrite <- (app_nil_r x) at 1.
  by rewrite split_on_go_app.
Qed.

(** The filter of a list of plain keywords splits into the two parts of each
    keyword. *)
Lemma split_searchConditions k kws :
  Forall (fun k => plain k = true) (k :: kws) ->
  split_on COMMA (searchConditions (k :: kws))
  = flat_map (fun k => [name_part k; text_part k]) (k :: kws).
Proof.
  assert (~ In COMMA (utf16 "song_name.ilike.")) as Hn
    by (vm_compute; intros H; repeat destruct H as [H|H]; try discriminate H; done).
  assert (~ In COMMA (utf16 "lyrics_text.ilike.")) as Ht
    by (vm_compute; intros H; repeat destruct H as [H|H]; try discriminate H; done).
  unfold split_on, searchConditions. revert k.
  induction kws as [|k' kws IH]; intros k Hall;
    apply Forall_cons in Hall as [Hk Hall].
  - cbn [map join flat_map app]. rewrite condition_pair_parts.
    rewrite split_on_go_app by (by apply part_no_comma).
    cbn [split_on_go]. rewrite N.eqb_refl.
    rewrite split_on_go_last by (by apply part_no_comma). done.
  - change (join [COMMA] (map condition_pair (k :: k' :: kws)))
      with (condition_pair k ++ [COMMA] ++ join [COMMA] (map condition_pair (k' :: kws))).
    rewrite condition_pair_parts, <- app_assoc.
    rewrite split_on_go_app by (by apply part_no_comma).
    cbn [split_on_go app]. rewrite N.eqb_refl.
    rewrite split_on_go_app by (by apply part_no_comma).
    cbn [split_on_go app]. rewrite N.eqb_refl.
    cbn [flat_map app]. f_equal. f_equal. by apply IH.
Qed.

Lemma read_parts kws :
  Forall (fun k => plain k = true) kws ->
  read_conditions (flat_map (fun k => [name_part k; text_part k]) kws)
  = Some (flat_map conditions_of kws).
Proof.
  induction 1 as [|k kws Hk _ IH]; [done|].
  cbn [flat_map app read_conditions].
  by rewrite (read_name_part k Hk), (read_text_part k Hk), IH.
Qed.

Lemma read_searchConditions kws :
  kws <> [] -> Forall (fun k => plain k = true) kws ->
  read_filter (searchConditions kws) = Some (flat_map conditions_of kws).
Proof.
  intros Hne Hall. destruct kws as [|k kws]; [done|].
  unfold read_filter. rewrite split_searchConditions by done. by apply read_parts.
Qed.

Lemma row_matches_keywords kws row :
  Forall (fun k => plain k = true) kws ->
  row_matches (flat_map conditions_of kws) row = holds_keyword kws row.
Proof.
  unfold row_matches, holds_keyword.
  induction 1 as [|k kws Hk _ IH]; [done|].
  cbn [flat_map conditions_of app existsb pattern column field].
  by rewrite !(like_keyword k _ Hk), IH, orb_assoc.
Qed.

(** What the ideal table answers to the filter of plain keywords: the first
    rows that hold a keyword in their name or text. *)
Lemma table_search_keywords rows kws n :
  kws <> [] -> Forall (fun k => plain k = true) kws ->
  table_search rows (searchConditions kws) n
  = Ok {| data := Some (take (Z.to_nat n) (List.filter (holds_keyword kws) rows));
          error := None |}.
Proof.
  intros Hne Hall. unfold table_search. rewrite read_searchConditions by done.
  do 4 f_equal. apply filter_ext. intros row. by apply row_matches_keywords.
Qed.

(** What the keyword tier returns against the table. *)
Lemma keywordTier_table lower rows theme n :
  Forall (fun k => plain k = true) (keywords (table_store lower rows) theme) ->
  keywordTier (table_store lower rows) theme n
  = Ok (match take (Z.to_nat n)
                (List.filter (holds_keyword (keywords (table_store lower rows) theme))
                             rows) with
        | [] => None
        | found => Some (map of_row found)
        end).
Proof.
  intros Hall. unfold keywordTier.
  destruct (keywords (table_store lower rows) theme) as [|k kws] eqn:Hk.
  - cbn. replace (List.filter (holds_keyword []) rows) with (@nil LyricsRow).
    + by rewrite take_nil.
    + clear. induction rows as [|r rows IH]; [done|]. simpl. exact IH.
  - assert ((0 <? length (k :: kws)) = true) as -> by done.
    change (search_text (table_store lower rows)) with (table_search rows).
    rewrite table_search_keywords by done. cbn [bind usable data error].
    by destruct (take _ _).
Qed.

Lemma filter_syntax_lc c : filter_syntax c = false -> filter_syntax (lc c) = false.
Proof.
  destruct (decide (65 <= c <= 90)%N) as [H|H]; [|by rewrite (lc_other c H)].
  intros _. rewrite (lc_upper c H). unfold filter_syntax. cbn [existsb].
  unfold COMMA, PERCENT, STAR, UNDERSCORE.
  by rewrite !(proj2 (N.eqb_neq (c + 32) _)) by lia.
Qed.

Lemma plain_Forall k : plain k = true <-> Forall (fun c => filter_syntax c = false) k.
Proof.
  induction k as [|c k IH]; [by split; [constructor|]|].
  rewrite plain_cons, Forall_cons. by rewrite IH.
Qed.

(** The keywords of a plain Basic Latin theme are plain. *)
Lemma keywords_plain db theme :
  lowers_basic_latin (toLowerCase db) -> basic_latin theme -> plain theme = true ->
  Forall (fun k => plain k = true) (keywords db theme).
Proof.
  intros Hlow Hth Hplain. unfold keywords. rewrite (Hlow theme Hth).
  apply Forall_forall. intros k Hk.
  apply list_elem_of_In, filter_In in Hk as [Hk _].
  assert (Forall (Forall (fun c => filter_syntax c = false))
            (split_ws (map lc theme))) as Hall.
  { apply split_go_chars; [done|].
    apply Forall_forall. intros c Hc _.
    apply list_elem_of_In, in_map_iff in Hc as (c0 & <- & Hc0).
    apply filter_syntax_lc.
    apply plain_Forall in Hplain. rewrite Forall_forall in Hplain.
    by apply Hplain, list_elem_of_In. }
  rewrite Forall_forall in Hall. apply plain_Forall, Hall. by apply list_elem_of_In.
Qed.

Lemma holds_keyword_spec kws row :
  holds_keyword kws row = true <->
  exists k, In k kws /\ (occurs_ci k (row_song_name row) = true
                         \/ occurs_ci k (row_lyrics_text row) = true).
Proof.
  unfold holds_keyword. rewrite existsb_exists.
  split; intros (k & Hk & H); exists k; (split; [done|]).
  - by apply orb_true_iff.
  - by apply orb_true_iff.
Qed.

(** A row that holds a keyword is returned when no more than [n] rows do. *)
Lemma keywordTier_complete lower rows theme n k row :
  Forall (fun k => plain k = true) (keywords (table_store lower rows) theme) ->
  In k (keywords (table_store lower rows) theme) ->
  In row rows ->
  occurs_ci k (row_song_name row) = true \/ occurs_ci k (row_lyrics_text row) = true ->
  (Z.of_nat (length (List.filter
      (holds_keyword (keywords (table_store lower rows) theme)) rows)) <= n)%Z ->
  exists found,
    keywordTier (table_store lower rows) theme n = Ok (Some found)
    /\ In (of_row row) found.
Proof.
  intros Hall Hk Hrow Hocc Hcount. rewrite keywordTier_table by done.
  set (sel := List.filter _ rows) in *.
  assert (In row sel) as Hsel.
  { apply filter_In. split; [done|]. apply holds_keyword_spec. eauto. }
  rewrite take_ge by lia.
  exists (map of_row sel). split; [by destruct sel|by apply in_map].
Qed.

(** C6, as far as the code goes.  The keywords are the words of the
    lower-cased theme that have more than two code units and are no stop
    words, whatever the lower-casing of the host does to the theme.  Each
    is pasted as it is into the filter of the query, which asks for [N]
    rows; when the keywords hold
    none of the code units that are syntax of the filter, the tier returns
    the first [N] rows of the table that hold a keyword in their name or
    text, whatever the case, in table order: every entry returned holds a
    keyword, and every entry that holds one is returned when no more than
    [N] rows do.  In particular, for a theme of Basic Latin characters
    without filter syntax, an entry whose name or text holds a surviving
    word of the theme verbatim is returned when no more than [N] rows
    match. *)
Theorem keywordTier_includes_match
    (lower : str -> str) (rows : list LyricsRow) (theme : str) (n : Z) :
  (forall k, In k (keywords (table_store lower rows) theme) <->
             In k (split_ws (lower theme))
             /\ 2 < length k /\ ~ In k stop_words)
  /\ (keywords (table_store lower rows) theme <> [] ->
      keywordTier (table_store lower rows) theme n
      = (reply <-? table_search rows
                    (join [COMMA]
                       (map (fun k => utf16 "song_name.ilike.%" ++ k
                                      ++ utf16 "%,lyrics_text.ilike.%" ++ k
                                      ++ utf16 "%")
                            (keywords (table_store lower rows) theme))) n ;;
         Ok (option_map (map of_row) (usable reply))))
  /\ (Forall (fun k => plain k = true) (keywords (table_store lower rows) theme) ->
      (forall found,
          keywordTier (table_store lower rows) theme n = Ok (Some found) ->
          (Z.of_nat (length found) <= n)%Z
          /\ found = map of_row
                       (take (Z.to_nat n)
                          (List.filter
                             (holds_keyword (keywords (table_store lower rows) theme))
                             rows))
          /\ Forall (fun f => exists row k,
                        In row rows /\ f = of_row row
                        /\ In k (keywords (table_store lower rows) theme)
                        /\ (occurs_ci k (row_song_name row) = true
                            \/ occurs_ci k (row_lyrics_text row) = true)) found)
      /\ (forall k row,
            In k (keywords (table_store lower rows) theme) ->
            In row rows ->
            occurs_ci k (row_song_name row) = true
            \/ occurs_ci k (row_lyrics_text row) = true ->
            (Z.of_nat (length (List.filter
                (holds_keyword (keywords (table_store lower rows) theme)) rows))
             <= n)%Z ->
            exists found,
              keywordTier (table_store lower rows) theme n = Ok (Some found)
              /\ In (of_row row) found))
  /\ (lowers_basic_latin lower -> basic_latin theme -> plain theme = true ->
      forall word row,
        In word (split_ws theme) ->
        keeps_word (map lc word) = true ->
        In row rows ->
        includes word (row_song_name row) = true
        \/ includes word (row_lyrics_text row) = true ->
        (Z.of_nat (length (List.filter
            (holds_keyword (keywords (table_store lower rows) theme)) rows))
         <= n)%Z ->
        exists found,
          keywordTier (table_store lower rows) theme n = Ok (Some found)
          /\ In (of_row row) found).
Proof.
  split; [|split; [|split]].
  - intros k. unfold keywords. rewrite filter_In, keeps_word_spec. done.
  - intros Hne. unfold keywordTier.
    by destruct (keywords (table_store lower rows) theme).
  - intros Hall. split.
    + intros found. rewrite keywordTier_table by done.
      set (sel := List.filter _ rows).
      destruct (take (Z.to_nat n) sel) as [|r l] eqn:Ht; [done|].
      intros [= <-]. split; [|split; [done|]].
      * assert (length (r :: l) <= Z.to_nat n) as Hlen
          by (rewrite <- Ht, length_take; lia).
        cbn [map length] in *. rewrite length_map. lia.
      * apply Forall_forall. intros f Hf.
        change (of_row r :: map of_row l) with (map of_row (r :: l)) in Hf.
        apply list_elem_of_In, in_map_iff in Hf as (row & <- & Hrow).
        assert (In row sel) as Hsel.
        { apply list_elem_of_In.
          eapply elem_of_prefix; [apply list_elem_of_In; exact Hrow|].
          rewrite <- Ht. apply prefix_take. }
        apply filter_In in Hsel as [Hin Hm].
        apply holds_keyword_spec in Hm as (k & Hk & Hocc).
        by exists row, k.
    + intros k row. by apply keywordTier_complete.
  - intros Hlow Hth Hplain word row Hw Hkeep Hrow Hinc Hcount.
    apply (keywordTier_complete lower rows theme n (map lc word) row); try done.
    + by apply (keywords_plain (table_store lower rows)).
    + by apply (word_is_keyword (table_store lower rows)).
    + destruct Hinc as [H|H]; [left|right]; by apply includes_occurs_ci.
Qed.

Lemma keywordTier_includes_match_witness :
  exists found,
    keywordTier (table_store basic_lower sample_corpus) (utf16 "Our Dosti forever") 3
    = Ok (Some found)
    /\ In (of_row {| row_song_name := utf16 "Yeh Dosti";
                     row_lyrics_text := utf16 "yeh dosti hum nahin" |}) found.
Proof.
  apply (proj2 (proj2 (proj2 (keywordTier_includes_match basic_lower sample_corpus
                                (utf16 "Our Dosti forever") 3)))
           ltac:(by intros s _) ltac:(vm_compute; repeat constructor)
           ltac:(vm_compute; reflexivity) (utf16 "Dosti")).
  - vm_compute. right. left. reflexivity.
  - vm_compute. reflexivity.
  - vm_compute. right. right. left. reflexivity.
  - left. vm_compute. reflexivity.
  - vm_compute. discriminate.
Defined.

(** C6 as stated fails: two names hold the word [love], one row is asked for,
    and the second entry is not in the result. *)
Lemma keyword_match_beyond_limit :
  In (utf16 "love") (keywords (table_store basic_lower sample_corpus) (utf16 "love"))
  /\ In second_love_row sample_corpus
  /\ includes (utf16 "love") (row_song_name second_love_row) = true
  /\ exists found,
       keywordTier (table_store basic_lower sample_corpus) (utf16 "love") 1
       = Ok (Some found)
       /\ ~ In (of_row second_love_row) found.
Proof.
  split; [vm_compute; by left|].
  split; [vm_compute; right; by left|].
  split; [vm_compute; reflexivity|].
  eexists. split; [vm_compute; reflexivity|].
  vm_compute. intros [H|[]]. discriminate H.
Qed.

(** A keyword is pasted into the filter as it is: one that holds a wild card
    selects a row that does not hold it as a substring, and one that holds
    a comma gives a filter the table cannot read, so that the tier gives
    nothing. *)
Lemma filter_syntax_in_keyword :
  keywords (table_store basic_lower sample_corpus) (utf16 "lo%g") = [utf16 "lo%g"]
  /\ holds_keyword [utf16 "lo%g"] second_love_row = false
  /\ (exists found,
         keywordTier (table_store basic_lower sample_corpus) (utf16 "lo%g") 3
         = Ok (Some found)
         /\ In (of_row second_love_row) found)
  /\ keywords (table_store basic_lower sample_corpus) (utf16 "so,ng") = [utf16 "so,ng"]
  /\ holds_keyword [utf16 "so,ng"] second_love_row = false
  /\ keywordTier (table_store basic_lower sample_corpus) (utf16 "so,ng") 3 = Ok None.
Proof.
  split; [vm_compute; reflexivity|]. split; [vm_compute; reflexivity|].
  split.
  { eexists. split; [vm_compute; reflexivity|]. vm_compute. right. by left. }
  split; [vm_compute; reflexivity|]. split; vm_compute; reflexivity.
Qed.

End RetrievalFacts.

(** ** Ingestion *)

Module IngestionFacts.
Import Ingestion Samples.

Section Pass.
Variable env : IngestEnv.

Lemma keeps_line_spec line :
  keeps_line line = true ->
  line <> JsonString (utf16 "Lyrics") /\ all_digits (elem_string line) = false.
Proof.
  unfold keeps_line. intros H. apply andb_true_iff in H as [H1 H2].
  apply negb_true_iff in H1, H2. split; [|done].
  intros ->. unfold str_eqb in H1. by rewrite bool_decide_eq_true_2 in H1.
Qed.

(** The two outcomes of the cleaning of one cell. *)
Lemma cleanLyrics_cases hindi :
  (exists lyricsArray,
      list_literal hindi = true
      /\ JSON_parse env (requote hindi) = Ok lyricsArray
      /\ cleanLyrics env hindi
         = trim (join [LF] (map elem_joined (List.filter keeps_line lyricsArray))))
  \/ ((list_literal hindi = false
       \/ exists e, JSON_parse env (requote hindi) = Throw e)
      /\ cleanLyrics env hindi = hindi).
Proof.
  unfold cleanLyrics. destruct (list_literal hindi) eqn:Hl; [|right; eauto].
  destruct (JSON_parse env (requote hindi)) as [arr|e] eqn:Hp; simpl.
  - left. exists arr. done.
  - right. split; [right; eauto|done].
Qed.

Lemma processSong_spec song row :
  processSong env song = Some row ->
  st_song_name row = songTitle song
  /\ st_lyrics_text row = cleanLyrics env (hindiLyrics song)
  /\ 10 <= length (st_lyrics_text row).
Proof.
  unfold processSong.
  destruct (songTitle song) as [|c title] eqn:Ht; [done|].
  destruct (hindiLyrics song) as [|d hindi] eqn:Hh; [done|].
  unfold try_catch, bind.
  destruct (length (cleanLyrics env (d :: hindi)) <? 10) eqn:Hlen; [done|].
  destruct (generateEmbedding env _) as [emb|]; [|done].
  destruct (insert env _) as [[err|]|]; try done.
  intros [= <-]. simpl. apply Nat.ltb_ge in Hlen. done.
Qed.

Lemma stored_step t song row :
  In row (stored (step env t song)) ->
  In row (stored t) \/ processSong env song = Some row.
Proof.
  unfold step. destruct (processSong env song) as [r|]; simpl; [|auto].
  rewrite in_app_iff. intros [H|[<-|[]]]; auto.
Qed.

Lemma stored_fold data t row :
  In row (stored (fold_left (step env) data t)) ->
  In row (stored t) \/ exists song, In song data /\ processSong env song = Some row.
Proof.
  revert t. induction data as [|song data IH]; intros t; simpl; [auto|].
  intros H. apply IH in H as [H|(s & Hs & Hp)].
  - apply stored_step in H as [H|H]; [auto|]. right. eauto.
  - right. eauto.
Qed.

(** C9, as far as the code goes: a stored text has ten code units or more;
    when the cell is a list literal that parses, the stored text is made of
    the elements left once the [Lyrics] elements and the elements of digits
    are dropped, joined by line feeds and trimmed; any other cell is stored
    as it is. *)
Theorem stored_lyrics_cleaned (lyricsData : list LyricsData) (row : StoredRow) :
  In row (stored (processLyricsCSV env lyricsData)) ->
  10 <= length (st_lyrics_text row)
  /\ exists song,
      In song lyricsData /\ st_song_name row = songTitle song
      /\ ((exists lyricsArray,
             list_literal (hindiLyrics song) = true
             /\ JSON_parse env (requote (hindiLyrics song)) = Ok lyricsArray
             /\ st_lyrics_text row
                = trim (join [LF]
                     (map elem_joined (List.filter keeps_line lyricsArray)))
             /\ Forall (fun line =>
                         line <> JsonString (utf16 "Lyrics")
                         /\ all_digits (elem_string line) = false)
                      (List.filter keeps_line lyricsArray))
          \/ ((list_literal (hindiLyrics song) = false
               \/ exists e, JSON_parse env (requote (hindiLyrics song)) = Throw e)
              /\ st_lyrics_text row = hindiLyrics song)).
Proof.
  intros H. unfold processLyricsCSV in H.
  apply stored_fold in H as [[]|(song & Hin & Hp)].
  apply processSong_spec in Hp as (Hname & Htext & Hlen).
  split; [done|]. exists song. repeat split; try done.
  rewrite Htext.
  destruct (cleanLyrics_cases (hindiLyrics song))
    as [(arr & Hl & Hparse & Hc)|[Hno Hc]].
  - left. exists arr. repeat split; try done.
    apply Forall_forall. intros line Hline.
    apply list_elem_of_In, filter_In in Hline as [_ Hk].
    by apply keeps_line_spec.
  - right. done.
Qed.
End Pass.

Lemma stored_lyrics_cleaned_witness : 10 <= length (st_lyrics_text sample_row).
Proof.
  refine (proj1 (stored_lyrics_cleaned sample_env [sample_song] sample_row _)).
  vm_compute. left. reflexivity.
Defined.

(** C9 as stated fails: the print of a list whose first string is within
    double quotes does not begin with a bracket and an apostrophe, is not
    parsed, and is stored with the brackets of the list and its [Lyrics]
    element. *)
Lemma literal_stored_unstripped :
  list_literal quoted_cell = false
  /\ stored (processLyricsCSV sample_env
              [ {| songTitle := utf16 "Jaane Do"; hindiLyrics := quoted_cell;
                   englishTranslation := [] |} ])
    = [ {| st_song_name := utf16 "Jaane Do"; st_lyrics_text := quoted_cell;
           st_embedding := [] |} ]
  /\ has_artifacts quoted_cell = true
  /\ includes (utf16 "'Lyrics'") quoted_cell = true.
Proof. repeat split; reflexivity. Qed.

End IngestionFacts.

(** ** Facts about computations *)

Module EffectFacts.
Import Effects Footprint.

Lemma safe_ret {A} (a : A) : safe (ret a).
Proof. intros w. by exists a, w. Qed.

Lemma safe_bind {A B} (m : M A) (k : A -> M B) :
  safe m -> (forall a, safe (k a)) -> safe (bindM m k).
Proof.
  intros Hm Hk w. destruct (Hm w) as (a & w1 & E).
  destruct (Hk a w1) as (b & w2 & E'). exists b, w2.
  unfold bindM. by rewrite E.
Qed.

Lemma safe_catch {A} (m : M A) (h : Exn -> M A) :
  (forall e, safe (h e)) -> safe (catch m h).
Proof.
  intros Hh w. unfold catch. destruct (m w) as [[a|e] w1].
  - by exists a, w1.
  - apply Hh.
Qed.

Lemma safe_emit e : safe (emit e).
Proof. intros w. by eexists _, _. Qed.

Lemma safe_when b m : safe m -> safe (when b m).
Proof. intros H. destruct b; [done|apply safe_ret]. Qed.

Lemma safe_detached {A} (m : M A) : safe (detached m).
Proof. intros w. by eexists _, _. Qed.

(** A relation between the world before and the world after that every run
    of a computation satisfies. *)
Section Footprint.
Context (R : World -> World -> Prop) `{!PreOrder R}.

Lemma respects_ret {A} (a : A) : respects R (ret a).
Proof. intros w r w' [= _ <-]. reflexivity. Qed.

Lemma respects_throw {A} e : respects R (@throw A e).
Proof. intros w r w' [= _ <-]. reflexivity. Qed.

Lemma respects_lift {A} (x : Result A) : respects R (lift x).
Proof. intros w r w' [= _ <-]. reflexivity. Qed.

Lemma respects_bind {A B} (m : M A) (k : A -> M B) :
  respects R m -> (forall a, respects R (k a)) -> respects R (bindM m k).
Proof.
  intros Hm Hk w r w'. unfold bindM.
  destruct (m w) as [[a|e] w1] eqn:E.
  - intros E'. etrans; [exact (Hm _ _ _ E)|exact (Hk _ _ _ _ E')].
  - intros [= _ <-]. exact (Hm _ _ _ E).
Qed.

Lemma respects_catch {A} (m : M A) (h : Exn -> M A) :
  respects R m -> (forall e, respects R (h e)) -> respects R (catch m h).
Proof.
  intros Hm Hh w r w'. unfold catch.
  destruct (m w) as [[a|e] w1] eqn:E.
  - intros [= _ <-]. exact (Hm _ _ _ E).
  - intros E'. etrans; [exact (Hm _ _ _ E)|exact (Hh _ _ _ _ E')].
Qed.

Lemma respects_when b m : respects R m -> respects R (when b m).
Proof. intros H. destruct b; [done|apply respects_ret]. Qed.

Lemma respects_detached {A} (m : M A) : respects R m -> respects R (detached m).
Proof.
  intros H w r w'. unfold detached. intros [= _ <-].
  destruct (m w) as [r0 w0] eqn:E. exact (H _ _ _ E).
Qed.
End Footprint.

Global Instance grows_preorder P : PreOrder (grows P).
Proof.
  split.
  - intros w. exists []. by rewrite app_nil_r.
  - intros w1 w2 w3 (n1 & E1 & F1) (n2 & E2 & F2).
    exists (n1 ++ n2). rewrite E2, E1, app_assoc. split; [done|].
    by apply Forall_app.
Qed.

Global Instance outside_preorder P : PreOrder (outside P).
Proof.
  split.
  - intros w. repeat split. reflexivity.
  - intros w1 w2 w3 (S1 & L1 & G1) (S2 & L2 & G2).
    repeat split; [congruence|congruence|by etrans].
Qed.

Lemma outside_grows P w w' : outside P w w' -> grows P w w'.
Proof. by intros (_ & _ & H). Qed.

Lemma grows_weaken (P Q : Event -> Prop) w w' :
  (forall e, P e -> Q e) -> grows P w w' -> grows Q w w'.
Proof.
  intros H (new & E & F). exists new. split; [done|].
  eapply Forall_impl; eauto.
Qed.

Lemma outside_weaken (P Q : Event -> Prop) w w' :
  (forall e, P e -> Q e) -> outside P w w' -> outside Q w w'.
Proof.
  intros H (S1 & L1 & G1). repeat split; [done|done|].
  by eapply grows_weaken.
Qed.

Lemma outside_add_event (P : Event -> Prop) w e : P e -> outside P w (add_event w e).
Proof.
  intros H. repeat split. exists [e]. split; [done|]. by constructor.
Qed.

Lemma respects_emit (P : Event -> Prop) e : P e -> respects (outside P) (emit e).
Proof. intros H w r w' [= _ <-]. by apply outside_add_event. Qed.

Lemma status_requests_add w e :
  status_requests (add_event w e)
  = status_requests w + (if is_status_request e then 1 else 0).
Proof.
  unfold status_requests, add_event. simpl.
  rewrite List.filter_app, length_app. simpl.
  by destruct (is_status_request e).
Qed.

End EffectFacts.

(** ** Polling *)

Module PollFacts.
Import Effects Footprint EffectFacts AiMusic Samples MoreSamples.

Section WithEnv.
Variable env : Env.

Lemma getTaskStatus_run taskId w :
  getTaskStatus env taskId w
  = (getTaskStatus_outcome (task_endpoint env taskId (status_requests w)),
     add_event w (StatusRequest taskId)).
Proof.
  unfold getTaskStatus, bindM, emit, lift.
  by destruct (getTaskStatus_outcome _).
Qed.

Lemma getTaskStatus_outside taskId :
  respects (outside poll_event) (getTaskStatus env taskId).
Proof.
  intros w r w'. rewrite getTaskStatus_run. intros [= _ <-].
  by apply outside_add_event.
Qed.

Section Poll.
Variables (taskId : str) (maxAttempts intervalMs : Z).

Lemma wait_outside attempt :
  respects (outside poll_event) (wait_before_next_poll maxAttempts intervalMs attempt).
Proof. apply respects_when; [apply _|]. by apply respects_emit. Qed.

Lemma wait_safe attempt : safe (wait_before_next_poll maxAttempts intervalMs attempt).
Proof. apply safe_when, safe_emit. Qed.

Lemma poll_attempt_outside attempt :
  respects (outside poll_event)
           (poll_attempt env taskId maxAttempts intervalMs attempt).
Proof.
  unfold poll_attempt.
  apply respects_bind; [apply _|apply getTaskStatus_outside|]. intros result.
  assert (respects (outside poll_event)
            (_ <-- wait_before_next_poll maxAttempts intervalMs attempt ;;
             ret (@None SunoTaskResponse))) as Hwait.
  { apply respects_bind; [apply _|apply wait_outside|].
    intros _. apply respects_ret; apply _. }
  destruct (code result =? 202)%Z; [done|].
  destruct (data result) as [clips|]; [|done].
  destruct (_ || _); [apply respects_ret; apply _|].
  destruct (negb _); [apply respects_ret; apply _|done].
Qed.

Lemma poll_turn_outside attempt lastError :
  respects (outside poll_event)
           (poll_turn env taskId maxAttempts intervalMs attempt lastError).
Proof.
  apply respects_catch; [apply _| |].
  - apply respects_bind; [apply _|apply poll_attempt_outside|].
    intros r. apply respects_ret; apply _.
  - intros e. apply respects_bind; [apply _| |].
    + apply respects_when; [apply _|]. by apply respects_emit.
    + intros _. apply respects_ret; apply _.
Qed.

Lemma poll_turn_safe attempt lastError :
  safe (poll_turn env taskId maxAttempts intervalMs attempt lastError).
Proof.
  apply safe_catch. intros e. apply safe_bind.
  - apply safe_when, safe_emit.
  - intros _. apply safe_ret.
Qed.

Lemma poll_loop_outside remaining attempt lastError :
  respects (outside poll_event)
           (poll_loop env taskId maxAttempts intervalMs remaining attempt lastError).
Proof.
  revert attempt lastError.
  induction remaining as [|n IH]; intros attempt lastError; simpl.
  - apply respects_ret; apply _.
  - apply respects_bind; [apply _|apply poll_turn_outside|].
    intros [result|le]; [apply respects_ret; apply _|apply IH].
Qed.

(** The loop itself never throws. *)
Lemma poll_loop_safe remaining attempt lastError :
  safe (poll_loop env taskId maxAttempts intervalMs remaining attempt lastError).
Proof.
  revert attempt lastError.
  induction remaining as [|n IH]; intros attempt lastError; simpl.
  - apply safe_ret.
  - apply safe_bind; [apply poll_turn_safe|].
    intros [result|le]; [apply safe_ret|apply IH].
Qed.

Lemma pollTaskCompletion_safe :
  safe (pollTaskCompletion env (Some taskId) maxAttempts intervalMs).
Proof.
  unfold pollTaskCompletion.
  destruct (startsWith _ taskId).
  - apply safe_bind; [apply safe_emit|]. intros _. apply safe_ret.
  - apply safe_bind; [apply poll_loop_safe|].
    intros [result|[e|]]; [apply safe_ret|apply safe_ret|].
    apply safe_catch. intros e. apply safe_ret.
Qed.

Lemma pollTaskCompletion_outside :
  respects (outside poll_event) (pollTaskCompletion env (Some taskId) maxAttempts intervalMs).
Proof.
  unfold pollTaskCompletion.
  destruct (startsWith _ taskId).
  - apply respects_bind; [apply _|by apply respects_emit|].
    intros _. apply respects_ret; apply _.
  - apply respects_bind; [apply _|apply poll_loop_outside|].
    intros [result|[e|]]; [apply respects_ret; apply _..|].
    apply respects_catch; [apply _|apply getTaskStatus_outside|].
    intros e. apply respects_ret; apply _.
Qed.

(** Without a task identifier the call throws at once. *)
Lemma pollTaskCompletion_undefined w :
  pollTaskCompletion env None maxAttempts intervalMs w
  = (Throw (ErrorObj
              (utf16 "Cannot read properties of undefined (reading 'startsWith')")),
     w).
Proof. reflexivity. Qed.

(** C10, as far as the code goes: for a task identifier that is a string,
    [pollTaskCompletion] returns a response and never throws, whatever the
    answers of the service; when the loop runs out of attempts after a
    failed request the response has code 500 and a message that begins with
    [Polling failed: ], and when no request of the loop failed but the last
    check throws, code 500 and a message that begins with
    [Final status check failed: ].  Called without a task identifier, as the
    generation route does when no task was created, it throws a type error
    and leaves the world as it was. *)
Theorem pollTaskCompletion_total (w : World) :
  (exists result w',
      pollTaskCompletion env (Some taskId) maxAttempts intervalMs w = (Ok result, w')
      /\ forall lastError w1,
          startsWith (utf16 "mock_") taskId = false ->
          poll_loop env taskId maxAttempts intervalMs
                    (Z.to_nat maxAttempts) 0 None w
          = (Ok (Exhausted lastError), w1) ->
          match lastError with
          | Some e =>
              result = {| code := 500; data := DataArray [];
                          message := utf16 "Polling failed: " ++ Js.message e |}
          | None =>
              forall e,
                getTaskStatus_outcome
                  (task_endpoint env taskId (status_requests w1)) = Throw e ->
                result = {| code := 500; data := DataArray [];
                            message := utf16 "Final status check failed: "
                                       ++ message_or (utf16 "Unknown error") e |}
          end)
  /\ pollTaskCompletion env None maxAttempts intervalMs w
     = (Throw (ErrorObj
                 (utf16 "Cannot read properties of undefined (reading 'startsWith')")),
        w).
Proof.
  split; [|apply pollTaskCompletion_undefined].
  destruct (pollTaskCompletion_safe w) as (result & w' & E).
  exists result, w'. split; [done|].
  intros lastError w1 Hmock Hloop.
  unfold pollTaskCompletion in E. rewrite Hmock in E.
  unfold bindM in E. rewrite Hloop in E.
  destruct lastError as [e|].
  - by injection E as <- _.
  - intros e He. unfold catch in E. rewrite getTaskStatus_run, He in E.
    by injection E as <- _.
Qed.
End Poll.
End WithEnv.

Lemma pollTaskCompletion_total_witness :
  exists result w',
    pollTaskCompletion (outage always_down) (Some (utf16 "task-1")) 15 30000
                       (one_song Song.generating) = (Ok result, w')
    /\ code result = 500%Z
    /\ startsWith (utf16 "Polling failed: ") (message result) = true.
Proof.
  destruct (proj1 (pollTaskCompletion_total (outage always_down) (utf16 "task-1")
                     15 30000 (one_song Song.generating)))
    as (result & w' & E & H).
  exists result, w'. split; [exact E|].
  specialize (H (Some (ErrorObj (utf16 "fetch failed"))) _ eq_refl
                ltac:(vm_compute; reflexivity)).
  cbv beta iota in H. rewrite H. split; reflexivity.
Defined.

(** C10 as stated fails: when drafting gives an empty text,
    [generateCompleteSong] resolves without a task identifier, and
    [pollTaskCompletion], called with it, throws. *)
Lemma undefined_task_id_throws :
  (exists song w',
      generateCompleteSong only_emphasis sample_params (one_song Song.generating)
      = (Ok song, w')
      /\ AiMusic.task_id song = None)
  /\ exists e,
      pollTaskCompletion only_emphasis None 15 30000 (one_song Song.generating)
      = (Throw e, one_song Song.generating).
Proof.
  split.
  - eexists _, _. split; [vm_compute; reflexivity|reflexivity].
  - eexists. reflexivity.
Qed.

End PollFacts.

(** ** Drafting and submission *)

Module SubmitFacts.
Import Effects Footprint EffectFacts AiMusic Samples.

Section WithEnv.
Variable env : Env.

Lemma pollTaskCompletion_mock taskId maxAttempts intervalMs w :
  startsWith (utf16 "mock_") taskId = true ->
  pollTaskCompletion env (Some taskId) maxAttempts intervalMs w
  = (Ok (mock_response taskId (now_iso env)), add_event w (Slept (2000 # 1))).
Proof. intros H. unfold pollTaskCompletion. by rewrite H. Qed.

Lemma optimizeLyricsPrompt_run userPrompt styleTags similarLyrics w :
  Drafting.optimizeLyricsPrompt env userPrompt styleTags similarLyrics w
  = (text <-? generateContent env
                (Drafting.lyricsPrompt userPrompt styleTags similarLyrics) ;;
     Ok (Gemini.cleanLyricsResponse (trim text)),
     add_event w (GenerateContent
                    (Drafting.lyricsPrompt userPrompt styleTags similarLyrics))).
Proof.
  cbv [Drafting.optimizeLyricsPrompt catch bindM emit lift throw ret Js.bind].
  by destruct (generateContent env _).
Qed.

(** The first step never throws, and sends text-generation requests only. *)
Lemma draftLyrics_run params w :
  exists lyrics referenceSongs w1,
    draftLyrics env params w = (Ok (lyrics, referenceSongs), w1)
    /\ outside is_generate_content w w1.
Proof.
  unfold draftLyrics. destruct (truthy (customLyrics params)).
  { eexists _, _, _. split; [reflexivity|reflexivity]. }
  destruct (LyricsProcessor.findSimilarLyrics _ _ _ _) as [found|e].
  2:{ eexists _, _, _. split; [reflexivity|reflexivity]. }
  unfold catch, bindM, ret. rewrite optimizeLyricsPrompt_run.
  destruct (generateContent env _) as [text|e]; cbn [Js.bind];
    (eexists _, _, _; split; [reflexivity|]);
    by apply outside_add_event.
Qed.

(** When the text-generation call throws, the fallback lyric is taken after
    one request. *)
Lemma draftLyrics_fallback params w :
  truthy (customLyrics params) = false ->
  (forall prompt, exists e, generateContent env prompt = Throw e) ->
  exists referenceSongs prompt,
    draftLyrics env params w
    = (Ok (fallback_lyrics, referenceSongs), add_event w (GenerateContent prompt)).
Proof.
  intros Hc Hg. unfold draftLyrics. rewrite Hc.
  destruct (RetrievalFacts.findSimilarLyrics_answers (lyricsStore env) (theme params) 3
              LyricsProcessor.default_matchThreshold) as (found & -> & Hne & _).
  unfold catch, bindM, ret. rewrite optimizeLyricsPrompt_run.
  destruct (Hg (Drafting.lyricsPrompt (theme params) (default [] (styles params))
                  (if 0 <? length found
                   then map LyricsProcessor.lyrics_text found else [])))
    as [e ->].
  simpl. eauto.
Qed.

(** The second step with lyrics at hand: one creation request, and a task
    identifier in any case. *)
Lemma submitMusic_run params lyrics referenceSongs w :
  lyrics <> [] ->
  exists song,
    submitMusic env params lyrics referenceSongs w
    = (Ok song, add_event w (CreateRequest (create_body params lyrics)))
    /\ AiMusic.lyrics song = lyrics
    /\ AiMusic.reference_songs song = referenceSongs
    /\ AiMusic.error song = None
    /\ is_Some (AiMusic.task_id song)
    /\ ((exists e, sunoApiCall_outcome
                     (create_endpoint env (create_body params lyrics)) = Throw e) ->
        AiMusic.task_id song = Some (mockTaskId env)).
Proof.
  intros Hne. destruct lyrics as [|c l]; [done|].
  cbv [submitMusic catch bindM sunoApiCall_create emit lift throw ret].
  destruct (sunoApiCall_outcome _) as [created|e] eqn:Ho;
    [destruct (truthy (created_task_id created)) eqn:Ht|];
    (eexists; split; [reflexivity|]);
    cbn [AiMusic.lyrics AiMusic.reference_songs AiMusic.error AiMusic.task_id];
    repeat split; try done; try (intros [? ?]; done); eauto.
  destruct (created_task_id created) as [[|]|]; try done; eauto.
Qed.

Lemma submitMusic_empty params referenceSongs w :
  submitMusic env params [] referenceSongs w
  = (Ok {| lyrics := []; song_title := title params; task_id := None;
           reference_songs := referenceSongs;
           error := Some (utf16 "Failed to generate lyrics") |}, w).
Proof. reflexivity. Qed.

(** The whole of it never throws, and only talks to the two services. *)
Lemma generateCompleteSong_run params w :
  exists song w',
    generateCompleteSong env params w = (Ok song, w')
    /\ outside (fun e => is_generate_content e \/ is_create_request e) w w'.
Proof.
  unfold generateCompleteSong, bindM.
  destruct (draftLyrics_run params w) as (lyrics & refs & w1 & -> & Hout).
  simpl fst. simpl snd.
  assert (outside (fun e => is_generate_content e \/ is_create_request e) w w1)
    as Hout1 by (revert Hout; apply outside_weaken; auto).
  destruct lyrics as [|c l].
  - rewrite submitMusic_empty. eauto.
  - destruct (submitMusic_run params (c :: l) refs w1) as (song & -> & _); [done|].
    eexists _, _. split; [reflexivity|].
    etrans; [exact Hout1|]. apply outside_add_event. by right.
Qed.

Lemma generateCompleteSong_unfold params w :
  generateCompleteSong env params w
  = match draftLyrics env params w with
    | (Ok drafted, w1) => submitMusic env params (fst drafted) (snd drafted) w1
    | (Throw e, w1) => (Throw e, w1)
    end.
Proof. reflexivity. Qed.
End WithEnv.

Lemma fallback_lyrics_nonempty : fallback_lyrics <> [].
Proof. intros H. apply (f_equal length) in H. vm_compute in H. discriminate. Qed.

Lemma mockTaskId_prefix env : startsWith (utf16 "mock_") (mockTaskId env) = true.
Proof. reflexivity. Qed.

(** C4: when the creation call throws, [generateCompleteSong] still resolves,
    with the identifier [mock_<timestamp>_<random>]; and polling an identifier
    that begins with [mock_] sends no request, waits 2000 ms once, and
    resolves to the one succeeded clip with the placeholder addresses and
    duration 180. *)
Theorem mock_task_on_creation_failure (env : Env) (params : SongParams) (w : World) :
  (forall body, exists e, sunoApiCall_outcome (create_endpoint env body) = Throw e) ->
  (exists song w',
      generateCompleteSong env params w = (Ok song, w')
      /\ (AiMusic.lyrics song <> [] ->
          In (CreateRequest (create_body params (AiMusic.lyrics song))) (events w')
          /\ AiMusic.task_id song = Some (mockTaskId env)
          /\ AiMusic.error song = None)
      /\ (AiMusic.lyrics song = [] ->
          grows (fun e => ~ is_create_request e) w w'))
  /\ mockTaskId env
     = utf16 "mock_" ++ decimal (now_ms env) ++ utf16 "_" ++ random_suffix env
  /\ (forall taskId maxAttempts intervalMs w0,
        startsWith (utf16 "mock_") taskId = true ->
        exists clip,
          pollTaskCompletion env (Some taskId) maxAttempts intervalMs w0
          = (Ok {| code := 200; data := DataArray [clip];
                   message := utf16 "Mock task completed successfully" |},
             add_event w0 (Slept (2000 # 1)))
          /\ Clip.state clip = utf16 "succeeded"
          /\ Clip.audio_url clip = utf16 "https://cdn1.suno.ai/mock-audio-url.mp3"
          /\ Clip.video_url clip = utf16 "https://cdn1.suno.ai/mock-video-url.mp4"
          /\ Clip.image_url clip = utf16 "https://cdn1.suno.ai/mock-image-url.jpg"
          /\ Clip.duration clip = Some (180 # 1)).
Proof.
  intros Hcreate. split; [|split; [reflexivity|]].
  - rewrite generateCompleteSong_unfold.
    destruct (draftLyrics_run env params w) as (lyrics & refs & w1 & -> & Hout).
    simpl fst. simpl snd.
    destruct lyrics as [|c l].
    + rewrite submitMusic_empty. eexists _, _. split; [reflexivity|].
      simpl. split; [done|]. intros _.
      apply outside_grows in Hout. revert Hout. apply grows_weaken.
      intros e He Hc. by destruct e.
    + destruct (submitMusic_run env params (c :: l) refs w1) as
        (song & -> & Hl & _ & Herr & _ & Hmock); [done|].
      exists song, (add_event w1 (CreateRequest (create_body params (c :: l)))).
      split; [reflexivity|]. rewrite Hl. split; [|done].
      intros _. repeat split; [|by apply Hmock|done].
      simpl. apply in_app_iff. right. by left.
  - intros taskId maxAttempts intervalMs w0 Hmock.
    exists (mock_clip taskId (now_iso env)).
    split; [by apply pollTaskCompletion_mock|]. by repeat split.
Qed.

Lemma mock_task_on_creation_failure_witness :
  exists song w',
    generateCompleteSong (outage always_down) sample_params (one_song Song.generating)
    = (Ok song, w')
    /\ AiMusic.task_id song = Some (utf16 "mock_1700000000000_k3j9x0q1z").
Proof.
  destruct (mock_task_on_creation_failure (outage always_down) sample_params
              (one_song Song.generating)) as ((song & w' & E & H & _) & _ & _).
  { intros body. eexists. reflexivity. }
  exists song, w'. split; [exact E|].
  destruct H as (_ & H & _).
  - vm_compute in E. injection E as <- _. discriminate.
  - rewrite H. reflexivity.
Defined.

(** C8: without custom lyrics and with a text-generation call that throws,
    [generateCompleteSong] sends one text-generation request and no more,
    takes the fixed fallback lyric, which is not empty, and goes on to send
    the creation request with it. *)
Theorem fallback_lyrics_on_drafting_failure
    (env : Env) (params : SongParams) (w : World) :
  truthy (customLyrics params) = false ->
  (forall prompt, exists e, generateContent env prompt = Throw e) ->
  exists song w' prompt,
    generateCompleteSong env params w = (Ok song, w')
    /\ AiMusic.lyrics song = fallback_lyrics
    /\ AiMusic.lyrics song <> []
    /\ AiMusic.error song = None
    /\ is_Some (AiMusic.task_id song)
    /\ events w' = events w ++ [ GenerateContent prompt;
                                 CreateRequest (create_body params fallback_lyrics) ].
Proof.
  intros Hc Hg. rewrite generateCompleteSong_unfold.
  destruct (draftLyrics_fallback env params w Hc Hg) as (refs & prompt & ->).
  simpl fst. simpl snd.
  destruct (submitMusic_run env params fallback_lyrics refs
              (add_event w (GenerateContent prompt)) fallback_lyrics_nonempty)
    as (song & -> & Hl & _ & Herr & Htask & _).
  eexists song, _, prompt. split; [reflexivity|]. rewrite Hl.
  repeat split; [apply fallback_lyrics_nonempty|done|done|].
  simpl. by rewrite <- app_assoc.
Qed.

Lemma fallback_lyrics_on_drafting_failure_witness :
  exists song w',
    generateCompleteSong (outage always_down) sample_params (one_song Song.generating)
    = (Ok song, w')
    /\ AiMusic.lyrics song = fallback_lyrics.
Proof.
  destruct (fallback_lyrics_on_drafting_failure (outage always_down) sample_params
              (one_song Song.generating)) as (song & w' & prompt & E & H & _).
  - reflexivity.
  - intros prompt. eexists. reflexivity.
  - exists song, w'. split; [exact E|exact H].
Defined.

End SubmitFacts.

(** ** The generation route *)

Module GenerateRouteFacts.
Import Effects Footprint EffectFacts AiMusic Supabase GenerateRoute PollFacts Samples.
Import MoreSamples.

Section WithEnv.
Variable env : Env.

Lemma updateSong_run songId updates song w :
  songs w !! songId = Some song ->
  updateSong env songId updates w
  = (Ok (Song.apply updates song),
     {| songs := <[songId := Song.apply updates song]> (songs w);
        generation_logs := generation_logs w;
        events := events w ++ [SongUpdate songId updates] |}).
Proof. intros H. unfold updateSong. by rewrite H. Qed.

(** A log written quietly changes neither the songs nor the events, and
    does not throw. *)
Lemma log_quietly_run logData w :
  exists w', log_quietly env logData w = (Ok tt, w')
             /\ songs w' = songs w /\ events w' = events w.
Proof.
  unfold log_quietly, catch, createGenerationLog, ret.
  destruct (log_failure env logData); eauto.
Qed.

(** One update followed by a quiet log. *)
Lemma update_then_log songId updates logData song w :
  songs w !! songId = Some song ->
  exists w',
    (_ <-- updateSong env songId updates ;; log_quietly env logData) w = (Ok tt, w')
    /\ songs w' = <[songId := Song.apply updates song]> (songs w)
    /\ events w' = events w ++ [SongUpdate songId updates].
Proof.
  intros H. unfold bindM. rewrite (updateSong_run _ _ _ _ H).
  destruct (log_quietly_run logData
              {| songs := <[songId := Song.apply updates song]> (songs w);
                 generation_logs := generation_logs w;
                 events := events w ++ [SongUpdate songId updates] |})
    as (w' & -> & Hs & He).
  exists w'. done.
Qed.

Section Poll.
Variables (taskId : str) (maxAttempts intervalMs : Z).

Lemma when_sleep_run b ms w :
  exists w', when b (sleep ms) w = (Ok tt, w')
             /\ status_requests w' = status_requests w.
Proof.
  destruct b; simpl.
  - eexists. split; [reflexivity|]. rewrite status_requests_add. simpl. lia.
  - by eexists.
Qed.

(** A turn whose request throws records the error. *)
Lemma turn_throws attempt lastError w e :
  getTaskStatus_outcome (task_endpoint env taskId (status_requests w)) = Throw e ->
  exists w', poll_turn env taskId maxAttempts intervalMs attempt lastError w = (Ok (inr (Some (as_Error e))), w')
             /\ status_requests w' = S (status_requests w).
Proof.
  intros Ho. unfold poll_turn, catch, poll_attempt, bindM.
  rewrite getTaskStatus_run, Ho.
  destruct (when_sleep_run (attempt <? maxAttempts - 1)%Z
              (backoffDelay intervalMs attempt)
              (add_event w (StatusRequest taskId))) as (w' & -> & Hn).
  exists w'. split; [done|].
  rewrite Hn, status_requests_add. simpl. lia.
Qed.

(** A turn whose answer is [202] goes on. *)
Lemma turn_not_ready attempt lastError w r :
  getTaskStatus_outcome (task_endpoint env taskId (status_requests w)) = Ok r -> code r = 202%Z ->
  exists w', poll_turn env taskId maxAttempts intervalMs attempt lastError w = (Ok (inr lastError), w')
             /\ status_requests w' = S (status_requests w).
Proof.
  intros Ho Hc. unfold poll_turn, catch, poll_attempt, bindM.
  rewrite getTaskStatus_run, Ho. rewrite Hc. simpl.
  unfold wait_before_next_poll.
  destruct (when_sleep_run (attempt <? maxAttempts - 1)%Z (inject_Z intervalMs)
              (add_event w (StatusRequest taskId))) as (w' & -> & Hn).
  exists w'. split; [done|].
  rewrite Hn, status_requests_add. simpl. lia.
Qed.

(** A turn whose answer holds a succeeded clip returns it. *)
Lemma turn_succeeded attempt lastError w r clips :
  getTaskStatus_outcome (task_endpoint env taskId (status_requests w)) = Ok r -> code r <> 202%Z ->
  data r = DataArray clips -> existsb (state_is "succeeded") clips = true ->
  poll_turn env taskId maxAttempts intervalMs attempt lastError w = (Ok (inl r), add_event w (StatusRequest taskId)).
Proof.
  intros Ho Hc Hd Hs. unfold poll_turn, catch, poll_attempt, bindM.
  rewrite getTaskStatus_run, Ho.
  apply Z.eqb_neq in Hc. rewrite Hc, Hd, Hs. reflexivity.
Qed.

Lemma poll_loop_all_throw remaining attempt lastError w :
  (forall n, exists e, getTaskStatus_outcome (task_endpoint env taskId n) = Throw e) ->
  exists le w',
    poll_loop env taskId maxAttempts intervalMs remaining attempt lastError w
    = (Ok (Exhausted le), w')
    /\ (remaining <> 0 \/ lastError <> None -> le <> None).
Proof.
  intros Hall. revert attempt lastError w.
  induction remaining as [|n IH]; intros attempt lastError w.
  - exists lastError, w. split; [done|]. intros [|]; done.
  - destruct (Hall (status_requests w)) as [e He].
    destruct (turn_throws attempt lastError w e He) as (w1 & Ht & _).
    destruct (IH (attempt + 1)%Z (Some (as_Error e)) w1) as (le & w' & E & Hle).
    exists le, w'. split.
    + cbn [poll_loop]. unfold bindM at 1. rewrite Ht. exact E.
    + intros _. apply Hle. by right.
Qed.

Lemma poll_loop_ready k :
  forall remaining attempt lastError w r clips,
    (forall i, i < k ->
               exists ri, getTaskStatus_outcome (task_endpoint env taskId (status_requests w + i)) = Ok ri
                          /\ code ri = 202%Z) ->
    getTaskStatus_outcome (task_endpoint env taskId (status_requests w + k)) = Ok r -> code r <> 202%Z ->
    data r = DataArray clips -> existsb (state_is "succeeded") clips = true ->
    k < remaining ->
    exists w',
      poll_loop env taskId maxAttempts intervalMs remaining attempt lastError w
      = (Ok (Returned r), w').
Proof.
  induction k as [|k IH]; intros remaining attempt lastError w r clips
                                 Hnot Hr Hc Hd Hs Hlt;
    (destruct remaining as [|n]; [lia|]).
  - rewrite Nat.add_0_r in Hr.
    eexists. cbn [poll_loop]. unfold bindM at 1.
    rewrite (turn_succeeded attempt lastError w r clips Hr Hc Hd Hs).
    reflexivity.
  - destruct (Hnot 0) as (r0 & Hr0 & Hc0); [lia|].
    rewrite Nat.add_0_r in Hr0.
    destruct (turn_not_ready attempt lastError w r0 Hr0 Hc0) as (w1 & Ht & Hn).
    destruct (IH n (attempt + 1)%Z lastError w1 r clips) as (w' & E);
      try done; try lia.
    + intros i Hi. rewrite Hn.
      replace (S (status_requests w) + i) with (status_requests w + S i) by lia.
      apply Hnot. lia.
    + rewrite Hn.
      by replace (S (status_requests w) + k) with (status_requests w + S k) by lia.
    + exists w'. cbn [poll_loop]. unfold bindM at 1. rewrite Ht. exact E.
Qed.

Lemma poll_loop_not_ready remaining :
  forall attempt lastError w,
    (forall i, i < remaining ->
               exists ri, getTaskStatus_outcome (task_endpoint env taskId (status_requests w + i)) = Ok ri
                          /\ code ri = 202%Z) ->
    exists w',
      poll_loop env taskId maxAttempts intervalMs remaining attempt lastError w
      = (Ok (Exhausted lastError), w')
      /\ status_requests w' = status_requests w + remaining.
Proof.
  induction remaining as [|n IH]; intros attempt lastError w Hnot.
  - exists w. split; [done|]. lia.
  - destruct (Hnot 0) as (r0 & Hr0 & Hc0); [lia|].
    rewrite Nat.add_0_r in Hr0.
    destruct (turn_not_ready attempt lastError w r0 Hr0 Hc0) as (w1 & Ht & Hn).
    destruct (IH (attempt + 1)%Z lastError w1) as (w' & E & Hn').
    + intros i Hi. rewrite Hn.
      replace (S (status_requests w) + i) with (status_requests w + S i) by lia.
      apply Hnot. lia.
    + exists w'. split; [|lia].
      cbn [poll_loop]. unfold bindM at 1. rewrite Ht. exact E.
Qed.
End Poll.

Lemma pollSongCompletion_resolved songId taskId w result w1 w' :
  pollTaskCompletion env (Some taskId) 15 30000 w = (Ok result, w1) ->
  persist_result env songId result w1 = (Ok tt, w') ->
  pollSongCompletion env songId (Some taskId) w = (Ok tt, w').
Proof.
  intros Hp Hr. unfold pollSongCompletion, catch, bindM. by rewrite Hp, Hr.
Qed.

(** No clip succeeded, none failed: the song is marked failed, timed out. *)
Lemma persist_timed_out songId result clips song w :
  data result = DataArray clips ->
  find (state_is "succeeded") clips = None ->
  find (state_is "failed") clips = None ->
  songs w !! songId = Some song ->
  exists w',
    persist_result env songId result w = (Ok tt, w')
    /\ songs w' = <[songId := Song.apply
                      (set_status Song.failed (Some (utf16 "Song generation timed out")))
                      song]> (songs w).
Proof.
  intros Hd Hs Hf Hsong. unfold persist_result. rewrite Hd, Hs, Hf.
  destruct (update_then_log songId
              (set_status Song.failed (Some (utf16 "Song generation timed out")))
              (log_entry songId "generation_timeout" "error"
                 (Some (utf16 "Song generation timed out after 5 minutes")))
              song w Hsong) as (w' & E & Hs' & _).
  exists w'. done.
Qed.

(** A succeeded clip: the song is completed from the first one. *)
Lemma persist_completed songId result clips clip song w :
  data result = DataArray clips ->
  find (state_is "succeeded") clips = Some clip ->
  songs w !! songId = Some song ->
  exists w',
    persist_result env songId result w = (Ok tt, w')
    /\ songs w' = <[songId := Song.apply (completed_from clip (now_iso env)) song]>
                    (songs w).
Proof.
  intros Hd Hs Hsong. unfold persist_result. rewrite Hd, Hs.
  destruct (update_then_log songId (completed_from clip (now_iso env))
              (log_entry songId "generation_completed" "success" None)
              song w Hsong) as (w' & E & Hs' & _).
  exists w'. done.
Qed.

(** Polling of a real task whose every request throws. *)
Lemma pollTaskCompletion_all_throw taskId w :
  startsWith (utf16 "mock_") taskId = false ->
  (forall n, exists e, getTaskStatus_outcome (task_endpoint env taskId n) = Throw e) ->
  exists e w1,
    pollTaskCompletion env (Some taskId) 15 30000 w
    = (Ok {| code := 500; data := DataArray [];
             message := utf16 "Polling failed: " ++ Js.message e |}, w1)
    /\ songs w1 = songs w.
Proof.
  intros Hmock Hall.
  destruct (poll_loop_all_throw taskId 15 30000 15 0 None w Hall)
    as (le & w1 & E & Hle).
  destruct le as [e|]; [|exfalso; apply Hle; [by left|done]].
  exists e, w1.
  assert (pollTaskCompletion env (Some taskId) 15 30000 w
          = (Ok {| code := 500; data := DataArray [];
                   message := utf16 "Polling failed: " ++ Js.message e |}, w1)) as Hp.
  { unfold pollTaskCompletion. rewrite Hmock. unfold bindM.
    change (Z.to_nat 15) with 15. by rewrite E. }
  split; [exact Hp|].
  by destruct (pollTaskCompletion_outside env taskId 15 30000 _ _ _ Hp) as (Hs & _).
Qed.

Lemma exhausted_polling_persisted songId taskId song w :
  songs w !! songId = Some song ->
  startsWith (utf16 "mock_") taskId = false ->
  (forall n, exists e, getTaskStatus_outcome (task_endpoint env taskId n) = Throw e) ->
  exists w',
    pollSongCompletion env songId (Some taskId) w = (Ok tt, w')
    /\ songs w' !! songId
       = Some (Song.apply
                 (set_status Song.failed (Some (utf16 "Song generation timed out")))
                 song).
Proof.
  intros Hsong Hmock Hall.
  destruct (pollTaskCompletion_all_throw taskId w Hmock Hall) as (e & w1 & Hp & Hs1).
  destruct (persist_timed_out songId
              {| code := 500; data := DataArray [];
                 message := utf16 "Polling failed: " ++ Js.message e |}
              [] song w1 eq_refl eq_refl eq_refl)
    as (w' & Hr & Hs'); [by rewrite Hs1|].
  exists w'. split; [by eapply pollSongCompletion_resolved|].
  rewrite Hs'. apply lookup_insert_eq.
Qed.
(** Polling of a real task that answers [202] to the first [k] requests and
    then with a succeeded clip, within the budget of fifteen attempts and
    the last check. *)
Lemma pollTaskCompletion_ready taskId w k r clips :
  startsWith (utf16 "mock_") taskId = false ->
  k <= 15 ->
  (forall i, i < k ->
             exists ri,
               getTaskStatus_outcome
                 (task_endpoint env taskId (status_requests w + i)) = Ok ri
               /\ code ri = 202%Z) ->
  getTaskStatus_outcome (task_endpoint env taskId (status_requests w + k)) = Ok r ->
  code r <> 202%Z ->
  data r = DataArray clips ->
  existsb (state_is "succeeded") clips = true ->
  exists w1,
    pollTaskCompletion env (Some taskId) 15 30000 w = (Ok r, w1)
    /\ songs w1 = songs w.
Proof.
  intros Hmock Hk Hnot Hr Hc Hd Hs.
  assert (exists w1, pollTaskCompletion env (Some taskId) 15 30000 w = (Ok r, w1))
    as (w1 & Hp).
  { unfold pollTaskCompletion. rewrite Hmock. unfold bindM.
    change (Z.to_nat 15) with 15.
    destruct (decide (k < 15)) as [Hlt|Hge].
    - destruct (poll_loop_ready taskId 15 30000 k 15 0 None w r clips)
        as (w1 & ->); try done. by exists w1.
    - assert (k = 15) as -> by lia.
      destruct (poll_loop_not_ready taskId 15 30000 15 0 None w Hnot)
        as (w1 & -> & Hn).
      unfold catch. rewrite getTaskStatus_run, Hn, Hr. by eexists. }
  exists w1. split; [exact Hp|].
  by destruct (pollTaskCompletion_outside env taskId 15 30000 _ _ _ Hp) as (Hs1 & _).
Qed.
End WithEnv.

Lemma find_existsb {A} (f : A -> bool) l x : find f l = Some x -> existsb f l = true.
Proof.
  intros H. apply find_some in H as [Hin Hf].
  apply existsb_exists. eauto.
Qed.

Lemma find_none_existsb {A} (f : A -> bool) l : find f l = None <-> existsb f l = false.
Proof.
  induction l as [|x l IH]; simpl; [done|].
  destruct (f x); simpl; [split; discriminate|done].
Qed.

(** *** The stored duration *)

Lemma Qfloor_half z : Qfloor (inject_Z z + (1 # 2)) = z.
Proof.
  unfold Qfloor, Qplus, inject_Z. cbn [Qnum Qden].
  change (Z.pos (1 * 2)) with 2%Z.
  symmetry. apply (Z.div_unique _ _ _ 1); lia.
Qed.

(** [Math.round] of a duration that is not zero, and null otherwise. *)
Lemma persisted_duration_spec (duration : option Q) :
  (duration = None -> persisted_duration duration = None)
  /\ (forall q, duration = Some q -> (q == 0)%Q -> persisted_duration duration = None)
  /\ (forall q, duration = Some q -> ~ (q == 0)%Q ->
        exists d, persisted_duration duration = Some d
                  /\ (inject_Z d <= q + (1 # 2))%Q /\ (q + (1 # 2) < inject_Z d + 1)%Q)
  /\ (forall z, duration = Some (inject_Z z) -> z <> 0%Z ->
        persisted_duration duration = Some z).
Proof.
  split; [by intros ->|]. split; [|split].
  - intros q -> Hq. unfold persisted_duration.
    by rewrite (proj2 (Qeq_bool_iff q 0) Hq).
  - intros q -> Hq. unfold persisted_duration.
    destruct (Qeq_bool q 0) eqn:E; [by apply Qeq_bool_iff in E|].
    exists (Qfloor (q + (1 # 2))). split; [done|]. split.
    + apply Qfloor_le.
    + rewrite <- (inject_Z_plus _ 1). apply Qlt_floor.
  - intros z -> Hz. unfold persisted_duration.
    destruct (Qeq_bool (inject_Z z) 0) eqn:E.
    + apply Qeq_bool_iff in E. unfold Qeq, inject_Z in E. cbn in E. lia.
    + by rewrite Qfloor_half.
Qed.

(** C7, as far as the code goes: when the status requests of a real task
    are answered by [202] some times, and then, within the fifteen attempts
    and the last check, by a response whose code is not 202 and whose array
    holds a succeeded clip, the song ends [completed] with the identifier
    and the audio, video and image addresses of the first succeeded clip,
    the completion time set and the error message cleared.  The duration
    that is stored is the duration of the clip rounded to the nearest whole
    number (a half going up): a whole duration is stored as it is, and
    nothing is stored for a clip without a duration or with a duration of
    zero. *)
Theorem succeeded_clip_completes_song
    (env : Env) (songId taskId : str) (song : Song.t) (w : World)
    (k : nat) (r : SunoTaskResponse) (clips : list Clip.t) (clip : Clip.t) :
  songs w !! songId = Some song ->
  startsWith (utf16 "mock_") taskId = false ->
  k <= 15 ->
  (forall i, i < k ->
             exists ri,
               getTaskStatus_outcome
                 (task_endpoint env taskId (status_requests w + i)) = Ok ri
               /\ code ri = 202%Z) ->
  getTaskStatus_outcome (task_endpoint env taskId (status_requests w + k)) = Ok r ->
  code r <> 202%Z ->
  data r = DataArray clips ->
  find (state_is "succeeded") clips = Some clip ->
  exists w' song',
    pollSongCompletion env songId (Some taskId) w = (Ok tt, w')
    /\ songs w' !! songId = Some song'
    /\ Song.status song' = Song.completed
    /\ Song.clip_id song' = Some (Clip.clip_id clip)
    /\ Song.audio_url song' = Some (Clip.audio_url clip)
    /\ Song.video_url song' = Some (Clip.video_url clip)
    /\ Song.image_url song' = Some (Clip.image_url clip)
    /\ (Clip.duration clip = None -> Song.duration song' = None)
    /\ (forall q, Clip.duration clip = Some q -> (q == 0)%Q -> Song.duration song' = None)
    /\ (forall q, Clip.duration clip = Some q -> ~ (q == 0)%Q ->
          exists d, Song.duration song' = Some d
                    /\ (inject_Z d <= q + (1 # 2))%Q /\ (q + (1 # 2) < inject_Z d + 1)%Q)
    /\ (forall z, Clip.duration clip = Some (inject_Z z) -> z <> 0%Z ->
          Song.duration song' = Some z)
    /\ Song.completed_at song' = Some (now_iso env)
    /\ Song.error_message song' = None.
Proof.
  intros Hsong Hmock Hk Hnot Hr Hc Hd Hfind.
  destruct (pollTaskCompletion_ready env taskId w k r clips Hmock Hk Hnot Hr Hc Hd
              (find_existsb _ _ _ Hfind)) as (w1 & Hp & Hs1).
  destruct (persist_completed env songId r clips clip song w1 Hd Hfind)
    as (w' & Hpersist & Hs'); [by rewrite Hs1|].
  exists w', (Song.apply (completed_from clip (now_iso env)) song).
  split; [by eapply pollSongCompletion_resolved|].
  split; [rewrite Hs'; apply lookup_insert_eq|].
  destruct (persisted_duration_spec (Clip.duration clip)) as (H1 & H2 & H3 & H4).
  cbn [Song.apply completed_from Song.status Song.clip_id Song.audio_url
       Song.video_url Song.image_url Song.duration Song.completed_at
       Song.error_message Song.p_status Song.p_clip_id Song.p_audio_url
       Song.p_video_url Song.p_image_url Song.p_duration Song.p_completed_at
       Song.p_error_message Song.or_keep Song.or_keep_opt].
  split_and!; done.
Qed.

Lemma succeeded_clip_completes_song_witness :
  exists w' song',
    pollSongCompletion (outage ready_after_three) (utf16 "song-1")
                       (Some (utf16 "task-1")) (one_song Song.generating) = (Ok tt, w')
    /\ songs w' !! utf16 "song-1" = Some song'
    /\ Song.status song' = Song.completed
    /\ Song.audio_url song' = Some (utf16 "https://cdn/a.mp3")
    /\ exists d, Song.duration song' = Some d
                 /\ (inject_Z d <= (367 # 2) + (1 # 2))%Q
                 /\ ((367 # 2) + (1 # 2) < inject_Z d + 1)%Q.
Proof.
  destruct (succeeded_clip_completes_song (outage ready_after_three) (utf16 "song-1")
              (utf16 "task-1") (a_song Song.generating) (one_song Song.generating)
              3 (as_task ready_json) [ready_clip] ready_clip)
    as (w' & song' & E & Hl & Hs & _ & Ha & _ & _ & _ & _ & Hd & _).
  - vm_compute. reflexivity.
  - reflexivity.
  - lia.
  - intros i Hi. exists {| code := 202; data := DataArray [];
                           message := utf16 "Task not ready, please wait" |}.
    split; [|reflexivity].
    destruct i as [|[|[|i]]]; [reflexivity..|lia].
  - reflexivity.
  - discriminate.
  - reflexivity.
  - reflexivity.
  - exists w', song'. split; [exact E|]. split; [exact Hl|]. split; [exact Hs|].
    split; [exact Ha|]. apply (Hd (367 # 2)); [reflexivity|discriminate].
Defined.

(** C7 as stated fails.  A response whose array holds a succeeded clip but
    whose code is 202 is taken as not ready and its clip is not looked at:
    when the next response holds a failed clip, the song ends [failed].
    And what is stored for a clip of 183.5 seconds is 184. *)
Lemma coded_202_clip_is_skipped :
  (exists r w' song',
      getTaskStatus_outcome (early_clip_then_failed (utf16 "task-1") 0) = Ok r
      /\ data r = DataArray [ready_clip]
      /\ find (state_is "succeeded") [ready_clip] = Some ready_clip
      /\ pollSongCompletion (outage early_clip_then_failed) (utf16 "song-1")
           (Some (utf16 "task-1")) (one_song Song.generating) = (Ok tt, w')
      /\ songs w' !! utf16 "song-1" = Some song'
      /\ Song.status song' = Song.failed
      /\ Song.audio_url song' = None)
  /\ (exists w' song',
        pollSongCompletion (outage ready_after_three) (utf16 "song-1")
          (Some (utf16 "task-1")) (one_song Song.generating) = (Ok tt, w')
        /\ songs w' !! utf16 "song-1" = Some song'
        /\ Clip.duration ready_clip = Some (367 # 2)
        /\ Song.duration song' = Some 184%Z
        /\ ~ (inject_Z 184 == 367 # 2)%Q).
Proof.
  split.
  - eexists _, _, _. split; [vm_compute; reflexivity|].
    split; [reflexivity|]. split; [vm_compute; reflexivity|].
    split; [vm_compute; reflexivity|].
    split; [vm_compute; reflexivity|]. split; reflexivity.
  - eexists _, _. split; [vm_compute; reflexivity|].
    split; [vm_compute; reflexivity|]. split; [reflexivity|].
    split; [reflexivity|]. discriminate.
Qed.

(** The guard of the route for a polling failure: were the data of such a
    response no array, the song would be set to [generating]. *)
Lemma polling_failure_guard env songId song w e :
  songs w !! songId = Some song ->
  exists w',
    persist_result env songId
      {| code := 500; data := NoArray;
         message := utf16 "Polling failed: " ++ Js.message e |} w = (Ok tt, w')
    /\ songs w' !! songId
       = Some (Song.apply
                 (set_status Song.generating
                    (Some (utf16 "Song is being generated - Suno API experiencing temporary issues. Please check back later.")))
                 song).
Proof.
  intros Hsong. unfold persist_result. cbn [data code message].
  assert (includes (utf16 "Polling failed")
            (utf16 "Polling failed: " ++ Js.message e) = true) as ->.
  { change (utf16 "Polling failed: ") with (utf16 "Polling failed" ++ utf16 ": ").
    rewrite <- app_assoc. apply StrFacts.includes_app_refl. }
  cbn [Z.eqb Pos.eqb andb].
  edestruct update_then_log as (w' & -> & Hs & _); [exact Hsong|].
  exists w'. split; [done|]. rewrite Hs. apply lookup_insert_eq.
Qed.

(** C1: at the input where every status request throws, [pollTaskCompletion]
    answers with code 500, the message [Polling failed: fetch failed] and an
    empty array.  The route tests for a polling failure only when the data
    is no array, where it would set the song to [generating]; the empty
    array is searched for clips instead, and the song ends [failed] with the
    message [Song generation timed out], which does not hold
    [Polling failed]. *)
Theorem persisted_message_is_timeout :
  (exists w1,
      pollTaskCompletion (outage always_down) (Some (utf16 "task-1")) 15 30000
                         (one_song Song.generating)
      = (Ok {| code := 500; data := DataArray [];
               message := utf16 "Polling failed: fetch failed" |}, w1))
  /\ (exists w' song' persisted,
        pollSongCompletion (outage always_down) (utf16 "song-1") (Some (utf16 "task-1"))
                           (one_song Song.generating) = (Ok tt, w')
        /\ songs w' !! utf16 "song-1" = Some song'
        /\ Song.status song' = Song.failed
        /\ Song.error_message song' = Some persisted
        /\ persisted = utf16 "Song generation timed out"
        /\ includes (utf16 "Polling failed") persisted = false)
  /\ (exists w' song',
        persist_result (outage always_down) (utf16 "song-1")
          {| code := 500; data := NoArray;
             message := utf16 "Polling failed: fetch failed" |}
          (one_song Song.generating) = (Ok tt, w')
        /\ songs w' !! utf16 "song-1" = Some song'
        /\ Song.status song' = Song.generating).
Proof.
  split; [|split].
  - destruct (pollTaskCompletion_all_throw (outage always_down) (utf16 "task-1")
                (one_song Song.generating)) as (e & w1 & Hp & _).
    + reflexivity.
    + intros n. eexists. reflexivity.
    + exists w1. rewrite Hp. vm_compute in Hp. injection Hp as Hm _.
      vm_compute. by rewrite Hm.
  - destruct (exhausted_polling_persisted (outage always_down) (utf16 "song-1")
                (utf16 "task-1") (a_song Song.generating) (one_song Song.generating))
      as (w' & E & Hl).
    + vm_compute. reflexivity.
    + reflexivity.
    + intros n. eexists. reflexivity.
    + eexists w', _, _. split; [exact E|]. split; [exact Hl|].
      split; [reflexivity|]. split; [reflexivity|]. split; [reflexivity|].
      vm_compute. reflexivity.
  - destruct (polling_failure_guard (outage always_down) (utf16 "song-1")
                (a_song Song.generating) (one_song Song.generating)
                (ErrorObj (utf16 "fetch failed")))
      as (w' & E & Hl).
    + vm_compute. reflexivity.
    + eexists w', _. split; [exact E|]. split; [exact Hl|]. reflexivity.
Qed.

End GenerateRouteFacts.

(** ** The manual check, case by case *)

Module RetryCheckFacts.
Import Effects Footprint EffectFacts AiMusic Supabase GenerateRoute RetryRoute.
Import PollAnswers PollFacts GenerateRouteFacts.

(** Two readings of the same answer agree. *)
Ltac same_answer :=
  intros;
  repeat match goal with
         | H : ex _ |- _ => destruct H
         | H : _ /\ _ |- _ => destruct H
         end;
  repeat match goal with
         | H : Ok ?x = Ok ?y |- _ => injection H as H; subst y
         | H : Throw ?x = Throw ?y |- _ => injection H as H; subst y
         | H : Throw _ = Ok _ |- _ => discriminate H
         | H : Ok _ = Throw _ |- _ => discriminate H
         | H1 : ?a = Ok ?x, H2 : ?a = Ok ?y |- _ =>
             assert (y = x) by congruence; subst y; clear H2
         | H1 : ?a = DataArray ?x, H2 : ?a = DataArray ?y |- _ =>
             assert (y = x) by congruence; subst y; clear H2
         end;
  try contradiction; try (exfalso; congruence); try congruence;
  try match goal with
      | H : find _ _ = None, H' : existsb _ _ = true |- _ =>
          apply find_none_existsb in H; congruence
      end;
  try match goal with
      | |- RetryRoute.error _ = None => reflexivity
      end;
  cbn [find existsb] in *; try discriminate.

Section WithEnv.
Variable env : Env.

Lemma fetch_result_getTaskStatus taskId w :
  fetch_result env taskId w = getTaskStatus env taskId w.
Proof.
  rewrite getTaskStatus_run.
  cbv [fetch_result bindM emit lift throw ret getTaskStatus_outcome Js.bind].
  destruct (task_endpoint env taskId (status_requests w)) as [e|status text json];
    [done|].
  destruct (status =? 202)%Z; [by destruct json|].
  destruct (ok_status status); [by destruct json|done].
Qed.

(** The inner [try] on an existing song: one request, one update, and an
    answer that tells what was written. *)
Lemma check_task_run songId taskId song w :
  songs w !! songId = Some song ->
  exists reply w' updates,
    check_task env songId taskId w = (Ok reply, w')
    /\ events w' = events w ++ [StatusRequest taskId; SongUpdate songId updates]
    /\ songs w' = <[songId := Song.apply updates song]> (songs w)
    /\ http_status reply = 200%Z
    /\ RetryRoute.status reply = Song.p_status updates
    /\ (forall r clips clip,
          outcome_at env taskId (status_requests w) = Ok r ->
          code r <> 202%Z -> data r = DataArray clips ->
          find (state_is "succeeded") clips = Some clip ->
          updates = completed_from clip (now_iso env))
    /\ (forall r clips,
          outcome_at env taskId (status_requests w) = Ok r ->
          code r <> 202%Z -> data r = DataArray clips ->
          find (state_is "succeeded") clips = None ->
          existsb (state_is "failed") clips = true ->
          updates = set_status Song.failed
                      (Some (utf16 "Song generation failed on Suno API")))
    /\ (Song.p_status updates = Some Song.completed ->
        exists r clips clip,
          outcome_at env taskId (status_requests w) = Ok r
          /\ code r <> 202%Z /\ data r = DataArray clips
          /\ find (state_is "succeeded") clips = Some clip)
    /\ (Song.p_status updates = Some Song.failed ->
        exists r clips,
          outcome_at env taskId (status_requests w) = Ok r
          /\ code r <> 202%Z /\ data r = DataArray clips
          /\ find (state_is "succeeded") clips = None
          /\ existsb (state_is "failed") clips = true)
    /\ (Song.p_status updates = Some Song.completed
        \/ Song.p_status updates = Some Song.failed
        \/ exists msg, updates = set_status Song.generating (Some msg))
    /\ (forall e,
          outcome_at env taskId (status_requests w) = Throw e ->
          RetryRoute.error reply = Some (message_or (utf16 "Unknown error") e)
          /\ success reply = Some false)
    /\ (forall r,
          outcome_at env taskId (status_requests w) = Ok r ->
          RetryRoute.error reply = None).
Proof.
  intros Hsong.
  set (w1 := add_event w (StatusRequest taskId)).
  assert (songs w1 !! songId = Some song) as Hsong1 by done.
  assert (forall updates,
             updateSong env songId updates w1
             = (Ok (Song.apply updates song),
                {| songs := <[songId := Song.apply updates song]> (songs w);
                   generation_logs := generation_logs w;
                   events := events w ++ [StatusRequest taskId; SongUpdate songId updates] |}))
    as Hupd.
  { intros updates. rewrite (updateSong_run env songId updates song w1 Hsong1).
    unfold w1, add_event. cbn [songs events generation_logs].
    by rewrite <- app_assoc. }
  unfold check_task, catch. unfold bindM at 1.
  rewrite fetch_result_getTaskStatus, getTaskStatus_run.
  fold (outcome_at env taskId (status_requests w)). fold w1.
  destruct (outcome_at env taskId (status_requests w)) as [r|e] eqn:Ho.
  - destruct (code r =? 202)%Z eqn:Hcode.
    { apply Z.eqb_eq in Hcode. unfold bindM. rewrite Hupd.
      eexists _, _, _. split; [reflexivity|]. cbn [events songs].
      split; [done|]. split; [done|]. split; [done|]. split; [done|].
      split_and!; try solve [same_answer]. right. right. by eexists. }
    apply Z.eqb_neq in Hcode.
    destruct (data r) as [[|clip rest]|] eqn:Hd.
    + unfold bindM. rewrite Hupd.
      eexists _, _, _. split; [reflexivity|]. cbn [events songs].
      split; [done|]. split; [done|]. split; [done|]. split; [done|].
      split_and!; try solve [same_answer]. right. right. by eexists.
    + cbv zeta.
      destruct (find (state_is "succeeded") (clip :: rest)) as [good|] eqn:Hgood.
      * unfold bindM at 1. rewrite Hupd. unfold bindM.
        match goal with
        | |- context [log_quietly env ?l ?w0] =>
            destruct (log_quietly_run env l w0) as (w2 & -> & Hs2 & He2)
        end.
        eexists _, w2, _. split; [reflexivity|].
        split; [done|]. split; [done|]. split; [done|]. split; [done|].
        split_and!; try solve [same_answer].
        -- intros _. by exists r, (clip :: rest), good.
        -- by left.
      * destruct (find (state_is "failed") (clip :: rest)) as [bad|] eqn:Hbad.
        -- unfold bindM. rewrite Hupd.
           eexists _, _, _. split; [reflexivity|]. cbn [events songs].
           split; [done|]. split; [done|]. split; [done|]. split; [done|].
           split_and!; try solve [same_answer].
           ++ intros _. exists r, (clip :: rest).
              split; [done|]. split; [done|]. split; [done|]. split; [done|].
              by apply (find_existsb _ _ bad).
           ++ right. by left.
        -- unfold bindM. rewrite Hupd.
           eexists _, _, _. split; [reflexivity|]. cbn [events songs].
           split; [done|]. split; [done|]. split; [done|]. split; [done|].
           split_and!; try solve [same_answer]. right. right. by eexists.
    + unfold bindM. rewrite Hupd.
      eexists _, _, _. split; [reflexivity|]. cbn [events songs].
      split; [done|]. split; [done|]. split; [done|]. split; [done|].
      split_and!; try solve [same_answer]. right. right. by eexists.
  - unfold bindM at 1.
    match goal with
    | |- context [log_quietly env ?l ?w0] =>
        destruct (log_quietly_run env l w0) as (w2 & -> & Hs2 & He2)
    end.
    assert (songs w2 !! songId = Some song) as Hsong2 by (by rewrite Hs2).
    unfold bindM. rewrite (updateSong_run env songId _ song w2 Hsong2).
    eexists _, _, _. split; [reflexivity|]. cbn [events songs].
    split. { rewrite He2. unfold w1, add_event. cbn [events]. by rewrite <- app_assoc. }
    split. { by rewrite Hs2. }
    split; [done|]. split; [done|].
    split_and!; try solve [same_answer].
    + right. right. by eexists.
    + intros e' [= <-]. done.
Qed.

(** The guards of the route let through the owner of a song that has a task
    and is not completed, when the database is set up. *)
Lemma POST_let_through songId userId song w :
  database_error env = None ->
  songs w !! songId = Some song ->
  Song.clerk_user_id song = userId ->
  userId <> [] ->
  truthy (Song.task_id song) = true ->
  Song.status song <> Song.completed ->
  RetryRoute.POST env (Some userId) songId w
  = match check_task env songId (default [] (Song.task_id song)) w with
    | (Ok reply, w') => (Ok reply, w')
    | (Throw _, w') => (Ok (refusal 500 "Internal server error"), w')
    end.
Proof.
  intros Hdb Hsong Howner Huser Htask Hstatus.
  unfold RetryRoute.POST. unfold catch at 1.
  assert (truthy (Some userId) = true) as -> by (by destruct userId).
  cbn [negb]. rewrite Hdb.
  unfold bindM at 1. unfold getSongById. rewrite Hsong, Howner.
  rewrite bool_decide_eq_true_2 by done.
  rewrite Htask. cbn [negb].
  by destruct (Song.status song).
Qed.

(** A check that is let through: one request, one update, and an answer
    that tells what was written. *)
Lemma POST_checked songId userId song w :
  database_error env = None ->
  songs w !! songId = Some song ->
  Song.clerk_user_id song = userId ->
  userId <> [] ->
  truthy (Song.task_id song) = true ->
  Song.status song <> Song.completed ->
  exists reply w' updates,
    RetryRoute.POST env (Some userId) songId w = (Ok reply, w')
    /\ events w' = events w ++ [ StatusRequest (default [] (Song.task_id song));
                                 SongUpdate songId updates ]
    /\ songs w' = <[songId := Song.apply updates song]> (songs w)
    /\ http_status reply = 200%Z
    /\ RetryRoute.status reply = Song.p_status updates
    /\ (forall r clips clip,
          outcome_at env (default [] (Song.task_id song)) (status_requests w) = Ok r ->
          code r <> 202%Z -> data r = DataArray clips ->
          find (state_is "succeeded") clips = Some clip ->
          updates = completed_from clip (now_iso env))
    /\ (forall r clips,
          outcome_at env (default [] (Song.task_id song)) (status_requests w) = Ok r ->
          code r <> 202%Z -> data r = DataArray clips ->
          find (state_is "succeeded") clips = None ->
          existsb (state_is "failed") clips = true ->
          updates = set_status Song.failed
                      (Some (utf16 "Song generation failed on Suno API")))
    /\ (Song.p_status updates = Some Song.completed ->
        exists r clips clip,
          outcome_at env (default [] (Song.task_id song)) (status_requests w) = Ok r
          /\ code r <> 202%Z /\ data r = DataArray clips
          /\ find (state_is "succeeded") clips = Some clip)
    /\ (Song.p_status updates = Some Song.failed ->
        exists r clips,
          outcome_at env (default [] (Song.task_id song)) (status_requests w) = Ok r
          /\ code r <> 202%Z /\ data r = DataArray clips
          /\ find (state_is "succeeded") clips = None
          /\ existsb (state_is "failed") clips = true)
    /\ (Song.p_status updates = Some Song.completed
        \/ Song.p_status updates = Some Song.failed
        \/ exists msg, updates = set_status Song.generating (Some msg))
    /\ (forall e,
          outcome_at env (default [] (Song.task_id song)) (status_requests w) = Throw e ->
          RetryRoute.error reply = Some (message_or (utf16 "Unknown error") e)
          /\ success reply = Some false)
    /\ (forall r,
          outcome_at env (default [] (Song.task_id song)) (status_requests w) = Ok r ->
          RetryRoute.error reply = None).
Proof.
  intros Hdb Hsong Howner Huser Htask Hstatus.
  destruct (check_task_run songId (default [] (Song.task_id song)) song w Hsong)
    as (reply & w' & updates & Hrun & Hrest).
  exists reply, w', updates. split; [|exact Hrest].
  rewrite (POST_let_through songId userId song w) by done. by rewrite Hrun.
Qed.

(** A caller without an identity is turned away, and nothing is done. *)
Lemma POST_unauthorized userId songId w :
  truthy userId = false ->
  RetryRoute.POST env userId songId w = (Ok (refusal 401 "Unauthorized"), w).
Proof. intros H. unfold RetryRoute.POST, catch. by rewrite H. Qed.

End WithEnv.

End RetryCheckFacts.

(** ** Status transitions *)

Module StatusFacts.
Import Effects Footprint EffectFacts AiMusic Supabase GenerateRoute RetryRoute.
Import PollAnswers PollFacts SubmitFacts GenerateRouteFacts RetryCheckFacts Samples.

Lemma status_writes_app songId l l' :
  status_writes songId (l ++ l') = status_writes songId l ++ status_writes songId l'.
Proof. unfold status_writes. apply flat_map_app. Qed.

Lemma status_writes_update songId updates :
  status_writes songId [SongUpdate songId updates]
  = match Song.p_status updates with Some s => [s] | None => [] end.
Proof.
  unfold status_writes, str_eqb. simpl.
  rewrite bool_decide_eq_true_2 by done. by rewrite app_nil_r.
Qed.

Lemma status_writes_none songId new :
  Forall (fun e => ~ is_song_update e) new -> status_writes songId new = [].
Proof.
  induction 1 as [|e new He _ IH]; [done|].
  change (e :: new) with ([e] ++ new). rewrite status_writes_app, IH, app_nil_r.
  destruct e; try done; by destruct He.
Qed.

(** Events from outside the [songs] table write no status. *)
Lemma outside_status_writes (P : Event -> Prop) songId w w' :
  (forall e, P e -> ~ is_song_update e) ->
  outside P w w' ->
  songs w' = songs w
  /\ status_writes songId (events w') = status_writes songId (events w).
Proof.
  intros HP (Hs & _ & new & E & Hnew). split; [done|].
  rewrite E, status_writes_app, (status_writes_none songId new), app_nil_r; [done|].
  eapply Forall_impl; eauto.
Qed.

Section WithEnv.
Variable env : Env.

(** What is written once polling has resolved: one update, with a status
    other than [pending]. *)
Lemma persist_result_writes songId result song w :
  songs w !! songId = Some song ->
  exists w' updates s,
    persist_result env songId result w = (Ok tt, w')
    /\ Song.p_status updates = Some s /\ s <> Song.pending
    /\ songs w' = <[songId := Song.apply updates song]> (songs w)
    /\ events w' = events w ++ [SongUpdate songId updates].
Proof.
  intros Hsong. unfold persist_result.
  destruct (data result) as [clips|].
  - destruct (find (state_is "succeeded") clips) as [clip|];
      [|destruct (find (state_is "failed") clips) as [clip|]];
      (edestruct update_then_log as (w' & -> & Hs & He); [exact Hsong|]);
      (eexists w', _, _; split; [reflexivity|];
       refine (conj _ (conj _ (conj Hs He))); [reflexivity|done]).
  - destruct (_ && _).
    + edestruct update_then_log as (w' & -> & Hs & He); [exact Hsong|].
      eexists w', _, _. split; [reflexivity|].
      refine (conj _ (conj _ (conj Hs He))); [reflexivity|done].
    + unfold bindM. rewrite (updateSong_run _ _ _ _ _ Hsong).
      eexists _, _, _. split; [reflexivity|].
      refine (conj _ (conj _ (conj eq_refl eq_refl))); [reflexivity|done].
Qed.

(** The polling stage writes one status, whatever the audio service does. *)
Lemma pollSongCompletion_writes songId taskId song w :
  songs w !! songId = Some song ->
  exists r w' s,
    pollSongCompletion env songId taskId w = (r, w')
    /\ s <> Song.pending
    /\ status_writes songId (events w') = status_writes songId (events w) ++ [s]
    /\ is_Some (songs w' !! songId).
Proof.
  intros Hsong. unfold pollSongCompletion, catch, bindM.
  destruct taskId as [taskId|].
  - destruct (pollTaskCompletion_safe env taskId 15 30000 w) as (result & w1 & Hp).
    rewrite Hp.
    destruct (outside_status_writes poll_event songId w w1) as (Hs1 & Hw1).
    { intros e He Hu. by destruct e. }
    { exact (pollTaskCompletion_outside env taskId 15 30000 _ _ _ Hp). }
    destruct (persist_result_writes songId result song w1)
      as (w' & updates & s & -> & Hst & Hne & Hs' & He); [by rewrite Hs1|].
    exists (Ok tt), w', s. split; [done|]. split; [done|]. split.
    + rewrite He, status_writes_app, status_writes_update, Hst. by rewrite Hw1.
    + rewrite Hs', lookup_insert_eq. eauto.
  - rewrite pollTaskCompletion_undefined. rewrite (updateSong_run _ _ _ _ _ Hsong).
    unfold createGenerationLog.
    destruct (log_failure env _);
      (eexists _, _, Song.failed; split; [reflexivity|]; split; [done|]; split;
       [cbn [events]; by rewrite status_writes_app, status_writes_update
       |cbn [songs]; rewrite lookup_insert_eq; eauto]).
Qed.

(** The background task writes [generating], and then one status. *)
Lemma generateSongInBackground_writes songId params song w :
  songs w !! songId = Some song ->
  exists w' s,
    generateSongInBackground env songId params w = (Ok tt, w')
    /\ s <> Song.pending
    /\ status_writes songId (events w')
       = status_writes songId (events w) ++ [Song.generating; s].
Proof.
  intros Hsong. unfold generateSongInBackground, catch.
  unfold bindM at 1. rewrite (updateSong_run _ _ _ _ _ Hsong).
  set (w1 := {| songs := _; generation_logs := _; events := _ |}).
  assert (songs w1 !! songId = Some (Song.apply (set_status Song.generating None) song))
    as Hsong1 by apply lookup_insert_eq.
  unfold bindM at 1. unfold safeApiCall, catch.
  match goal with
  | |- context [generateCompleteSong env ?p w1] =>
      destruct (generateCompleteSong_run env p w1) as (result & w2 & -> & Hout)
  end.
  destruct (outside_status_writes
              (fun e => is_generate_content e \/ is_create_request e) songId w1 w2)
    as (Hs2 & Hw2); [intros e He Hu; destruct e; cbn in *; tauto|exact Hout|].
  unfold bindM at 1.
  destruct (log_quietly_run env
              (log_entry songId "music_generation_started" "success" None) w2)
    as (w3 & -> & Hs3 & He3).
  assert (songs w3 !! songId = Some (Song.apply (set_status Song.generating None) song))
    as Hsong3 by (by rewrite Hs3, Hs2).
  unfold bindM. rewrite (updateSong_run _ _ _ _ _ Hsong3).
  set (w4 := {| songs := _; generation_logs := _; events := _ |}).
  destruct (pollSongCompletion_writes songId (AiMusic.task_id result)
              (Song.apply (task_info params result)
                 (Song.apply (set_status Song.generating None) song)) w4)
    as (r & w5 & s & Hp & Hne & Hw5 & _); [apply lookup_insert_eq|].
  exists w5, s. unfold detached. rewrite Hp. split; [done|]. split; [done|].
  rewrite Hw5. unfold w4. cbn [events].
  rewrite status_writes_app, status_writes_update. cbn [task_info Song.p_status].
  rewrite app_nil_r, He3, Hw2. unfold w1. cbn [events].
  rewrite status_writes_app, status_writes_update. cbn [set_status Song.p_status].
  by rewrite <- app_assoc.
Qed.
End WithEnv.

(** *** The manual check *)

Global Instance retry_step_preorder songId : PreOrder (retry_step songId).
Proof.
  split.
  - intros w. split; [reflexivity|]. split; [done|]. intros song H. eauto 6.
  - intros w1 w2 w3 (G1 & O1 & S1) (G2 & O2 & S2).
    split; [by etrans|]. split.
    + intros id Hid. by rewrite O2, O1.
    + intros song H. destruct (S1 _ H) as (s2 & H2 & T2 & U2 & St2).
      destruct (S2 _ H2) as (s3 & H3 & T3 & U3 & St3).
      exists s3. split; [done|]. split; [congruence|]. split; [congruence|].
      destruct St3 as [->|]; [done|by right].
Qed.

Lemma outside_retry_step (P : Event -> Prop) songId w w' :
  (forall e, P e -> ~ is_create_request e) ->
  outside P w w' -> retry_step songId w w'.
Proof.
  intros HP (Hs & _ & Hg). split; [by eapply grows_weaken|].
  rewrite Hs. split; [done|]. intros song H. eauto 6.
Qed.

Ltac footprint_step :=
  lazymatch goal with
  | |- respects _ (ret _) => apply respects_ret; apply _
  | |- respects _ (throw _) => apply respects_throw; apply _
  | |- respects _ (lift _) => apply respects_lift; apply _
  | |- respects _ (bindM _ _) => apply respects_bind; [apply _| |intros ?]
  | |- respects _ (catch _ _) => apply respects_catch; [apply _| |intros ?]
  | |- respects _ (if ?b then _ else _) => destruct b
  | |- respects _ (match ?x with _ => _ end) => destruct x
  end.

Section Retry.
Variable env : Env.
Variable songId : str.

Lemma updateSong_retry_step updates :
  Song.p_task_id updates = None ->
  (forall s, Song.p_status updates = Some s -> s <> Song.pending) ->
  respects (retry_step songId) (updateSong env songId updates).
Proof.
  intros Ht Hst w r w'. unfold updateSong.
  destruct (songs w !! songId) as [song|] eqn:Hsong.
  2:{ intros [= _ <-]. reflexivity. }
  intros [= _ <-]. split; [|split]; cbn [songs events].
  - exists [SongUpdate songId updates]. split; [done|].
    constructor; [|done]. by intros [].
  - intros id Hid. by rewrite lookup_insert_ne.
  - intros song0 H0. rewrite Hsong in H0. injection H0 as <-.
    rewrite lookup_insert_eq. eexists. split; [reflexivity|].
    cbn [Song.apply Song.task_id Song.clerk_user_id Song.status].
    rewrite Ht. cbn [Song.or_keep_opt]. split; [done|]. split; [done|].
    destruct (Song.p_status updates) as [s|] eqn:Hs; cbn [Song.or_keep].
    + right. by apply Hst.
    + by left.
Qed.

Lemma set_status_retry_step s error_message :
  s <> Song.pending ->
  respects (retry_step songId) (updateSong env songId (set_status s error_message)).
Proof.
  intros Hs. apply updateSong_retry_step; [done|].
  cbn. by intros s' [= <-].
Qed.

Lemma completed_from_retry_step clip now :
  respects (retry_step songId) (updateSong env songId (completed_from clip now)).
Proof. apply updateSong_retry_step; [done|]. cbn. by intros s' [= <-]. Qed.

Lemma log_quietly_retry_step logData :
  respects (retry_step songId) (log_quietly env logData).
Proof.
  intros w r w' E.
  destruct (log_quietly_run env logData w) as (w1 & E1 & Hs & He).
  rewrite E1 in E. injection E as _ <-.
  split; [|split].
  - exists []. by rewrite app_nil_r.
  - by rewrite Hs.
  - rewrite Hs. intros song H. eauto 6.
Qed.

Lemma fetch_result_run taskId w :
  exists r, fetch_result env taskId w = (r, add_event w (StatusRequest taskId)).
Proof.
  cbv [fetch_result bindM emit lift throw ret].
  destruct (task_endpoint env taskId (status_requests w)) as [e|status text json];
    [by eexists|].
  destruct (status =? 202)%Z; [destruct json; by eexists|].
  destruct (ok_status status); [destruct json; by eexists|by eexists].
Qed.

Lemma fetch_result_retry_step taskId :
  respects (retry_step songId) (fetch_result env taskId).
Proof.
  intros w r w' E. destruct (fetch_result_run taskId w) as (r1 & E1).
  rewrite E1 in E. injection E as _ <-.
  apply (outside_retry_step poll_event); [intros e He Hc; by destruct e|].
  by apply outside_add_event.
Qed.

Lemma getSongById_retry_step id :
  respects (retry_step songId) (getSongById id).
Proof. intros w r w' [= _ <-]. reflexivity. Qed.

(** The manual check stays within [retry_step]. *)
Lemma POST_retry_step userId :
  respects (retry_step songId) (RetryRoute.POST env userId songId).
Proof.
  unfold RetryRoute.POST, check_task.
  repeat first
    [ apply getSongById_retry_step
    | apply fetch_result_retry_step
    | apply log_quietly_retry_step
    | apply completed_from_retry_step
    | apply set_status_retry_step; discriminate
    | footprint_step ].
Qed.

Lemma POST_safe userId : safe (RetryRoute.POST env userId songId).
Proof. apply safe_catch. intros e. apply safe_ret. Qed.

(** A completed song is refused, and nothing is done. *)
Lemma POST_completed userId song w :
  songs w !! songId = Some song ->
  Song.status song = Song.completed ->
  exists reply,
    RetryRoute.POST env userId songId w = (Ok reply, w)
    /\ http_status reply <> 200%Z.
Proof.
  intros Hsong Hst. unfold RetryRoute.POST, catch.
  destruct (negb (truthy userId)); [by eexists|].
  destruct (database_error env); [by eexists|].
  unfold bindM, getSongById. rewrite Hsong.
  destruct (negb (bool_decide _)); [by eexists|].
  destruct (negb (truthy _)); [by eexists|].
  rewrite Hst. by eexists.
Qed.
End Retry.

(** What the manual check writes, read off the answer of the service. *)
Lemma POST_status_written env songId userId song w :
  database_error env = None ->
  songs w !! songId = Some song ->
  Song.clerk_user_id song = userId ->
  userId <> [] ->
  truthy (Song.task_id song) = true ->
  Song.status song <> Song.completed ->
  exists reply w' updates s,
    RetryRoute.POST env (Some userId) songId w = (Ok reply, w')
    /\ events w' = events w ++ [ StatusRequest (default [] (Song.task_id song));
                                 SongUpdate songId updates ]
    /\ songs w' = <[songId := Song.apply updates song]> (songs w)
    /\ Song.p_status updates = Some s
    /\ Song.p_task_id updates = None
    /\ (s = Song.completed <->
        exists r clips clip,
          outcome_at env (default [] (Song.task_id song)) (status_requests w) = Ok r
          /\ code r <> 202%Z /\ data r = DataArray clips
          /\ find (state_is "succeeded") clips = Some clip)
    /\ (s = Song.failed <->
        exists r clips,
          outcome_at env (default [] (Song.task_id song)) (status_requests w) = Ok r
          /\ code r <> 202%Z /\ data r = DataArray clips
          /\ find (state_is "succeeded") clips = None
          /\ existsb (state_is "failed") clips = true)
    /\ (s = Song.completed \/ s = Song.failed \/ s = Song.generating).
Proof.
  intros Hdb Hsong Howner Huser Htask Hstatus.
  destruct (POST_checked env songId userId song w Hdb Hsong Howner Huser Htask Hstatus)
    as (reply & w' & updates & Hrun & Hev & Hs & _ & _ & Hgood & Hbad
        & Hcompleted & Hfailed & Hcases & _).
  assert (exists s, Song.p_status updates = Some s
                    /\ (s = Song.completed \/ s = Song.failed \/ s = Song.generating))
    as (s & Hst & Hs3).
  { destruct Hcases as [H|[H|(msg & ->)]].
    - exists Song.completed. auto.
    - exists Song.failed. auto.
    - exists Song.generating. split; [reflexivity|auto]. }
  exists reply, w', updates, s. split; [done|]. split; [done|]. split; [done|].
  split; [done|].
  assert (s = Song.completed ->
          exists r clips clip,
            outcome_at env (default [] (Song.task_id song)) (status_requests w) = Ok r
            /\ code r <> 202%Z /\ data r = DataArray clips
            /\ find (state_is "succeeded") clips = Some clip) as Hc1.
  { intros ->. by apply Hcompleted. }
  assert (s = Song.failed ->
          exists r clips,
            outcome_at env (default [] (Song.task_id song)) (status_requests w) = Ok r
            /\ code r <> 202%Z /\ data r = DataArray clips
            /\ find (state_is "succeeded") clips = None
            /\ existsb (state_is "failed") clips = true) as Hf1.
  { intros ->. by apply Hfailed. }
  split; [|split; [|split; [|done]]].
  - destruct Hs3 as [-> | [-> | ->]].
    + destruct (Hc1 eq_refl) as (r & clips & clip & Hr & Hc & Hd & Hfind).
      by rewrite (Hgood r clips clip Hr Hc Hd Hfind).
    + destruct (Hf1 eq_refl) as (r & clips & Hr & Hc & Hd & Hnone & Hex).
      by rewrite (Hbad r clips Hr Hc Hd Hnone Hex).
    + destruct Hcases as [H|[H|(msg & ->)]]; [congruence|congruence|done].
  - split; [done|]. intros (r & clips & clip & Hr & Hc & Hd & Hfind).
    rewrite (Hgood r clips clip Hr Hc Hd Hfind) in Hst. cbn in Hst. congruence.
  - split; [done|]. intros (r & clips & Hr & Hc & Hd & Hnone & Hex).
    rewrite (Hbad r clips Hr Hc Hd Hnone Hex) in Hst. cbn in Hst. congruence.
Qed.

(** C2, as far as the code goes.  The background task writes the status
    [generating] and then one more status, never [pending], and nothing after
    it.  The manual check never throws, sends no creation request, leaves the
    task identifier of the song and the other songs as they are, and never
    sets [pending]; a [completed] song it refuses without writing anything.
    For the owner of any other song that has a task identifier, [failed] or
    not, it asks the service once for the task and writes one update, which
    sets the status and leaves the task identifier alone: [completed]
    exactly when the answer has a code other than 202 and holds a succeeded
    clip, [failed] exactly when such an answer holds no succeeded clip and
    holds a failed one, and [generating] in every other case. *)
Theorem status_transitions (env : Env) (songId : str) :
  (forall params song w,
      songs w !! songId = Some song ->
      exists w' s,
        generateSongInBackground env songId params w = (Ok tt, w')
        /\ s <> Song.pending
        /\ status_writes songId (events w')
           = status_writes songId (events w) ++ [Song.generating; s])
  /\ (forall userId w,
        exists reply w',
          RetryRoute.POST env userId songId w = (Ok reply, w')
          /\ retry_step songId w w'
          /\ (forall song,
                songs w !! songId = Some song ->
                Song.status song = Song.completed ->
                w' = w /\ http_status reply <> 200%Z))
  /\ (forall userId song w,
        database_error env = None ->
        songs w !! songId = Some song ->
        Song.clerk_user_id song = userId ->
        userId <> [] ->
        truthy (Song.task_id song) = true ->
        Song.status song <> Song.completed ->
        exists reply w' updates s,
          RetryRoute.POST env (Some userId) songId w = (Ok reply, w')
          /\ events w' = events w ++ [ StatusRequest (default [] (Song.task_id song));
                                       SongUpdate songId updates ]
          /\ songs w' = <[songId := Song.apply updates song]> (songs w)
          /\ Song.p_status updates = Some s
          /\ Song.p_task_id updates = None
          /\ (s = Song.completed <->
              exists r clips clip,
                outcome_at env (default [] (Song.task_id song)) (status_requests w)
                = Ok r
                /\ code r <> 202%Z /\ data r = DataArray clips
                /\ find (state_is "succeeded") clips = Some clip)
          /\ (s = Song.failed <->
              exists r clips,
                outcome_at env (default [] (Song.task_id song)) (status_requests w)
                = Ok r
                /\ code r <> 202%Z /\ data r = DataArray clips
                /\ find (state_is "succeeded") clips = None
                /\ existsb (state_is "failed") clips = true)
          /\ (s = Song.completed \/ s = Song.failed \/ s = Song.generating)).
Proof.
  split; [|split].
  - intros params song w Hsong. by apply (generateSongInBackground_writes env songId params song).
  - intros userId w.
    destruct (POST_safe env songId userId w) as (reply & w' & E).
    exists reply, w'. split; [done|]. split; [by eapply POST_retry_step|].
    intros song Hsong Hst.
    destruct (POST_completed env songId userId song w Hsong Hst) as (reply' & E' & Hh).
    rewrite E' in E. by injection E as <- <-.
  - intros userId song w. apply POST_status_written.
Qed.

Lemma status_transitions_witness :
  exists w' s,
    generateSongInBackground (outage always_down) (utf16 "song-1")
      {| GenerateRoute.title := utf16 "Barsaat";
         GenerateRoute.theme := utf16 "rain in the city";
         GenerateRoute.styles := [];
         GenerateRoute.customLyrics := None |}
      (one_song Song.pending) = (Ok tt, w')
    /\ status_writes (utf16 "song-1") (events w') = [Song.generating; s].
Proof.
  destruct (proj1 (status_transitions (outage always_down) (utf16 "song-1"))
              {| GenerateRoute.title := utf16 "Barsaat";
                 GenerateRoute.theme := utf16 "rain in the city";
                 GenerateRoute.styles := [];
                 GenerateRoute.customLyrics := None |}
              (a_song Song.pending) (one_song Song.pending))
    as (w' & s & E & _ & Hw).
  - vm_compute. reflexivity.
  - exists w', s. split; [exact E|exact Hw].
Defined.

(** C2 as stated fails: a [failed] song that has a task identifier is not
    refused, and an answer [202] to the manual check sets it back to
    [generating]. *)
Lemma retry_reopens_failed_song :
  exists reply w' song',
    RetryRoute.POST (outage always_not_ready) (Some (utf16 "user_1")) (utf16 "song-1")
                    (one_song Song.failed) = (Ok reply, w')
    /\ Song.terminal (Song.status (a_song Song.failed)) = true
    /\ songs w' !! utf16 "song-1" = Some song'
    /\ Song.status song' = Song.generating.
Proof.
  eexists _, _, _. split; [vm_compute; reflexivity|].
  split; [reflexivity|]. split; [vm_compute; reflexivity|]. reflexivity.
Qed.

End StatusFacts.

(** * Further properties *)

(** ** The cleanup pass only deletes *)

Module CleanupFacts.
Import StrFacts Gemini GeminiFacts.

Lemma prefix_is_sublist (u v : str) : u `prefix_of` v -> u `sublist_of` v.
Proof. intros [k ->]. by apply sublist_inserts_r. Qed.

Lemma trimStart_sublist s : trimStart s `sublist_of` s.
Proof.
  destruct (trimStart_suffix s) as [k Hk]. rewrite Hk at 2.
  by apply sublist_inserts_l.
Qed.

Lemma trim_sublist s : trim s `sublist_of` s.
Proof.
  unfold trim. etrans; [apply prefix_is_sublist, trimEnd_prefix|].
  apply trimStart_sublist.
Qed.

Lemma remove_all_go_sublist m k s : remove_all_go m k s `sublist_of` s.
Proof.
  revert k. induction s as [|c t IH]; intros k; [done|]. simpl.
  destruct k as [|k]; [|by apply sublist_cons].
  destruct (m (c :: t)) as [[|n]|];
    [by apply sublist_skip|by apply sublist_cons|by apply sublist_skip].
Qed.

Lemma replace_pattern_sublist p s : replace_pattern p s `sublist_of` s.
Proof.
  destruct p; simpl; [apply remove_all_go_sublist..|].
  apply prefix_is_sublist, cut_at_prefix.
Qed.

Lemma run_patterns_sublist ps s : run_patterns ps s `sublist_of` s.
Proof.
  revert s. induction ps as [|p ps IH]; intros s; [done|].
  unfold run_patterns in *. simpl. etrans; [apply IH|].
  apply replace_pattern_sublist.
Qed.

(** What [trim] leaves neither begins nor ends with white space. *)
Lemma trimStart_no_space s c : head (trimStart s) = Some c -> is_space c = false.
Proof.
  induction s as [|d s IH]; [done|]. simpl.
  destruct (is_space d) eqn:E; [done|]. by intros [= <-].
Qed.

Lemma trim_head s c : head (trim s) = Some c -> is_space c = false.
Proof.
  unfold trim. intros H.
  destruct (trimEnd_prefix (trimStart s)) as [k Hk].
  destruct (trimEnd (trimStart s)) as [|d u]; [done|].
  injection H as ->. apply (trimStart_no_space s). by rewrite Hk.
Qed.

Lemma trim_last s c : last (trim s) = Some c -> is_space c = false.
Proof.
  unfold trim, trimEnd. intros H. apply (trimStart_no_space (rev (trimStart s))).
  destruct (trimStart (rev (trimStart s))) as [|d u]; [done|].
  simpl in H. by rewrite last_snoc in H.
Qed.

(** X1: [cleanLyricsResponse] only deletes: its result is what is left of
    the response once some code units are taken out, in the order of the
    response, and it neither begins nor ends with white space. *)
Theorem cleanLyricsResponse_only_deletes (raw : str) :
  cleanLyricsResponse raw `sublist_of` raw
  /\ length (cleanLyricsResponse raw) <= length raw
  /\ (forall c, head (cleanLyricsResponse raw) = Some c -> is_space c = false)
  /\ (forall c, last (cleanLyricsResponse raw) = Some c -> is_space c = false).
Proof.
  assert (cleanLyricsResponse raw `sublist_of` raw) as Hsub.
  { rewrite cleanLyricsResponse_unfold.
    etrans; [apply trim_sublist|].
    etrans; [apply prefix_is_sublist, cut_last_section_prefix|].
    etrans; [apply run_patterns_sublist|].
    etrans; [|apply trim_sublist].
    destruct (search section_start (trim raw)); [apply sublist_drop|done]. }
  split; [exact Hsub|]. split; [by apply sublist_length|].
  split; intros c; unfold cleanLyricsResponse; [apply trim_head|apply trim_last].
Qed.

End CleanupFacts.

From Stdlib Require Import Qpower.

(** ** The polling loop, turn by turn *)

Module PollTraceFacts.
Import Effects Footprint EffectFacts AiMusic PollAnswers PollTrace PollFacts Samples.

Lemma status_requests_add_events w new :
  status_requests (add_events w new) = status_requests w + requests new.
Proof.
  unfold status_requests, requests, add_events. simpl.
  by rewrite List.filter_app, length_app.
Qed.

Lemma add_events_app w l l' : add_events (add_events w l) l' = add_events w (l ++ l').
Proof. unfold add_events. simpl. by rewrite app_assoc. Qed.

Lemma add_events_nil w : add_events w [] = w.
Proof. destruct w. unfold add_events. simpl. by rewrite app_nil_r. Qed.

Lemma requests_app l l' : requests (l ++ l') = requests l + requests l'.
Proof. unfold requests. by rewrite List.filter_app, length_app. Qed.

Lemma delays_app l l' : delays (l ++ l') = delays l ++ delays l'.
Proof. apply flat_map_app. Qed.

Lemma requests_waiting_events taskId intervalMs n :
  requests (waiting_events taskId intervalMs n) = n.
Proof.
  destruct n as [|m]; [done|]. unfold waiting_events, requests.
  rewrite List.filter_app, length_app. simpl.
  induction m as [|m IH]; [done|]. simpl in *. lia.
Qed.

Lemma delays_waiting_events taskId intervalMs n :
  delays (waiting_events taskId intervalMs n) = repeat (inject_Z intervalMs) (n - 1).
Proof.
  destruct n as [|m]; [done|]. unfold waiting_events, delays.
  rewrite flat_map_app, app_nil_r, Nat.sub_succ, Nat.sub_0_r.
  induction m as [|m IH]; [done|]. simpl in *. by rewrite IH.
Qed.

Section WithEnv.
Variable env : Env.
Variables (taskId : str) (maxAttempts intervalMs : Z).

(** A turn sends one request; it waits when its outcome lets the loop go on
    and another attempt is left. *)
Lemma poll_turn_run attempt lastError w :
  poll_turn env taskId maxAttempts intervalMs attempt lastError w
  = (Ok (turn_result (outcome_at env taskId (status_requests w)) lastError),
     add_events w (turn_events taskId maxAttempts intervalMs attempt
                     (outcome_at env taskId (status_requests w)))).
Proof.
  cbv [poll_turn catch poll_attempt]. unfold bindM at 1 2.
  rewrite getTaskStatus_run. unfold outcome_at.
  destruct (getTaskStatus_outcome _) as [r|e];
    cbv [turn_events turn_result goes_on keeps_polling remembered turn_delay
         wait_before_next_poll when sleep emit bindM ret add_event add_events].
  - destruct (code r =? 202)%Z; simpl.
    { destruct (attempt <? maxAttempts - 1)%Z; simpl; by rewrite <- ?app_assoc. }
    destruct (data r) as [clips|].
    2:{ destruct (attempt <? maxAttempts - 1)%Z; simpl; by rewrite <- ?app_assoc. }
    destruct (existsb (state_is "succeeded") clips || existsb (state_is "failed") clips);
      simpl; [done|].
    destruct (forallb _ clips); simpl; [|done].
    destruct (attempt <? maxAttempts - 1)%Z; simpl; by rewrite <- ?app_assoc.
  - simpl. destruct (attempt <? maxAttempts - 1)%Z; simpl; by rewrite <- ?app_assoc.
Qed.


(** While the outcomes let it go on, the loop runs out of attempts, one
    request for each, and remembers the last thrown value. *)
Lemma poll_loop_goes_on remaining :
  forall attempt lastError w,
    (forall i, i < remaining ->
               goes_on (outcome_at env taskId (status_requests w + i)) = true) ->
    exists w',
      poll_loop env taskId maxAttempts intervalMs remaining attempt lastError w
      = (Ok (Exhausted (remembered_after (outcome_at env taskId) (status_requests w)
                          remaining lastError)), w')
      /\ status_requests w' = status_requests w + remaining.
Proof.
  induction remaining as [|n IH]; intros attempt lastError w Hgo.
  - exists w. split; [done|lia].
  - cbn [poll_loop remembered_after]. unfold bindM at 1. rewrite poll_turn_run.
    pose proof (Hgo 0 ltac:(lia)) as H0. rewrite Nat.add_0_r in H0.
    set (o := outcome_at env taskId (status_requests w)) in *.
    set (w1 := add_events w _).
    assert (status_requests w1 = S (status_requests w)) as Hn.
    { unfold w1. rewrite status_requests_add_events. unfold turn_events, requests.
      destruct (_ && _); simpl; lia. }
    assert (turn_result o lastError = inr (remembered o lastError)) as ->.
    { unfold turn_result, remembered. destruct o as [r|e]; [|done].
      simpl in H0. by rewrite H0. }
    destruct (IH (attempt + 1)%Z (remembered o lastError) w1) as (w' & E & Hn').
    + intros i Hi. rewrite Hn.
      replace (S (status_requests w) + i) with (status_requests w + S i) by lia.
      apply Hgo. lia.
    + exists w'. rewrite Hn in E, Hn'. split; [exact E|lia].
Qed.

(** The first outcome that does not let the loop go on is returned. *)
Lemma poll_loop_returns k :
  forall remaining attempt lastError w r,
    (forall i, i < k ->
               goes_on (outcome_at env taskId (status_requests w + i)) = true) ->
    outcome_at env taskId (status_requests w + k) = Ok r ->
    keeps_polling r = false ->
    k < remaining ->
    exists w',
      poll_loop env taskId maxAttempts intervalMs remaining attempt lastError w
      = (Ok (Returned r), w')
      /\ status_requests w' = status_requests w + S k.
Proof.
  induction k as [|k IH]; intros remaining attempt lastError w r Hgo Hr Hk Hlt;
    (destruct remaining as [|n]; [lia|]);
    cbn [poll_loop]; unfold bindM at 1; rewrite poll_turn_run.
  - rewrite Nat.add_0_r in Hr. rewrite Hr. cbn [turn_result]. rewrite Hk.
    eexists. split; [reflexivity|].
    rewrite status_requests_add_events. unfold turn_events, requests, goes_on.
    rewrite Hk. simpl. lia.
  - pose proof (Hgo 0 ltac:(lia)) as H0. rewrite Nat.add_0_r in H0.
    set (o := outcome_at env taskId (status_requests w)) in *.
    set (w1 := add_events w _).
    assert (status_requests w1 = S (status_requests w)) as Hn.
    { unfold w1. rewrite status_requests_add_events. unfold turn_events, requests.
      destruct (_ && _); simpl; lia. }
    assert (turn_result o lastError = inr (remembered o lastError)) as ->.
    { unfold turn_result, remembered. destruct o as [r0|e]; [|done].
      simpl in H0. by rewrite H0. }
    destruct (IH n (attempt + 1)%Z (remembered o lastError) w1 r) as (w' & E & Hn');
      try done; try lia.
    + intros i Hi. rewrite Hn.
      replace (S (status_requests w) + i) with (status_requests w + S i) by lia.
      apply Hgo. lia.
    + rewrite Hn.
      by replace (S (status_requests w) + k) with (status_requests w + S k) by lia.
    + exists w'. split; [exact E|lia].
Qed.


Lemma backoffDelay_cap attempt : (backoffDelay intervalMs attempt <= 120000 # 1)%Q.
Proof. unfold backoffDelay. apply Q.le_min_r. Qed.

Lemma turn_delay_bound attempt o :
  (turn_delay intervalMs attempt o <= Qmax (inject_Z intervalMs) (120000 # 1))%Q.
Proof.
  destruct o as [r|e]; simpl.
  - apply Q.le_max_l.
  - eapply Qle_trans; [apply backoffDelay_cap|apply Q.le_max_r].
Qed.

(** What the loop may send and how long it may wait. *)
Lemma poll_loop_budget remaining :
  forall attempt lastError w r w',
    (attempt + Z.of_nat remaining = maxAttempts)%Z \/ remaining = 0 ->
    poll_loop env taskId maxAttempts intervalMs remaining attempt lastError w = (r, w') ->
    exists new,
      w' = add_events w new
      /\ requests new <= remaining
      /\ length (delays new) <= remaining - 1
      /\ Forall (fun ms => (ms <= Qmax (inject_Z intervalMs) (120000 # 1))%Q) (delays new).
Proof.
  induction remaining as [|n IH]; intros attempt lastError w r w' Hinv.
  - intros [= _ <-]. exists []. rewrite add_events_nil. by repeat split.
  - destruct Hinv as [Hinv|]; [|done].
    cbn [poll_loop]. unfold bindM at 1. rewrite poll_turn_run.
    set (o := outcome_at env taskId (status_requests w)).
    assert (requests (turn_events taskId maxAttempts intervalMs attempt o) = 1
            /\ length (delays (turn_events taskId maxAttempts intervalMs attempt o))
               <= (if goes_on o then 1 else 0)
            /\ (n = 0 -> delays (turn_events taskId maxAttempts intervalMs attempt o) = [])
            /\ Forall (fun ms => (ms <= Qmax (inject_Z intervalMs) (120000 # 1))%Q)
                 (delays (turn_events taskId maxAttempts intervalMs attempt o)))
      as (Hreq & Hlen & Hlast & Hbound).
    { unfold turn_events, requests.
      destruct (goes_on o); simpl; [|by repeat split].
      destruct (Z.ltb_spec attempt (maxAttempts - 1)); simpl.
      - repeat split; [lia|lia|]. constructor; [apply turn_delay_bound|done].
      - repeat split; [lia|]. done. }
    destruct (turn_result o lastError) as [result|le] eqn:Hturn.
    + intros [= _ <-]. eexists. split; [reflexivity|].
      assert (goes_on o = false) as Hgo.
      { unfold turn_result in Hturn. destruct o as [r0|e]; [|done].
        simpl. by destruct (keeps_polling r0). }
      rewrite Hgo in Hlen. repeat split; [lia|lia|done].
    + intros E. apply IH in E as (new & -> & Hr' & Hl' & Hb'); [|left; lia].
      exists (turn_events taskId maxAttempts intervalMs attempt o ++ new).
      rewrite add_events_app. split; [done|].
      unfold requests in *. unfold delays in *.
      rewrite List.filter_app, flat_map_app, !length_app.
      repeat split; [lia| |by apply Forall_app].
      destruct n as [|n]; [rewrite (Hlast eq_refl); simpl; lia|].
      destruct (goes_on o); lia.
Qed.


(** A run of turns whose answers all keep the loop polling. *)
Lemma poll_loop_waiting remaining :
  forall attempt lastError w,
    (attempt + Z.of_nat remaining = maxAttempts)%Z ->
    (forall i, i < remaining ->
               exists r, outcome_at env taskId (status_requests w + i) = Ok r
                         /\ keeps_polling r = true) ->
    poll_loop env taskId maxAttempts intervalMs remaining attempt lastError w
    = (Ok (Exhausted lastError), add_events w (waiting_events taskId intervalMs remaining)).
Proof.
  induction remaining as [|n IH]; intros attempt lastError w Hinv Hall.
  - simpl. by rewrite add_events_nil.
  - cbn [poll_loop]. unfold bindM at 1. rewrite poll_turn_run.
    destruct (Hall 0 ltac:(lia)) as (r0 & H0 & Hk0). rewrite Nat.add_0_r in H0.
    rewrite H0. unfold turn_result, turn_events, goes_on, turn_delay. rewrite Hk0.
    cbn [andb].
    destruct n as [|n].
    + rewrite (proj2 (Z.ltb_ge attempt (maxAttempts - 1))) by lia. simpl. reflexivity.
    + rewrite (proj2 (Z.ltb_lt attempt (maxAttempts - 1))) by lia.
      set (w1 := add_events w _).
      assert (status_requests w1 = S (status_requests w)) as Hn.
      { unfold w1. rewrite status_requests_add_events. unfold requests. simpl. lia. }
      rewrite (IH (attempt + 1)%Z lastError w1); [|lia|].
      * unfold w1. rewrite add_events_app. reflexivity.
      * intros i Hi. rewrite Hn.
        replace (S (status_requests w) + i) with (status_requests w + S i) by lia.
        apply Hall. lia.
Qed.

Lemma remembered_after_some outcomes first count lastError :
  lastError <> None \/ (exists i e, i < count /\ outcomes (first + i) = Throw e) ->
  remembered_after outcomes first count lastError <> None.
Proof.
  revert first lastError. induction count as [|n IH]; intros first lastError H; simpl.
  - destruct H as [H|(i & e & Hi & _)]; [done|lia].
  - apply IH. destruct H as [H|(i & e & Hi & He)].
    + left. by destruct (outcomes first).
    + destruct i as [|i].
      * left. rewrite Nat.add_0_r in He. by rewrite He.
      * right. exists i, e. split; [lia|].
        by replace (S first + i) with (first + S i) by lia.
Qed.

(** *** [pollTaskCompletion] as a whole *)

Lemma pollTaskCompletion_decided w k r :
  startsWith (utf16 "mock_") taskId = false ->
  k < Z.to_nat maxAttempts ->
  (forall i, i < k ->
             goes_on (outcome_at env taskId (status_requests w + i)) = true) ->
  outcome_at env taskId (status_requests w + k) = Ok r ->
  keeps_polling r = false ->
  exists w1,
    pollTaskCompletion env (Some taskId) maxAttempts intervalMs w = (Ok r, w1)
    /\ songs w1 = songs w
    /\ status_requests w1 = status_requests w + S k.
Proof.
  intros Hmock Hk Hgo Hr Hkeep.
  destruct (poll_loop_returns k (Z.to_nat maxAttempts) 0 None w r Hgo Hr Hkeep Hk)
    as (w1 & E & Hn).
  assert (pollTaskCompletion env (Some taskId) maxAttempts intervalMs w = (Ok r, w1)) as Hp.
  { unfold pollTaskCompletion. rewrite Hmock. unfold bindM. by rewrite E. }
  exists w1. split; [exact Hp|]. split; [|exact Hn].
  by destruct (pollTaskCompletion_outside env taskId maxAttempts intervalMs _ _ _ Hp)
    as (Hs & _).
Qed.

Lemma pollTaskCompletion_gives_up w :
  startsWith (utf16 "mock_") taskId = false ->
  (forall i, i < Z.to_nat maxAttempts ->
             goes_on (outcome_at env taskId (status_requests w + i)) = true) ->
  (exists i e, i < Z.to_nat maxAttempts
               /\ outcome_at env taskId (status_requests w + i) = Throw e) ->
  exists e w1,
    remembered_after (outcome_at env taskId) (status_requests w)
                     (Z.to_nat maxAttempts) None = Some e
    /\ pollTaskCompletion env (Some taskId) maxAttempts intervalMs w
       = (Ok {| code := 500; data := DataArray [];
                message := utf16 "Polling failed: " ++ Js.message e |}, w1)
    /\ songs w1 = songs w
    /\ status_requests w1 = status_requests w + Z.to_nat maxAttempts.
Proof.
  intros Hmock Hgo Hthrow.
  destruct (poll_loop_goes_on (Z.to_nat maxAttempts) 0 None w Hgo) as (w1 & E & Hn).
  destruct (remembered_after (outcome_at env taskId) (status_requests w)
              (Z.to_nat maxAttempts) None) as [e|] eqn:Hrem.
  2:{ exfalso. revert Hrem. apply remembered_after_some. by right. }
  exists e, w1. split; [done|].
  assert (pollTaskCompletion env (Some taskId) maxAttempts intervalMs w
          = (Ok {| code := 500; data := DataArray [];
                   message := utf16 "Polling failed: " ++ Js.message e |}, w1)) as Hp.
  { unfold pollTaskCompletion. rewrite Hmock. unfold bindM. by rewrite E. }
  split; [exact Hp|]. split; [|exact Hn].
  by destruct (pollTaskCompletion_outside env taskId maxAttempts intervalMs _ _ _ Hp)
    as (Hs & _).
Qed.

Lemma pollTaskCompletion_waits_in_vain w :
  startsWith (utf16 "mock_") taskId = false ->
  (0 <= maxAttempts)%Z ->
  (forall i, i <= Z.to_nat maxAttempts ->
             exists r, outcome_at env taskId (status_requests w + i) = Ok r
                       /\ keeps_polling r = true) ->
  exists r,
    outcome_at env taskId (status_requests w + Z.to_nat maxAttempts) = Ok r
    /\ pollTaskCompletion env (Some taskId) maxAttempts intervalMs w
       = (Ok r, add_events w (waiting_events taskId intervalMs (Z.to_nat maxAttempts)
                               ++ [StatusRequest taskId])).
Proof.
  intros Hmock Hpos Hall.
  destruct (Hall (Z.to_nat maxAttempts) ltac:(lia)) as (r & Hr & _).
  exists r. split; [exact Hr|].
  unfold pollTaskCompletion. rewrite Hmock. unfold bindM.
  rewrite poll_loop_waiting; [|lia|intros i Hi; apply Hall; lia].
  unfold catch. rewrite getTaskStatus_run.
  assert (status_requests (add_events w (waiting_events taskId intervalMs
                                           (Z.to_nat maxAttempts)))
          = status_requests w + Z.to_nat maxAttempts) as ->.
  { by rewrite status_requests_add_events, requests_waiting_events. }
  fold (outcome_at env taskId (status_requests w + Z.to_nat maxAttempts)).
  rewrite Hr. unfold add_event, add_events. simpl. by rewrite <- app_assoc.
Qed.

End WithEnv.

(** X2: [pollTaskCompletion] on a task that is no mock sends at most one
    status request per attempt and one more for the last check, waits at
    most once between two attempts, never longer than the interval or two
    minutes, whichever is larger, and leaves the songs alone. *)
Theorem pollTaskCompletion_budget
    (env : Env) (taskId : str) (maxAttempts intervalMs : Z) (w : World)
    (r : Result SunoTaskResponse) (w' : World) :
  startsWith (utf16 "mock_") taskId = false ->
  pollTaskCompletion env (Some taskId) maxAttempts intervalMs w = (r, w') ->
  exists new,
    events w' = events w ++ new
    /\ songs w' = songs w
    /\ requests new <= Z.to_nat maxAttempts + 1
    /\ length (delays new) <= Z.to_nat maxAttempts - 1
    /\ Forall (fun ms => (ms <= Qmax (inject_Z intervalMs) (120000 # 1))%Q) (delays new).
Proof.
  intros Hmock Hp.
  pose proof (pollTaskCompletion_outside env taskId maxAttempts intervalMs _ _ _ Hp)
    as (Hsongs & _).
  unfold pollTaskCompletion in Hp. rewrite Hmock in Hp. unfold bindM in Hp.
  destruct (poll_loop env taskId maxAttempts intervalMs (Z.to_nat maxAttempts) 0 None w)
    as [fin w1] eqn:E.
  apply poll_loop_budget in E as (new & -> & Hreq & Hlen & Hb);
    [|destruct (Z.le_gt_cases 0 maxAttempts); [left|right]; lia].
  destruct fin as [[result|[e|]]|e]; cbv [ret] in Hp;
    try (injection Hp as _ <-; exists new;
         split; [done|]; split; [done|]; split; [lia|]; split; [lia|done]).
  unfold catch in Hp. rewrite getTaskStatus_run in Hp.
  exists (new ++ [StatusRequest taskId]).
  assert (w' = add_events w (new ++ [StatusRequest taskId])) as ->.
  { destruct (getTaskStatus_outcome _); injection Hp as _ <-;
      unfold add_event, add_events; simpl; by rewrite <- app_assoc. }
  unfold requests, delays in *.
  rewrite List.filter_app, flat_map_app, length_app, app_nil_r. simpl.
  split; [done|]. split; [done|]. split; [lia|]. split; [lia|done].
Qed.

Lemma pollTaskCompletion_budget_witness :
  exists new,
    events (snd (pollTaskCompletion (outage always_not_ready) (Some (utf16 "task-1")) 15 30000
                   (one_song Song.generating))) = new
    /\ requests new <= 16
    /\ length (delays new) <= 14.
Proof.
  destruct (pollTaskCompletion_budget (outage always_not_ready) (utf16 "task-1")
              15 30000 (one_song Song.generating) _ _ eq_refl
              (surjective_pairing _))
    as (new & E & _ & Hreq & Hlen & _).
  exists new. split; [exact E|]. split; [exact Hreq|exact Hlen].
Defined.

(** X3: what stops the polling loop is a response with a success status
    other than 202 whose body parses, has a code other than 202 and an array
    of clips of which one succeeded, failed, or is neither pending nor
    running; a network error, an error status, a body that does not parse
    and a response with status 202 all let the loop go on, the last as an
    answer with code 202 and no clip. *)
Theorem only_a_decisive_body_stops_polling (answer : Fetch TaskJson) :
  (goes_on (getTaskStatus_outcome answer) = false ->
   exists status text body clips,
     answer = Response status text (Ok body)
     /\ ok_status status = true /\ status <> 202%Z
     /\ code (as_task body) <> 202%Z
     /\ data (as_task body) = DataArray clips
     /\ (existsb (state_is "succeeded") clips
         || existsb (state_is "failed") clips
         || negb (forallb (fun clip => state_is "pending" clip || state_is "running" clip)
                          clips)) = true)
  /\ (forall text body,
        exists r,
          getTaskStatus_outcome (Response 202 text (Ok body)) = Ok r
          /\ code r = 202%Z /\ data r = DataArray [] /\ still_waiting r = true).
Proof.
  split.
  - destruct answer as [e|status text json]; [done|]. unfold getTaskStatus_outcome.
    destruct (Z.eqb_spec status 202) as [->|Hne].
    { destruct json; done. }
    destruct (ok_status status) eqn:Hok; [|done]. cbn [negb].
    destruct json as [body|e]; [|done]. cbn [Js.bind goes_on].
    unfold keeps_polling. intros H. apply orb_false_iff in H as [Hc Hd].
    destruct (data (as_task body)) as [clips|] eqn:Hdata; [|done].
    exists status, text, body, clips.
    split; [done|]. split; [done|]. split; [done|]. split; [by apply Z.eqb_neq|].
    split; [done|].
    destruct (existsb (state_is "succeeded") clips || existsb (state_is "failed") clips);
      [done|]. cbn [negb andb orb] in *. by rewrite Hd.
  - intros text body. eexists. split; [reflexivity|]. done.
Qed.

Lemma only_a_decisive_body_stops_polling_witness :
  exists clips,
    data (as_task ready_json) = DataArray clips
    /\ existsb (state_is "succeeded") clips = true.
Proof.
  destruct (proj1 (only_a_decisive_body_stops_polling (Response 200 [] (Ok ready_json))))
    as (status & text & body & clips & Ha & _ & _ & _ & Hd & _).
  - vm_compute. reflexivity.
  - injection Ha as _ _ <-. exists clips. split; [exact Hd|].
    assert (clips = [ready_clip]) as -> by (by injection Hd as <-).
    vm_compute. reflexivity.
Defined.

(** X4: the delay after a failed request never exceeds two minutes;
    for an interval that is not negative it is at least the interval (or
    two minutes, if the interval is longer) and does not shrink from one
    attempt to the next. *)
Theorem backoffDelay_bounds (intervalMs attempt : Z) :
  (backoffDelay intervalMs attempt <= 120000 # 1)%Q
  /\ ((0 <= intervalMs)%Z -> (0 <= attempt)%Z ->
      (Qmin (inject_Z intervalMs) (120000 # 1) <= backoffDelay intervalMs attempt)%Q
      /\ (backoffDelay intervalMs attempt <= backoffDelay intervalMs (attempt + 1))%Q).
Proof.
  split; [apply Q.le_min_r|]. intros Hi Ha. unfold backoffDelay.
  assert (0 <= inject_Z intervalMs)%Q as Hi'.
  { change 0%Q with (inject_Z 0). by rewrite <- Zle_Qle. }
  split; apply Q.min_le_compat_r.
  - rewrite <- (Qmult_1_r (inject_Z intervalMs)) at 1.
    rewrite !(Qmult_comm (inject_Z intervalMs)).
    apply Qmult_le_compat_r; [|done].
    by apply Qpower_1_le.
  - rewrite !(Qmult_comm (inject_Z intervalMs)).
    apply Qmult_le_compat_r; [|done].
    apply Qpower_le_compat_l; [lia|done].
Qed.

Lemma backoffDelay_bounds_witness :
  (30000 # 1 <= backoffDelay 30000 3)%Q
  /\ (backoffDelay 30000 3 <= backoffDelay 30000 4)%Q
  /\ (backoffDelay 30000 4 <= 120000 # 1)%Q.
Proof.
  destruct (backoffDelay_bounds 30000 3) as (_ & H).
  destruct (H ltac:(lia) ltac:(lia)) as (Hlow & Hmono).
  split; [exact Hlow|]. split; [exact Hmono|].
  exact (proj1 (backoffDelay_bounds 30000 4)).
Defined.


End PollTraceFacts.

(** ** How polling settles a song *)

Module SettleFacts.
Import Effects Footprint EffectFacts AiMusic Supabase GenerateRoute.
Import PollAnswers PollTrace PollFacts PollTraceFacts GenerateRouteFacts.
Import Samples MoreSamples.

Lemma keeps_polling_false r :
  keeps_polling r = false ->
  code r <> 202%Z /\ exists clips, data r = DataArray clips.
Proof.
  unfold keeps_polling. intros H. apply orb_false_iff in H as [Hc Hd].
  split; [by apply Z.eqb_neq|]. destruct (data r) as [clips|]; [eauto|done].
Qed.

Lemma still_waiting_keeps_polling r : still_waiting r = true -> keeps_polling r = true.
Proof.
  unfold still_waiting, keeps_polling. destruct (data r); [|done].
  intros ->. apply orb_true_r.
Qed.

Lemma still_waiting_finds r :
  still_waiting r = true ->
  exists clips, data r = DataArray clips
                /\ find (state_is "succeeded") clips = None
                /\ find (state_is "failed") clips = None.
Proof.
  unfold still_waiting. destruct (data r) as [clips|]; [|done].
  intros H. apply andb_true_iff in H as [H _]. apply negb_true_iff in H.
  apply orb_false_iff in H as [Hs Hf]. exists clips.
  by rewrite !find_none_existsb.
Qed.

Section WithEnv.
Variable env : Env.

(** What is written for an array of clips, by cases. *)
Lemma persist_clips songId result clips song w :
  data result = DataArray clips ->
  songs w !! songId = Some song ->
  exists w' updates,
    persist_result env songId result w = (Ok tt, w')
    /\ songs w' = <[songId := Song.apply updates song]> (songs w)
    /\ events w' = events w ++ [SongUpdate songId updates]
    /\ updates
       = match find (state_is "succeeded") clips with
         | Some clip => completed_from clip (now_iso env)
         | None =>
             set_status Song.failed
               (Some (if existsb (state_is "failed") clips
                      then utf16 "Song generation failed on Suno API"
                      else utf16 "Song generation timed out"))
         end.
Proof.
  intros Hd Hsong. unfold persist_result. rewrite Hd.
  destruct (find (state_is "succeeded") clips) as [clip|].
  - edestruct update_then_log as (w' & -> & Hs & He); [exact Hsong|].
    by eexists w', _.
  - destruct (find (state_is "failed") clips) as [clip|] eqn:Hf.
    + rewrite (find_existsb _ _ _ Hf).
      edestruct update_then_log as (w' & -> & Hs & He); [exact Hsong|].
      by eexists w', _.
    + rewrite (proj1 (find_none_existsb _ _) Hf).
      edestruct update_then_log as (w' & -> & Hs & He); [exact Hsong|].
      by eexists w', _.
Qed.

Lemma status_requests_events w w' new :
  events w' = events w ++ new -> status_requests w' = status_requests w + requests new.
Proof.
  unfold status_requests, requests. intros ->.
  by rewrite List.filter_app, length_app.
Qed.

Lemma settled songId taskId song w r clips w1 :
  songs w !! songId = Some song ->
  pollTaskCompletion env (Some taskId) 15 30000 w = (Ok r, w1) ->
  songs w1 = songs w ->
  data r = DataArray clips ->
  exists w' updates,
    pollSongCompletion env songId (Some taskId) w = (Ok tt, w')
    /\ songs w' = <[songId := Song.apply updates song]> (songs w)
    /\ events w' = events w1 ++ [SongUpdate songId updates]
    /\ updates
       = match find (state_is "succeeded") clips with
         | Some clip => completed_from clip (now_iso env)
         | None =>
             set_status Song.failed
               (Some (if existsb (state_is "failed") clips
                      then utf16 "Song generation failed on Suno API"
                      else utf16 "Song generation timed out"))
         end.
Proof.
  intros Hsong Hp Hs1 Hd.
  destruct (persist_clips songId r clips song w1 Hd) as (w' & updates & Hr & Hs & He & Hu);
    [by rewrite Hs1|].
  exists w', updates. split; [by eapply pollSongCompletion_resolved|].
  by rewrite Hs, Hs1.
Qed.
End WithEnv.

(** X5: whatever came before (requests that threw, answers that kept the
    loop polling), the first answer within the fifteen attempts that does
    not keep the loop polling settles the song after exactly that many
    requests: it is completed from the first succeeded clip, and without one
    it is marked failed, with the message of a failed generation when a clip
    failed and the message of a timeout otherwise, its addresses left as
    they were. *)
Theorem decisive_answer_settles_song
    (env : Env) (songId taskId : str) (song : Song.t) (w : World)
    (k : nat) (r : SunoTaskResponse) :
  songs w !! songId = Some song ->
  startsWith (utf16 "mock_") taskId = false ->
  k < 15 ->
  (forall i, i < k ->
             goes_on (outcome_at env taskId (status_requests w + i)) = true) ->
  outcome_at env taskId (status_requests w + k) = Ok r ->
  keeps_polling r = false ->
  exists clips w' song',
    data r = DataArray clips
    /\ pollSongCompletion env songId (Some taskId) w = (Ok tt, w')
    /\ status_requests w' = status_requests w + S k
    /\ songs w' !! songId = Some song'
    /\ (forall clip,
          find (state_is "succeeded") clips = Some clip ->
          song' = Song.apply (completed_from clip (now_iso env)) song)
    /\ (find (state_is "succeeded") clips = None ->
        Song.status song' = Song.failed
        /\ Song.error_message song'
           = Some (if existsb (state_is "failed") clips
                   then utf16 "Song generation failed on Suno API"
                   else utf16 "Song generation timed out")
        /\ Song.audio_url song' = Song.audio_url song
        /\ Song.video_url song' = Song.video_url song).
Proof.
  intros Hsong Hmock Hk Hgo Hr Hkeep.
  destruct (keeps_polling_false r Hkeep) as (_ & clips & Hd).
  destruct (pollTaskCompletion_decided env taskId 15 30000 w k r Hmock
              ltac:(change (Z.to_nat 15) with 15; lia) Hgo Hr Hkeep)
    as (w1 & Hp & Hs1 & Hn1).
  destruct (settled env songId taskId song w r clips w1 Hsong Hp Hs1 Hd)
    as (w' & updates & Hrun & Hs & He & Hu).
  exists clips, w', (Song.apply updates song).
  split; [done|]. split; [done|].
  split. { rewrite (status_requests_events w1 w' _ He), Hn1. unfold requests. simpl. lia. }
  split. { rewrite Hs. apply lookup_insert_eq. }
  split.
  - intros clip Hc. by rewrite Hu, Hc.
  - intros Hnone. rewrite Hu, Hnone. by repeat split.
Qed.

Lemma decisive_answer_settles_song_witness :
  exists w' song',
    pollSongCompletion (outage flaky_then_failed) (utf16 "song-1") (Some (utf16 "task-1"))
                       (one_song Song.generating) = (Ok tt, w')
    /\ status_requests w' = 3
    /\ songs w' !! utf16 "song-1" = Some song'
    /\ Song.status song' = Song.failed
    /\ Song.error_message song' = Some (utf16 "Song generation failed on Suno API").
Proof.
  destruct (decisive_answer_settles_song (outage flaky_then_failed) (utf16 "song-1")
              (utf16 "task-1") (a_song Song.generating) (one_song Song.generating)
              2 (Effects.as_task failed_json))
    as (clips & w' & song' & Hd & Hrun & Hn & Hl & _ & Hf).
  - vm_compute. reflexivity.
  - vm_compute. reflexivity.
  - lia.
  - intros [|[|i]] Hi; [vm_compute; reflexivity|vm_compute; reflexivity|lia].
  - vm_compute. reflexivity.
  - vm_compute. reflexivity.
  - assert (clips = [failed_clip]) as -> by (by injection Hd as <-).
    assert (find (AiMusic.state_is "succeeded") [failed_clip] = None) as Hnone
      by (vm_compute; reflexivity).
    destruct (Hf Hnone) as (Hst & Hmsg & _).
    exists w', song'. split; [exact Hrun|]. split; [exact Hn|].
    split; [exact Hl|]. split; [exact Hst|].
    rewrite Hmsg. vm_compute. reflexivity.
Defined.

(** X6: when the service keeps answering that the task is not done, to
    the fifteen attempts and to the last check, the song is marked failed
    with the message of a timeout, after sixteen requests and fourteen
    delays of thirty seconds. *)
Theorem never_ready_times_out
    (env : Env) (songId taskId : str) (song : Song.t) (w : World) :
  songs w !! songId = Some song ->
  startsWith (utf16 "mock_") taskId = false ->
  (forall i, i <= 15 ->
             exists r, outcome_at env taskId (status_requests w + i) = Ok r
                       /\ still_waiting r = true) ->
  exists w' new,
    pollSongCompletion env songId (Some taskId) w = (Ok tt, w')
    /\ songs w' !! songId
       = Some (Song.apply
                 (set_status Song.failed (Some (utf16 "Song generation timed out")))
                 song)
    /\ events w' = events w ++ new
    /\ requests new = 16
    /\ delays new = repeat (30000 # 1)%Q 14.
Proof.
  intros Hsong Hmock Hall.
  destruct (pollTaskCompletion_waits_in_vain env taskId 15 30000 w Hmock ltac:(lia))
    as (r & Hr & Hp).
  { intros i Hi. destruct (Hall i Hi) as (ri & Hri & Hw).
    exists ri. split; [done|]. by apply still_waiting_keeps_polling. }
  destruct (Hall 15 ltac:(lia)) as (r' & Hr' & Hw).
  change (Z.to_nat 15) with 15 in Hr, Hp.
  rewrite Hr in Hr'. injection Hr' as <-.
  destruct (still_waiting_finds r Hw) as (clips & Hd & Hsucc & Hfail).
  destruct (settled env songId taskId song w r clips _ Hsong Hp eq_refl Hd)
    as (w' & updates & Hrun & Hs & He & Hu).
  rewrite Hsucc, (proj1 (find_none_existsb _ _) Hfail) in Hu. subst updates.
  eexists w', _. split; [done|].
  split. { rewrite Hs. apply lookup_insert_eq. }
  split. { rewrite He. cbn [add_events events]. rewrite <- app_assoc. reflexivity. }
  split; reflexivity.
Qed.

Lemma never_ready_times_out_witness :
  exists w' song',
    pollSongCompletion (outage always_not_ready) (utf16 "song-1") (Some (utf16 "task-1"))
                       (one_song Song.generating) = (Ok tt, w')
    /\ songs w' !! utf16 "song-1" = Some song'
    /\ Song.status song' = Song.failed
    /\ status_requests w' = 16.
Proof.
  destruct (never_ready_times_out (outage always_not_ready) (utf16 "song-1")
              (utf16 "task-1") (a_song Song.generating) (one_song Song.generating))
    as (w' & new & Hrun & Hl & He & Hreq & _).
  - vm_compute. reflexivity.
  - vm_compute. reflexivity.
  - intros i Hi. eexists. split; vm_compute; reflexivity.
  - eexists w', _. split; [exact Hrun|]. split; [exact Hl|]. split; [reflexivity|].
    rewrite (status_requests_events (one_song Song.generating) w' new He), Hreq.
    reflexivity.
Defined.

(** X7: when none of the fifteen attempts gets a decisive answer and one
    of them throws, polling gives up without the last check: fifteen
    requests are sent, and the song is marked failed with the message of a
    timeout. *)
Theorem failed_request_forfeits_last_check
    (env : Env) (songId taskId : str) (song : Song.t) (w : World) :
  songs w !! songId = Some song ->
  startsWith (utf16 "mock_") taskId = false ->
  (forall i, i < 15 ->
             goes_on (outcome_at env taskId (status_requests w + i)) = true) ->
  (exists i e, i < 15 /\ outcome_at env taskId (status_requests w + i) = Throw e) ->
  exists e w1 w',
    pollTaskCompletion env (Some taskId) 15 30000 w
    = (Ok {| code := 500; data := DataArray [];
             message := utf16 "Polling failed: " ++ Js.message e |}, w1)
    /\ status_requests w1 = status_requests w + 15
    /\ pollSongCompletion env songId (Some taskId) w = (Ok tt, w')
    /\ status_requests w' = status_requests w + 15
    /\ songs w' !! songId
       = Some (Song.apply
                 (set_status Song.failed (Some (utf16 "Song generation timed out")))
                 song).
Proof.
  intros Hsong Hmock Hgo Hthrow.
  destruct (pollTaskCompletion_gives_up env taskId 15 30000 w Hmock Hgo Hthrow)
    as (e & w1 & _ & Hp & Hs1 & Hn1).
  change (Z.to_nat 15) with 15 in Hn1.
  destruct (settled env songId taskId song w _ [] w1 Hsong Hp Hs1 eq_refl)
    as (w' & updates & Hrun & Hs & He & Hu).
  rewrite (eq_refl : find (state_is "succeeded") [] = None) in Hu.
  rewrite (eq_refl : existsb (state_is "failed") [] = false) in Hu. subst updates.
  exists e, w1, w'. split; [done|]. split; [done|]. split; [done|].
  split. { rewrite (status_requests_events w1 w' _ He), Hn1. unfold requests. simpl. lia. }
  rewrite Hs. apply lookup_insert_eq.
Qed.

Lemma failed_request_forfeits_last_check_witness :
  exists w' song',
    pollSongCompletion (outage always_down) (utf16 "song-1") (Some (utf16 "task-1"))
                       (one_song Song.generating) = (Ok tt, w')
    /\ status_requests w' = 15
    /\ songs w' !! utf16 "song-1" = Some song'
    /\ Song.status song' = Song.failed.
Proof.
  destruct (failed_request_forfeits_last_check (outage always_down) (utf16 "song-1")
              (utf16 "task-1") (a_song Song.generating) (one_song Song.generating))
    as (e & w1 & w' & _ & _ & Hrun & Hn & Hl).
  - vm_compute. reflexivity.
  - vm_compute. reflexivity.
  - intros i Hi. vm_compute. reflexivity.
  - exists 0, (ErrorObj (utf16 "fetch failed")). split; [lia|vm_compute; reflexivity].
  - eexists w', _. split; [exact Hrun|]. split; [exact Hn|]. split; [exact Hl|].
    vm_compute. reflexivity.
Defined.

End SettleFacts.

(** ** The pipeline from request to song *)

Module PipelineFacts.
Import Effects Footprint EffectFacts AiMusic Supabase GenerateRoute Background.
Import PollAnswers PollTrace PollFacts SubmitFacts PollTraceFacts GenerateRouteFacts.
Import StatusFacts SettleFacts Samples MoreSamples.

(** The events of drafting and submission are no status requests, no
    delays and no updates. *)
Lemma submission_events_quiet new :
  Forall (fun e => is_generate_content e \/ is_create_request e) new ->
  requests new = 0 /\ delays new = []
  /\ Forall (fun e => ~ is_song_update e) new.
Proof.
  induction 1 as [|e l He _ (IH1 & IH2 & IH3)]; [done|].
  change (e :: l) with ([e] ++ l). rewrite requests_app, delays_app, IH1, IH2.
  destruct He as [He|He]; destruct e; try (by destruct He);
    (split; [reflexivity|split; [reflexivity|]]; constructor; [by intros []|done]).
Qed.

Section WithEnv.
Variable env : Env.

(** With lyrics at hand nothing is retrieved or drafted. *)
Lemma draftLyrics_custom params w :
  truthy (AiMusic.customLyrics params) = true ->
  draftLyrics env params w = (Ok (default [] (AiMusic.customLyrics params), []), w).
Proof. intros H. unfold draftLyrics. by rewrite H. Qed.

Lemma truthy_default s : truthy s = true -> s = Some (default [] s) /\ default [] s <> [].
Proof. destruct s as [[|c l]|]; done. Qed.

(** The creation request, by cases on its outcome. *)
Lemma submitMusic_cases params lyrics referenceSongs w :
  lyrics <> [] ->
  submitMusic env params lyrics referenceSongs w
  = (Ok {| AiMusic.lyrics := lyrics; song_title := AiMusic.title params;
           AiMusic.task_id :=
             match sunoApiCall_outcome (create_endpoint env (create_body params lyrics)) with
             | Ok created =>
                 if truthy (created_task_id created) then created_task_id created
                 else Some (mockTaskId env)
             | Throw _ => Some (mockTaskId env)
             end;
           AiMusic.reference_songs := referenceSongs; AiMusic.error := None |},
     add_event w (CreateRequest (create_body params lyrics))).
Proof.
  intros Hne. destruct lyrics as [|c l]; [done|].
  cbv [submitMusic catch bindM sunoApiCall_create emit lift throw ret].
  destruct (sunoApiCall_outcome _) as [created|e]; [|done].
  by destruct (truthy (created_task_id created)).
Qed.

(** Without lyrics at hand: what is retrieved goes into the prompt, and the
    names are kept whatever becomes of the draft. *)
Lemma draftLyrics_drafted params w :
  truthy (AiMusic.customLyrics params) = false ->
  exists found,
    LyricsProcessor.findSimilarLyrics (lyricsStore env) (AiMusic.theme params) 3
      LyricsProcessor.default_matchThreshold = Ok found
    /\ found <> []
    /\ draftLyrics env params w
       = (Ok (match generateContent env
                      (Drafting.lyricsPrompt (AiMusic.theme params)
                         (default [] (AiMusic.styles params))
                         (map LyricsProcessor.lyrics_text found)) with
              | Ok text => Gemini.cleanLyricsResponse (trim text)
              | Throw _ => fallback_lyrics
              end,
              map LyricsProcessor.song_name found),
          add_event w (GenerateContent
                         (Drafting.lyricsPrompt (AiMusic.theme params)
                            (default [] (AiMusic.styles params))
                            (map LyricsProcessor.lyrics_text found)))).
Proof.
  intros Hc.
  destruct (RetrievalFacts.findSimilarLyrics_answers (lyricsStore env)
              (AiMusic.theme params) 3 LyricsProcessor.default_matchThreshold)
    as (found & Hf & Hne & _).
  exists found. split; [done|]. split; [done|].
  unfold draftLyrics. rewrite Hc, Hf.
  assert ((0 <? length found) = true) as ->.
  { apply Nat.ltb_lt. destruct found; [done|simpl; lia]. }
  unfold catch, bindM, ret. rewrite optimizeLyricsPrompt_run.
  by destruct (generateContent env _).
Qed.

(** The background task, up to the start of polling. *)
Lemma background_steps songId params song w result w2 :
  songs w !! songId = Some song ->
  generateCompleteSong env (song_params params)
    {| songs := <[songId := Song.apply (set_status Song.generating None) song]> (songs w);
       generation_logs := generation_logs w;
       events := events w ++ [SongUpdate songId (set_status Song.generating None)] |}
  = (Ok result, w2) ->
  exists new w3,
    events w2 = events w ++ SongUpdate songId (set_status Song.generating None) :: new
    /\ Forall (fun e => is_generate_content e \/ is_create_request e) new
    /\ songs w3
       = <[songId := Song.apply (task_info params result)
                       (Song.apply (set_status Song.generating None) song)]> (songs w)
    /\ events w3 = events w2 ++ [SongUpdate songId (task_info params result)]
    /\ generateSongInBackground env songId params w
       = (Ok tt, snd (pollSongCompletion env songId (AiMusic.task_id result) w3)).
Proof.
  intros Hsong Hgen.
  set (w1 := {| songs := _; generation_logs := _; events := _ |}) in Hgen.
  destruct (generateCompleteSong_run env (song_params params) w1)
    as (result' & w2' & Hgen' & (Hs2 & _ & new & He2 & Hnew)).
  rewrite Hgen in Hgen'. injection Hgen' as <- <-.
  destruct (log_quietly_run env
              (log_entry songId "music_generation_started" "success" None) w2)
    as (w3 & Hlog & Hs3 & He3).
  assert (songs w3 !! songId = Some (Song.apply (set_status Song.generating None) song))
    as Hsong3.
  { rewrite Hs3, Hs2. unfold w1. cbn [songs]. apply lookup_insert_eq. }
  eexists new, _. split; [|split; [exact Hnew|]].
  { rewrite He2. unfold w1. cbn [events]. by rewrite <- app_assoc. }
  split; [|split]; [| |
    unfold generateSongInBackground, catch;
    unfold bindM at 1; rewrite (updateSong_run _ _ _ _ _ Hsong);
    fold w1; unfold bindM at 1; unfold safeApiCall, catch;
    change (generateCompleteSong env _ w1)
      with (generateCompleteSong env (song_params params) w1);
    rewrite Hgen; unfold bindM at 1; rewrite Hlog;
    unfold bindM; rewrite (updateSong_run _ _ _ _ _ Hsong3);
    unfold detached; reflexivity].
  - cbn [songs]. rewrite Hs3, Hs2. unfold w1. cbn [songs].
    apply insert_insert_eq.
  - cbn [events]. by rewrite He3.
Qed.

(** Polling without a task identifier marks the song failed, with the
    message of the type error. *)
Lemma pollSongCompletion_no_task songId song w :
  songs w !! songId = Some song ->
  exists r w' msg,
    pollSongCompletion env songId None w = (r, w')
    /\ songs w' = <[songId := Song.apply (set_status Song.failed (Some msg)) song]> (songs w)
    /\ events w' = events w ++ [SongUpdate songId (set_status Song.failed (Some msg))]
    /\ msg = utf16 "Cannot read properties of undefined (reading 'startsWith')".
Proof.
  intros Hsong. unfold pollSongCompletion, catch, bindM.
  rewrite pollTaskCompletion_undefined.
  rewrite (updateSong_run _ _ _ _ _ Hsong). unfold createGenerationLog.
  destruct (log_failure env _);
    (eexists _, _, _; split; [reflexivity|]; split; [reflexivity|];
     split; reflexivity).
Qed.

Lemma generateCompleteSong_custom params custom w :
  AiMusic.customLyrics params = Some custom ->
  custom <> [] ->
  generateCompleteSong env params w
  = (Ok {| AiMusic.lyrics := custom; song_title := AiMusic.title params;
           AiMusic.task_id :=
             match sunoApiCall_outcome (create_endpoint env (create_body params custom)) with
             | Ok created =>
                 if truthy (created_task_id created) then created_task_id created
                 else Some (mockTaskId env)
             | Throw _ => Some (mockTaskId env)
             end;
           AiMusic.reference_songs := []; AiMusic.error := None |},
     add_event w (CreateRequest (create_body params custom))).
Proof.
  intros Hc Hne. rewrite generateCompleteSong_unfold, draftLyrics_custom;
    [|rewrite Hc; by destruct custom].
  rewrite Hc. cbn [default fst snd]. unfold id.
  by rewrite submitMusic_cases.
Qed.

(** The song a mock task leaves: completed, with the placeholder clip. *)
Lemma mock_task_completes songId song w taskId :
  songs w !! songId = Some song ->
  startsWith (utf16 "mock_") taskId = true ->
  exists w',
    pollSongCompletion env songId (Some taskId) w = (Ok tt, w')
    /\ songs w'
       = <[songId := Song.apply (completed_from (mock_clip taskId (now_iso env))
                                   (now_iso env)) song]> (songs w)
    /\ events w'
       = events w ++ [ Slept (2000 # 1);
                       SongUpdate songId
                         (completed_from (mock_clip taskId (now_iso env)) (now_iso env)) ].
Proof.
  intros Hsong Hmock.
  destruct (settled env songId taskId song w (mock_response taskId (now_iso env))
              [mock_clip taskId (now_iso env)]
              (add_event w (Slept (2000 # 1))) Hsong
              (pollTaskCompletion_mock env taskId 15 30000 w Hmock) eq_refl eq_refl)
    as (w' & updates & Hrun & Hs & He & Hu).
  assert (find (state_is "succeeded") [mock_clip taskId (now_iso env)]
          = Some (mock_clip taskId (now_iso env))) as Hfind by reflexivity.
  rewrite Hfind in Hu. subst updates.
  exists w'. split; [done|]. split; [done|].
  rewrite He. cbn [add_event events]. by rewrite <- app_assoc.
Qed.
End WithEnv.

(** X8: lyrics given with the request are sent to the audio service as
    they are: nothing is retrieved, no text is drafted, no reference is
    reported, and the one event is the creation request whose prompt is the
    given text.  The task identifier is the one the service answers with,
    and the mock identifier when the call fails or the answer has none. *)
Theorem custom_lyrics_bypass_drafting
    (env : Env) (params : SongParams) (custom : str) (w : World) :
  AiMusic.customLyrics params = Some custom ->
  custom <> [] ->
  exists song,
    generateCompleteSong env params w
    = (Ok song, add_event w (CreateRequest (create_body params custom)))
    /\ prompt (create_body params custom) = custom
    /\ AiMusic.lyrics song = custom
    /\ AiMusic.reference_songs song = []
    /\ AiMusic.error song = None
    /\ (forall created,
          sunoApiCall_outcome (create_endpoint env (create_body params custom))
          = Ok created ->
          truthy (created_task_id created) = true ->
          AiMusic.task_id song = created_task_id created)
    /\ (forall created,
          sunoApiCall_outcome (create_endpoint env (create_body params custom))
          = Ok created ->
          truthy (created_task_id created) = false ->
          AiMusic.task_id song = Some (mockTaskId env))
    /\ (forall e,
          sunoApiCall_outcome (create_endpoint env (create_body params custom))
          = Throw e ->
          AiMusic.task_id song = Some (mockTaskId env)).
Proof.
  intros Hc Hne. rewrite (generateCompleteSong_custom env params custom w Hc Hne).
  eexists. split; [reflexivity|]. cbn [AiMusic.lyrics AiMusic.reference_songs
                                         AiMusic.error AiMusic.task_id].
  split; [done|]. split; [done|]. split; [done|]. split; [done|].
  split; [|split].
  - intros created -> Ht. by rewrite Ht.
  - intros created -> Ht. by rewrite Ht.
  - by intros e ->.
Qed.

Lemma custom_lyrics_bypass_drafting_witness :
  exists song w',
    generateCompleteSong (outage always_down) custom_params (one_song Song.generating)
    = (Ok song, w')
    /\ AiMusic.lyrics song = utf16 "[Verse]
Baarish ki boondein"
    /\ AiMusic.reference_songs song = [].
Proof.
  destruct (custom_lyrics_bypass_drafting (outage always_down) custom_params
              (utf16 "[Verse]
Baarish ki boondein") (one_song Song.generating))
    as (song & Hrun & _ & Hl & Hr & _).
  - reflexivity.
  - vm_compute. discriminate.
  - exists song. eexists. split; [exact Hrun|]. split; [exact Hl|exact Hr].
Defined.

(** X9: without lyrics in the request, the references that
    [findSimilarLyrics] gives for the theme (three asked for, never none)
    make the prompt of the one text-generation request, and their names are
    reported with the song whatever becomes of the draft: kept, replaced by
    the fallback lyric because the call threw, or found empty. *)
Theorem references_reported (env : Env) (params : SongParams) (w : World) :
  truthy (AiMusic.customLyrics params) = false ->
  exists found song w' rest,
    LyricsProcessor.findSimilarLyrics (lyricsStore env) (AiMusic.theme params) 3
      LyricsProcessor.default_matchThreshold = Ok found
    /\ found <> []
    /\ generateCompleteSong env params w = (Ok song, w')
    /\ AiMusic.reference_songs song = map LyricsProcessor.song_name found
    /\ events w'
       = events w
         ++ GenerateContent
              (Drafting.lyricsPrompt (AiMusic.theme params)
                 (default [] (AiMusic.styles params))
                 (map LyricsProcessor.lyrics_text found)) :: rest
    /\ Forall (fun e => is_create_request e) rest.
Proof.
  intros Hc.
  destruct (draftLyrics_drafted env params w Hc) as (found & Hf & Hne & Hd).
  exists found. rewrite generateCompleteSong_unfold, Hd. cbn [fst snd].
  set (lyrics := match generateContent env _ with Ok _ => _ | Throw _ => _ end).
  destruct lyrics as [|c l] eqn:Hl.
  - rewrite submitMusic_empty. eexists _, _, []. by repeat split.
  - rewrite submitMusic_cases by done.
    eexists _, _, [_]. split; [done|]. split; [done|]. split; [reflexivity|].
    split; [done|]. split; [cbn [add_event events]; by rewrite <- app_assoc|].
    by constructor.
Qed.

Lemma references_reported_witness :
  exists song w',
    generateCompleteSong (outage always_down) sample_params (one_song Song.generating)
    = (Ok song, w')
    /\ AiMusic.reference_songs song
       = [utf16 "Yeh Dosti"; utf16 "Haan Jab Tak Hain Jaan"; utf16 "Koi Haseena"].
Proof.
  destruct (references_reported (outage always_down) sample_params
              (one_song Song.generating) eq_refl)
    as (found & song & w' & rest & Hf & _ & Hrun & Hr & _).
  exists song, w'. split; [exact Hrun|]. rewrite Hr.
  assert (found = LyricsProcessor.hardcoded_fallback) as ->
    by (vm_compute in Hf; by injection Hf as <-).
  reflexivity.
Defined.

(** X10: [generateCompleteSong] never throws, so that the wrapper
    [safeApiCall] around it changes nothing; it leaves the tables alone and
    sends at most a text-generation request and a creation request.  Its
    result has lyrics exactly when it has no error, and exactly then it has
    a task identifier and the creation request was sent, with these lyrics
    as its prompt. *)
Theorem generateCompleteSong_result
    (env : Env) (params : SongParams) (errorContext : str) (w : World) :
  exists song w' new,
    generateCompleteSong env params w = (Ok song, w')
    /\ safeApiCall (generateCompleteSong env params) errorContext w = (Ok song, w')
    /\ songs w' = songs w /\ generation_logs w' = generation_logs w
    /\ events w' = events w ++ new
    /\ length new <= 2
    /\ song_title song = AiMusic.title params
    /\ (AiMusic.lyrics song <> [] <-> AiMusic.error song = None)
    /\ (AiMusic.lyrics song <> [] <-> is_Some (AiMusic.task_id song))
    /\ (AiMusic.lyrics song <> [] <->
        In (CreateRequest (create_body params (AiMusic.lyrics song))) new).
Proof.
  assert (forall lyrics,
             is_Some (match sunoApiCall_outcome
                              (create_endpoint env (create_body params lyrics)) with
                      | Ok created =>
                          if truthy (created_task_id created)
                          then created_task_id created
                          else Some (mockTaskId env)
                      | Throw _ => Some (mockTaskId env)
                      end)) as Htask.
  { intros lyrics. destruct (sunoApiCall_outcome _) as [created|e]; [|by eexists].
    destruct (created_task_id created) as [[|c l]|]; by eexists. }
  destruct (truthy (AiMusic.customLyrics params)) eqn:Hc.
  - destruct (truthy_default _ Hc) as [Hsome Hne].
    pose proof (generateCompleteSong_custom env params _ w Hsome Hne) as Hgen.
    eexists _, _, [CreateRequest (create_body params
                                   (default [] (AiMusic.customLyrics params)))].
    split; [exact Hgen|].
    split. { unfold safeApiCall, catch. by rewrite Hgen. }
    cbn [AiMusic.lyrics AiMusic.error AiMusic.task_id song_title].
    split; [done|]. split; [done|]. split; [done|]. split; [simpl; lia|].
    split; [done|]. split; [done|]. split; [split; [intros _; apply Htask|done]|].
    split; [intros _; by left|done].
  - destruct (draftLyrics_drafted env params w Hc) as (found & _ & _ & Hd).
    pose proof (generateCompleteSong_unfold env params w) as Hgen.
    rewrite Hd in Hgen. cbn [fst snd] in Hgen.
    destruct (match generateContent env _ with Ok _ => _ | Throw _ => _ end)
      as [|c l] eqn:Hl.
    + rewrite submitMusic_empty in Hgen.
      eexists _, _, [_]. split; [exact Hgen|].
      split. { unfold safeApiCall, catch. by rewrite Hgen. }
      cbn [AiMusic.lyrics AiMusic.error AiMusic.task_id song_title].
      split; [done|]. split; [done|]. split; [done|]. split; [simpl; lia|].
      split; [done|]. split; [done|].
      split; [split; [done|by intros [? ?]]|].
      split; [done|]. by intros [H|[]].
    + rewrite submitMusic_cases in Hgen by done.
      eexists _, _, [_; _]. split; [exact Hgen|].
      split. { unfold safeApiCall, catch. by rewrite Hgen. }
      cbn [AiMusic.lyrics AiMusic.error AiMusic.task_id song_title].
      split; [done|]. split; [done|].
      split; [cbn [add_event events]; by rewrite <- app_assoc|].
      split; [simpl; lia|].
      split; [done|]. split; [done|]. split; [split; [intros _; apply Htask|done]|].
      split; [intros _; right; by left|done].
Qed.

(** X11: when the creation call throws, and the lyrics are given or the
    text-generation call throws as well, the background task still ends
    with a completed song: the task is the mock task, no status request is
    sent, the one delay is of two seconds, and the song gets the placeholder
    addresses, the duration 180 and the given lyrics, or the fallback
    lyric. *)
Theorem outage_completes_with_placeholders
    (env : Env) (songId : str) (params : RouteParams) (song : Song.t) (w : World) :
  songs w !! songId = Some song ->
  (forall body, exists e, sunoApiCall_outcome (create_endpoint env body) = Throw e) ->
  (truthy (GenerateRoute.customLyrics params) = false ->
   forall prompt, exists e, generateContent env prompt = Throw e) ->
  exists w' song' new,
    generateSongInBackground env songId params w = (Ok tt, w')
    /\ songs w' !! songId = Some song'
    /\ Song.status song' = Song.completed
    /\ Song.task_id song' = Some (mockTaskId env)
    /\ Song.lyrics song'
       = Some (if truthy (GenerateRoute.customLyrics params)
               then default [] (GenerateRoute.customLyrics params)
               else fallback_lyrics)
    /\ Song.audio_url song' = Some (utf16 "https://cdn1.suno.ai/mock-audio-url.mp3")
    /\ Song.video_url song' = Some (utf16 "https://cdn1.suno.ai/mock-video-url.mp4")
    /\ Song.duration song' = Some 180%Z
    /\ Song.error_message song' = None
    /\ events w' = events w ++ new
    /\ requests new = 0
    /\ delays new = [(2000 # 1)%Q]
    /\ status_writes songId new = [Song.generating; Song.completed].
Proof.
  intros Hsong Hcreate Hdraft.
  set (w1 := {| songs := <[songId := Song.apply (set_status Song.generating None) song]>
                           (songs w);
                generation_logs := generation_logs w;
                events := events w ++ [SongUpdate songId (set_status Song.generating None)] |}).
  assert (exists result w2,
             generateCompleteSong env (song_params params) w1 = (Ok result, w2)
             /\ AiMusic.task_id result = Some (mockTaskId env)
             /\ AiMusic.lyrics result
                = (if truthy (GenerateRoute.customLyrics params)
                   then default [] (GenerateRoute.customLyrics params)
                   else fallback_lyrics))
    as (result & w2 & Hgen & Htask & Hlyrics).
  { destruct (truthy (GenerateRoute.customLyrics params)) eqn:Hc.
    - destruct (truthy_default _ Hc) as [Hsome Hne].
      rewrite (generateCompleteSong_custom env (song_params params) _ w1 Hsome Hne).
      eexists _, _. split; [reflexivity|]. cbn [AiMusic.task_id AiMusic.lyrics].
      split; [|done].
      destruct (Hcreate (create_body (song_params params)
                           (default [] (GenerateRoute.customLyrics params))))
        as [e ->]. done.
    - rewrite generateCompleteSong_unfold.
      destruct (draftLyrics_fallback env (song_params params) w1 Hc (Hdraft eq_refl))
        as (refs & prompt & ->).
      cbn [fst snd]. rewrite submitMusic_cases by apply fallback_lyrics_nonempty.
      eexists _, _. split; [reflexivity|]. cbn [AiMusic.task_id AiMusic.lyrics].
      split; [|done].
      destruct (Hcreate (create_body (song_params params) fallback_lyrics))
        as [e ->]. done. }
  destruct (background_steps env songId params song w result w2 Hsong Hgen)
    as (new & w3 & He2 & Hnew & Hs3 & He3 & Hrun).
  rewrite Htask in Hrun.
  destruct (mock_task_completes env songId
              (Song.apply (task_info params result)
                 (Song.apply (set_status Song.generating None) song))
              w3 (mockTaskId env))
    as (w' & Hpoll & Hs' & He'); [rewrite Hs3; apply lookup_insert_eq|reflexivity|].
  rewrite Hpoll in Hrun. cbn [snd] in Hrun.
  eexists w', _,
    ([SongUpdate songId (set_status Song.generating None)]
     ++ new ++ [SongUpdate songId (task_info params result)]
     ++ [Slept (2000 # 1)]
     ++ [SongUpdate songId
           (completed_from (mock_clip (mockTaskId env) (now_iso env)) (now_iso env))]).
  split; [exact Hrun|].
  split. { rewrite Hs'. apply lookup_insert_eq. }
  split; [reflexivity|].
  split. { cbn [Song.apply Song.task_id completed_from Song.p_task_id task_info
                Song.or_keep_opt]. by rewrite Htask. }
  split. { cbn [Song.apply Song.lyrics completed_from Song.p_lyrics task_info
                Song.or_keep_opt]. by rewrite Hlyrics. }
  split; [reflexivity|]. split; [reflexivity|]. split; [reflexivity|].
  split; [reflexivity|].
  split. { rewrite He', He3, He2. rewrite <- !app_assoc. reflexivity. }
  destruct (submission_events_quiet new Hnew) as (Hreq & Hdel & Hupd).
  split; [|split].
  - by rewrite !requests_app, Hreq.
  - by rewrite !delays_app, Hdel.
  - rewrite !status_writes_app, !status_writes_update.
    by rewrite (status_writes_none songId new Hupd).
Qed.

Lemma outage_completes_with_placeholders_witness :
  exists w' song',
    generateSongInBackground (outage always_down) (utf16 "song-1") route_params
                             (one_song Song.pending) = (Ok tt, w')
    /\ songs w' !! utf16 "song-1" = Some song'
    /\ Song.status song' = Song.completed
    /\ Song.lyrics song' = Some fallback_lyrics.
Proof.
  destruct (outage_completes_with_placeholders (outage always_down) (utf16 "song-1")
              route_params (a_song Song.pending) (one_song Song.pending))
    as (w' & song' & new & Hrun & Hl & Hst & _ & Hly & _).
  - vm_compute. reflexivity.
  - intros body. eexists. reflexivity.
  - intros _ prompt. eexists. reflexivity.
  - exists w', song'. split; [exact Hrun|]. split; [exact Hl|].
    split; [exact Hst|].
    rewrite Hly. vm_compute. reflexivity.
Defined.

(** X12: when the text service answers and nothing is left of its answer
    once cleaned, [generateCompleteSong] reports that no lyrics could be
    generated and has no task; the background task then sends nothing to the
    audio service and leaves the song failed, its lyrics set to the empty
    text. *)
Theorem empty_draft_fails_song
    (env : Env) (songId : str) (params : RouteParams) (song : Song.t) (w : World) :
  songs w !! songId = Some song ->
  truthy (GenerateRoute.customLyrics params) = false ->
  (forall prompt, exists text,
      generateContent env prompt = Ok text
      /\ Gemini.cleanLyricsResponse (trim text) = []) ->
  (forall w0, exists result w2,
      generateCompleteSong env (song_params params) w0 = (Ok result, w2)
      /\ AiMusic.error result = Some (utf16 "Failed to generate lyrics")
      /\ AiMusic.task_id result = None)
  /\ exists w' song' new,
      generateSongInBackground env songId params w = (Ok tt, w')
      /\ songs w' !! songId = Some song'
      /\ Song.status song' = Song.failed
      /\ Song.lyrics song' = Some []
      /\ Song.task_id song' = Song.task_id song
      /\ events w' = events w ++ new
      /\ Forall (fun e => is_audio_request e = false) new.
Proof.
  intros Hsong Hc Hempty.
  assert (forall w0, exists found,
             generateCompleteSong env (song_params params) w0
             = (Ok {| AiMusic.lyrics := []; song_title := GenerateRoute.title params;
                      AiMusic.task_id := None;
                      AiMusic.reference_songs := map LyricsProcessor.song_name found;
                      AiMusic.error := Some (utf16 "Failed to generate lyrics") |},
                add_event w0
                  (GenerateContent
                     (Drafting.lyricsPrompt (GenerateRoute.theme params)
                        (GenerateRoute.styles params)
                        (map LyricsProcessor.lyrics_text found))))) as Hgen.
  { intros w0.
    destruct (draftLyrics_drafted env (song_params params) w0 Hc)
      as (found & _ & _ & Hd).
    exists found. rewrite generateCompleteSong_unfold, Hd. cbn [fst snd].
    match goal with
    | |- context [generateContent env ?p] =>
        destruct (Hempty p) as (text & -> & ->)
    end.
    by rewrite submitMusic_empty. }
  split.
  { intros w0. destruct (Hgen w0) as (found & ->). by eexists _, _. }
  match goal with
  | |- context [generateSongInBackground env songId params w] =>
      destruct (Hgen {| songs := <[songId := Song.apply (set_status Song.generating None)
                                               song]> (songs w);
                        generation_logs := generation_logs w;
                        events := events w
                                  ++ [SongUpdate songId
                                        (set_status Song.generating None)] |})
        as (found & Hg)
  end.
  destruct (background_steps env songId params song w _ _ Hsong Hg)
    as (new & w3 & He2 & Hnew & Hs3 & He3 & Hrun).
  cbn [AiMusic.task_id] in Hrun.
  destruct (pollSongCompletion_no_task env songId _ w3
              ltac:(rewrite Hs3; apply lookup_insert_eq))
    as (r & w' & msg & Hpoll & Hs' & He' & _).
  rewrite Hpoll in Hrun. cbn [snd] in Hrun.
  destruct (submission_events_quiet new Hnew) as (_ & _ & Hupd).
  eexists w', _,
    ([SongUpdate songId (set_status Song.generating None)] ++ new
     ++ [SongUpdate songId (task_info params _)]
     ++ [SongUpdate songId (set_status Song.failed (Some msg))]).
  split; [exact Hrun|].
  split. { rewrite Hs'. apply lookup_insert_eq. }
  split; [reflexivity|]. split; [reflexivity|]. split; [reflexivity|].
  split. { rewrite He', He3, He2. rewrite <- !app_assoc. reflexivity. }
  cbn [add_event events] in He2. rewrite <- app_assoc in He2.
  apply app_inv_head in He2. injection He2 as <-.
  by repeat constructor.
Qed.

Lemma empty_draft_fails_song_witness :
  exists w' song',
    generateSongInBackground only_emphasis (utf16 "song-1") route_params
                             (one_song Song.pending) = (Ok tt, w')
    /\ songs w' !! utf16 "song-1" = Some song'
    /\ Song.status song' = Song.failed.
Proof.
  destruct (empty_draft_fails_song only_emphasis (utf16 "song-1") route_params
              (a_song Song.pending) (one_song Song.pending))
    as (_ & w' & song' & new & Hrun & Hl & Hst & _).
  - vm_compute. reflexivity.
  - reflexivity.
  - intros prompt. eexists. split; [reflexivity|]. vm_compute. reflexivity.
  - exists w', song'. split; [exact Hrun|]. split; [exact Hl|exact Hst].
Defined.

(** X13: for a song that is not in the table the background task does
    nothing: its first update throws, the update of its handler throws as
    well, no request is sent, and the thrown value is what the client
    gives. *)
Theorem unknown_song_touches_nothing
    (env : Env) (songId : str) (params : RouteParams) (w : World) :
  songs w !! songId = None ->
  generateSongInBackground env songId params w = (Throw (row_missing env), w).
Proof.
  intros Hnone. unfold generateSongInBackground, catch.
  unfold bindM at 1. unfold updateSong at 1. rewrite Hnone.
  unfold bindM, updateSong. by rewrite Hnone.
Qed.

Lemma unknown_song_touches_nothing_witness :
  generateSongInBackground (outage always_down) (utf16 "song-2") route_params
                           (one_song Song.pending)
  = (Throw (NonError (utf16 "PGRST116")), one_song Song.pending).
Proof.
  apply (unknown_song_touches_nothing (outage always_down) (utf16 "song-2")
           route_params (one_song Song.pending)).
  vm_compute. reflexivity.
Defined.

(** X24: whatever the audio service does, [pollSongCompletion] on an
    existing song leaves it completed or failed, with one exception: it is
    set to generating when polling returns a response of the service itself
    whose data is no array and whose code is 500.  Without a task identifier
    the song is marked failed, with the message of the type error. *)
Theorem polling_always_settles
    (env : Env) (songId : str) (taskId : option str) (song : Song.t) (w : World) :
  songs w !! songId = Some song ->
  exists r w' song',
    pollSongCompletion env songId taskId w = (r, w')
    /\ songs w' !! songId = Some song'
    /\ (forall id, id <> songId -> songs w' !! id = songs w !! id)
    /\ (Song.status song' = Song.completed
        \/ Song.status song' = Song.failed
        \/ (Song.status song' = Song.generating
            /\ exists t result w1,
                taskId = Some t
                /\ pollTaskCompletion env (Some t) 15 30000 w = (Ok result, w1)
                /\ data result = NoArray
                /\ code result = 500%Z))
    /\ (taskId = None ->
        Song.status song' = Song.failed
        /\ Song.error_message song'
           = Some (utf16 "Cannot read properties of undefined (reading 'startsWith')")).
Proof.
  intros Hsong. destruct taskId as [t|].
  2:{ destruct (pollSongCompletion_no_task env songId song w Hsong)
        as (r & w' & msg & Hrun & Hs & _ & Hmsg).
      eexists r, w', _. split; [exact Hrun|].
      split. { rewrite Hs. apply lookup_insert_eq. }
      split. { intros id Hid. rewrite Hs. by apply lookup_insert_ne. }
      split; [right; by left|]. intros _. split; [reflexivity|].
      rewrite Hmsg.
      cbn [Song.apply Song.error_message set_status Song.p_error_message
           Song.or_keep option_map]. reflexivity. }
  destruct (pollTaskCompletion_safe env t 15 30000 w) as (result & w1 & Hp).
  pose proof (pollTaskCompletion_outside env t 15 30000 _ _ _ Hp) as (Hs1 & _).
  assert (songs w1 !! songId = Some song) as Hsong1 by (by rewrite Hs1).
  destruct (data result) as [clips|] eqn:Hd.
  - destruct (settled env songId t song w result clips w1 Hsong Hp Hs1 Hd)
      as (w' & updates & Hrun & Hs & _ & Hu).
    eexists _, w', _. split; [exact Hrun|].
    split. { rewrite Hs. apply lookup_insert_eq. }
    split. { intros id Hid. rewrite Hs. by apply lookup_insert_ne. }
    split; [|done].
    rewrite Hu. destruct (find (state_is "succeeded") clips); [by left|right; by left].
  - unfold pollSongCompletion, catch. unfold bindM at 1. rewrite Hp.
    unfold persist_result. rewrite Hd.
    destruct ((code result =? 500)%Z && includes (utf16 "Polling failed") (message result))
      eqn:Hb.
    + edestruct update_then_log as (w' & -> & Hs & _); [exact Hsong1|].
      eexists _, w', _. split; [reflexivity|].
      split. { rewrite Hs. apply lookup_insert_eq. }
      split. { intros id Hid. rewrite Hs, Hs1. by apply lookup_insert_ne. }
      split; [|done]. right. right. split; [reflexivity|].
      apply andb_true_iff in Hb as [Hc _]. apply Z.eqb_eq in Hc.
      by exists t, result, w1.
    + unfold bindM. rewrite (updateSong_run env songId _ song w1 Hsong1).
      eexists _, _, _. split; [reflexivity|]. cbn [songs].
      split. { apply lookup_insert_eq. }
      split. { intros id Hid. rewrite Hs1. by apply lookup_insert_ne. }
      split; [|done]. right. by left.
Qed.

Lemma polling_always_settles_witness :
  exists r w' song',
    pollSongCompletion (outage always_down) (utf16 "song-1") None
                       (one_song Song.generating) = (r, w')
    /\ songs w' !! utf16 "song-1" = Some song'
    /\ Song.status song' = Song.failed.
Proof.
  destruct (polling_always_settles (outage always_down) (utf16 "song-1")
              None (a_song Song.generating) (one_song Song.generating))
    as (r & w' & song' & Hrun & Hl & _ & _ & Hnone).
  - vm_compute. reflexivity.
  - exists r, w', song'. split; [exact Hrun|]. split; [exact Hl|].
    exact (proj1 (Hnone eq_refl)).
Defined.

End PipelineFacts.

(** ** The manual check and its guards *)

Module RetryFacts.
Import Effects Footprint EffectFacts AiMusic Supabase GenerateRoute RetryRoute.
Import PollAnswers PollTrace PollFacts PollTraceFacts GenerateRouteFacts RetryCheckFacts.
Import StatusFacts.
Import SettleFacts Samples MoreSamples.

(** X14: the manual check reads the status endpoint exactly as
    [getTaskStatus] does: the same request, the same answer or thrown
    value for every response of the service. *)
Theorem manual_check_reads_like_poller (env : Env) (taskId : str) (w : World) :
  fetch_result env taskId w = getTaskStatus env taskId w.
Proof. apply fetch_result_getTaskStatus. Qed.

(** X15: the manual check does something (a request, an update, a log)
    only for a caller who owns the song, when the database is set up and
    the song has a task identifier and is not completed; in every other
    case the world is left as it was. *)
Theorem retry_changes_only_checked_songs
    (env : Env) (userId : option str) (songId : str) (w : World)
    (reply : ApiReply) (w' : World) :
  RetryRoute.POST env userId songId w = (Ok reply, w') ->
  w' <> w ->
  database_error env = None
  /\ exists song,
      songs w !! songId = Some song
      /\ userId = Some (Song.clerk_user_id song)
      /\ truthy (Song.task_id song) = true
      /\ Song.status song <> Song.completed
      /\ truthy userId = true.
Proof.
  intros Hrun Hne. unfold RetryRoute.POST in Hrun. unfold catch at 1 in Hrun.
  destruct (truthy userId) eqn:Huser;
    cbn [negb] in Hrun; [|injection Hrun as _ <-; done].
  destruct (database_error env) eqn:Hdb; [injection Hrun as _ <-; done|].
  split; [done|].
  unfold bindM at 1 in Hrun. unfold getSongById in Hrun.
  destruct (songs w !! songId) as [song|] eqn:Hsong; [|injection Hrun as _ <-; done].
  exists song. split; [done|].
  destruct (bool_decide (Some (Song.clerk_user_id song) = userId)) eqn:Howner;
    cbn [negb] in Hrun; [|injection Hrun as _ <-; done].
  apply bool_decide_eq_true in Howner.
  destruct (truthy (Song.task_id song)) eqn:Htask;
    cbn [negb] in Hrun; [|injection Hrun as _ <-; done].
  split; [done|]. split; [done|]. split; [|done].
  intros Hst. rewrite Hst in Hrun. injection Hrun as _ <-. done.
Qed.

Lemma retry_changes_only_checked_songs_witness :
  exists song,
    songs (one_song Song.failed) !! utf16 "song-1" = Some song
    /\ Some (utf16 "user_1") = Some (Song.clerk_user_id song)
    /\ Song.status song <> Song.completed.
Proof.
  destruct (POST_safe (outage always_not_ready) (utf16 "song-1")
              (Some (utf16 "user_1")) (one_song Song.failed)) as (reply & w' & E).
  destruct (retry_changes_only_checked_songs (outage always_not_ready)
              (Some (utf16 "user_1")) (utf16 "song-1") (one_song Song.failed)
              reply w' E)
    as (_ & song & Hsong & Hu & _ & Hst & _).
  - intros H. rewrite H in E.
    apply (f_equal (fun p => length (events (snd p)))) in E.
    vm_compute in E. discriminate.
  - exists song. split; [exact Hsong|]. split; [exact Hu|exact Hst].
Defined.

(** X16: a manual check that is let through (the database is set up, the
    caller has a non-empty identity and owns the song, the song has a task
    identifier and is not completed) sends one status request and writes
    one update, and its answer reports the status it wrote.  The song is
    completed exactly when the answer of the service is not a 202 and holds
    a succeeded clip, from the first such clip; it is marked failed exactly
    when the answer is not a 202, holds no succeeded clip and holds a failed
    one; in every other case (a 202, clips still pending, an empty or
    missing array, a request that throws) it is set to generating with a
    message.  The answer carries an error member exactly when the request
    threw: the message of the thrown error, with success false. *)
Theorem retry_check_outcome
    (env : Env) (songId userId : str) (song : Song.t) (w : World) :
  database_error env = None ->
  songs w !! songId = Some song ->
  Song.clerk_user_id song = userId ->
  userId <> [] ->
  truthy (Song.task_id song) = true ->
  Song.status song <> Song.completed ->
  exists reply w' updates,
    RetryRoute.POST env (Some userId) songId w = (Ok reply, w')
    /\ events w' = events w ++ [ StatusRequest (default [] (Song.task_id song));
                                 SongUpdate songId updates ]
    /\ songs w' = <[songId := Song.apply updates song]> (songs w)
    /\ http_status reply = 200%Z
    /\ RetryRoute.status reply = Song.p_status updates
    /\ (forall r clips clip,
          outcome_at env (default [] (Song.task_id song)) (status_requests w) = Ok r ->
          code r <> 202%Z -> data r = DataArray clips ->
          find (state_is "succeeded") clips = Some clip ->
          updates = completed_from clip (now_iso env))
    /\ (forall r clips,
          outcome_at env (default [] (Song.task_id song)) (status_requests w) = Ok r ->
          code r <> 202%Z -> data r = DataArray clips ->
          find (state_is "succeeded") clips = None ->
          existsb (state_is "failed") clips = true ->
          updates = set_status Song.failed
                      (Some (utf16 "Song generation failed on Suno API")))
    /\ (Song.p_status updates = Some Song.completed ->
        exists r clips clip,
          outcome_at env (default [] (Song.task_id song)) (status_requests w) = Ok r
          /\ code r <> 202%Z /\ data r = DataArray clips
          /\ find (state_is "succeeded") clips = Some clip)
    /\ (Song.p_status updates = Some Song.failed ->
        exists r clips,
          outcome_at env (default [] (Song.task_id song)) (status_requests w) = Ok r
          /\ code r <> 202%Z /\ data r = DataArray clips
          /\ find (state_is "succeeded") clips = None
          /\ existsb (state_is "failed") clips = true)
    /\ (Song.p_status updates = Some Song.completed
        \/ Song.p_status updates = Some Song.failed
        \/ exists msg, updates = set_status Song.generating (Some msg))
    /\ (forall e,
          outcome_at env (default [] (Song.task_id song)) (status_requests w) = Throw e ->
          RetryRoute.error reply = Some (message_or (utf16 "Unknown error") e)
          /\ success reply = Some false)
    /\ (forall r,
          outcome_at env (default [] (Song.task_id song)) (status_requests w) = Ok r ->
          RetryRoute.error reply = None).
Proof. apply POST_checked. Qed.

Lemma retry_check_outcome_witness :
  exists reply w' song',
    RetryRoute.POST (outage always_ready) (Some (utf16 "user_1")) (utf16 "song-1")
                    (one_song Song.failed) = (Ok reply, w')
    /\ songs w' !! utf16 "song-1" = Some song'
    /\ Song.status song' = Song.completed
    /\ Song.audio_url song' = Some (utf16 "https://cdn/a.mp3").
Proof.
  destruct (retry_check_outcome (outage always_ready) (utf16 "song-1") (utf16 "user_1")
              (a_song Song.failed) (one_song Song.failed))
    as (reply & w' & updates & Hrun & _ & Hs & _ & _ & Hgood & _).
  - reflexivity.
  - vm_compute. reflexivity.
  - reflexivity.
  - discriminate.
  - reflexivity.
  - discriminate.
  - rewrite (Hgood (Effects.as_task ready_json) [ready_clip] ready_clip) in Hs.
    + eexists reply, w', _. split; [exact Hrun|].
      split. { rewrite Hs. apply lookup_insert_eq. }
      split; reflexivity.
    + vm_compute. reflexivity.
    + discriminate.
    + reflexivity.
    + vm_compute. reflexivity.
Defined.

(** X17: once a manual check by the owner of a song (a caller with a
    non-empty identity) has completed it, a further check, by anyone, is
    turned away and changes nothing. *)
Theorem completed_check_is_final
    (env : Env) (songId userId : str) (song : Song.t) (w : World)
    (r : SunoTaskResponse) (clips : list Clip.t) (clip : Clip.t) :
  database_error env = None ->
  songs w !! songId = Some song ->
  Song.clerk_user_id song = userId ->
  userId <> [] ->
  truthy (Song.task_id song) = true ->
  Song.status song <> Song.completed ->
  outcome_at env (default [] (Song.task_id song)) (status_requests w) = Ok r ->
  code r <> 202%Z ->
  data r = DataArray clips ->
  find (state_is "succeeded") clips = Some clip ->
  exists reply w',
    RetryRoute.POST env (Some userId) songId w = (Ok reply, w')
    /\ songs w' !! songId = Some (Song.apply (completed_from clip (now_iso env)) song)
    /\ forall caller, exists reply',
        RetryRoute.POST env caller songId w' = (Ok reply', w')
        /\ http_status reply' <> 200%Z.
Proof.
  intros Hdb Hsong Howner Huser Htask Hstatus Hr Hcode Hd Hfind.
  destruct (POST_checked env songId userId song w Hdb Hsong Howner Huser Htask Hstatus)
    as (reply & w' & updates & Hrun & _ & Hs & _ & _ & Hgood & _).
  rewrite (Hgood r clips clip Hr Hcode Hd Hfind) in Hs.
  exists reply, w'. split; [exact Hrun|].
  assert (songs w' !! songId = Some (Song.apply (completed_from clip (now_iso env)) song))
    as Hsong' by (rewrite Hs; apply lookup_insert_eq).
  split; [exact Hsong'|].
  intros caller. by apply (POST_completed env songId caller _ w' Hsong').
Qed.

Lemma completed_check_is_final_witness :
  exists reply w',
    RetryRoute.POST (outage always_ready) (Some (utf16 "user_1")) (utf16 "song-1")
                    (one_song Song.generating) = (Ok reply, w')
    /\ exists reply',
        RetryRoute.POST (outage always_ready) (Some (utf16 "user_1")) (utf16 "song-1") w'
        = (Ok reply', w').
Proof.
  destruct (completed_check_is_final (outage always_ready) (utf16 "song-1")
              (utf16 "user_1") (a_song Song.generating) (one_song Song.generating)
              (Effects.as_task ready_json) [ready_clip] ready_clip)
    as (reply & w' & Hrun & _ & Hagain).
  - reflexivity.
  - vm_compute. reflexivity.
  - reflexivity.
  - discriminate.
  - reflexivity.
  - discriminate.
  - vm_compute. reflexivity.
  - discriminate.
  - reflexivity.
  - vm_compute. reflexivity.
  - exists reply, w'. split; [exact Hrun|].
    destruct (Hagain (Some (utf16 "user_1"))) as (reply' & Hrun' & _).
    by exists reply'.
Defined.

End RetryFacts.

(** ** The tally of the ingestion pass *)

Module TallyFacts.
Import Ingestion IngestionFacts Samples.

Section Pass.
Variable env : IngestEnv.

Lemma fold_step_tally data :
  forall t,
    let t' := fold_left (step env) data t in
    processed t' + skipped t' = processed t + skipped t + length data
    /\ stored t' = stored t ++ omap (processSong env) data
    /\ length (stored t') + processed t = length (stored t) + processed t'.
Proof.
  induction data as [|song data IH]; intros t; simpl.
  - rewrite app_nil_r. split; [lia|]. split; [done|lia].
  - destruct (IH (step env t song)) as (H1 & H2 & H3).
    unfold step in *. destruct (processSong env song) as [row|]; simpl in *.
    + rewrite length_app in H3. simpl in *.
      split; [lia|]. split; [by rewrite H2, <- app_assoc|lia].
    + split; [lia|]. split; [done|lia].
Qed.

(** What a stored row says of the services. *)
Lemma processSong_services song row :
  processSong env song = Some row ->
  songTitle song <> [] /\ hindiLyrics song <> []
  /\ generateEmbedding env (st_lyrics_text row) = Ok (st_embedding row)
  /\ insert env row = Ok None.
Proof.
  unfold processSong.
  destruct (songTitle song) as [|c title] eqn:Ht; [done|].
  destruct (hindiLyrics song) as [|d hindi] eqn:Hh; [done|].
  unfold try_catch, bind.
  destruct (length (cleanLyrics env (d :: hindi)) <? 10); [done|].
  destruct (generateEmbedding env _) as [emb|] eqn:He; [|done].
  destruct (insert env _) as [[err|]|] eqn:Hi; try done.
  intros [= <-]. simpl. done.
Qed.

Lemma stored_names_in_order data :
  map st_song_name (omap (processSong env) data) `sublist_of` map songTitle data.
Proof.
  induction data as [|song data IH]; [done|]. simpl.
  destruct (processSong env song) as [row|] eqn:Hp; simpl.
  - destruct (processSong_spec env song row Hp) as (-> & _).
    by apply sublist_skip.
  - by apply sublist_cons.
Qed.

(** X18: every row of the file is counted once, as processed or as
    skipped; the rows that were stored are as many as were counted
    processed, and their names come in the order of the file. *)
Theorem tally_accounts_for_every_row (lyricsData : list LyricsData) :
  processed (processLyricsCSV env lyricsData) + skipped (processLyricsCSV env lyricsData)
  = length lyricsData
  /\ length (stored (processLyricsCSV env lyricsData))
     = processed (processLyricsCSV env lyricsData)
  /\ map st_song_name (stored (processLyricsCSV env lyricsData))
     `sublist_of` map songTitle lyricsData.
Proof.
  destruct (fold_step_tally lyricsData {| stored := []; processed := 0; skipped := 0 |})
    as (H1 & H2 & H3).
  unfold processLyricsCSV. simpl in *. split; [lia|]. split; [lia|].
  rewrite H2. apply stored_names_in_order.
Qed.

(** X19: a stored row comes from a row of the file whose title and
    lyrics are not empty; its embedding is the one the service gave for the
    stored text, that is for the cleaned lyrics, and the table accepted
    it. *)
Theorem stored_row_provenance (lyricsData : list LyricsData) (row : StoredRow) :
  In row (stored (processLyricsCSV env lyricsData)) ->
  exists song,
    In song lyricsData
    /\ songTitle song <> [] /\ hindiLyrics song <> []
    /\ st_song_name row = songTitle song
    /\ st_lyrics_text row = cleanLyrics env (hindiLyrics song)
    /\ generateEmbedding env (st_lyrics_text row) = Ok (st_embedding row)
    /\ insert env row = Ok None.
Proof.
  intros H. unfold processLyricsCSV in H.
  apply stored_fold in H as [[]|(song & Hin & Hp)].
  destruct (processSong_spec env song row Hp) as (Hname & Htext & _).
  destruct (processSong_services song row Hp) as (Ht & Hl & He & Hi).
  exists song. done.
Qed.
End Pass.

Lemma stored_row_provenance_witness :
  exists song,
    In song [sample_song]
    /\ generateEmbedding sample_env (st_lyrics_text sample_row)
       = Ok (st_embedding sample_row).
Proof.
  destruct (stored_row_provenance sample_env [sample_song] sample_row)
    as (song & Hin & _ & _ & _ & _ & He & _).
  - vm_compute. left. reflexivity.
  - exists song. split; [exact Hin|exact He].
Defined.

End TallyFacts.

(** ** Keywords and failing queries *)

Module KeywordFacts.
Import LyricsProcessor RetrievalFacts Samples MoreSamples.

(** X20: whatever the lower-casing of the host does to the theme, every
    keyword has more than two code units, is no stop word and holds no white
    space.  On a host that lowers the letters [A] to [Z] of a Basic Latin
    text and nothing else, the keywords of a Basic Latin theme do not depend
    on the case of its letters, and hold Basic Latin code units only, none
    of them a capital letter. *)
Theorem keywords_normalised (db : LyricsStore) (theme : str) :
  Forall (fun k => 2 < length k
                   /\ ~ In k stop_words
                   /\ Forall (fun c => is_space c = false) k)
         (keywords db theme)
  /\ (lowers_basic_latin (toLowerCase db) -> basic_latin theme ->
      keywords db (map lc theme) = keywords db theme
      /\ Forall (fun k => Forall (fun c => (c < 128)%N /\ lc c = c) k)
                (keywords db theme)).
Proof.
  split.
  - apply Forall_forall. intros k Hk.
    apply list_elem_of_In in Hk. unfold keywords in Hk.
    apply filter_In in Hk as [Hin Hkeep].
    apply keeps_word_spec in Hkeep as [Hlen Hstop].
    split; [done|]. split; [done|].
    assert (Forall (Forall (fun c => is_space c = false))
              (split_ws (toLowerCase db theme))) as Hall.
    { apply split_go_chars; [done|]. apply Forall_forall. auto. }
    rewrite Forall_forall in Hall. apply Hall. by apply list_elem_of_In.
  - intros Hlow Hth.
    assert (forall c, (c < 128)%N -> (lc c < 128)%N) as Hlc.
    { intros c Hc. destruct (decide (65 <= c <= 90)%N) as [H|H].
      - rewrite (lc_upper c H). lia.
      - by rewrite (lc_other c H). }
    assert (basic_latin (map lc theme)) as Hth'.
    { unfold basic_latin in *. rewrite Forall_forall in Hth.
      apply Forall_forall. intros c Hc.
      apply list_elem_of_In, in_map_iff in Hc as (c0 & <- & Hc0).
      by apply Hlc, Hth, list_elem_of_In. }
    split.
    + unfold keywords. rewrite (Hlow _ Hth), (Hlow _ Hth'), map_map.
      do 2 f_equal. apply map_ext. intros c. apply lc_idem.
    + apply Forall_forall. intros k Hk.
      apply list_elem_of_In in Hk. unfold keywords in Hk.
      apply filter_In in Hk as [Hin _]. rewrite (Hlow _ Hth) in Hin.
      assert (Forall (Forall (fun c => (c < 128)%N /\ lc c = c))
                (split_ws (map lc theme))) as Hall.
      { apply split_go_chars; [done|]. apply Forall_forall. intros c Hc _.
        apply list_elem_of_In, in_map_iff in Hc as (c0 & <- & Hc0).
        split; [|apply lc_idem].
        unfold basic_latin in Hth. rewrite Forall_forall in Hth.
        by apply Hlc, Hth, list_elem_of_In. }
      rewrite Forall_forall in Hall. apply Hall. by apply list_elem_of_In.
Qed.

Lemma keywords_normalised_witness :
  keywords (table_store basic_lower sample_corpus) (map lc (utf16 "Our Dosti FOREVER"))
  = keywords (table_store basic_lower sample_corpus) (utf16 "Our Dosti FOREVER").
Proof.
  refine (proj1 (proj2 (keywords_normalised (table_store basic_lower sample_corpus)
                          (utf16 "Our Dosti FOREVER")) _ _)).
  - by intros s _.
  - vm_compute. repeat constructor.
Defined.

(** X21: a thrown value of the embedding service is absorbed: the search
    goes on with the keywords, and rows the keyword query gives are the
    answer.  A keyword query that throws is not absorbed in this way: the
    answer is then the single entry of the last fallback, and the table is
    not asked for its first rows. *)
Theorem thrown_query_ends_in_last_fallback
    (db : LyricsStore) (queryText : str) (matchCount : Z) (matchThreshold : Q)
    (e : Exn) :
  generateEmbedding db queryText = Throw e ->
  keywords db queryText <> [] ->
  (forall reply rows,
      search_text db (searchConditions (keywords db queryText)) matchCount = Ok reply ->
      usable reply = Some rows ->
      findSimilarLyrics db queryText matchCount matchThreshold = Ok (map of_row rows))
  /\ (forall e',
        search_text db (searchConditions (keywords db queryText)) matchCount = Throw e' ->
        findSimilarLyrics db queryText matchCount matchThreshold = Ok final_fallback
        /\ length final_fallback = 1).
Proof.
  intros He Hk.
  assert ((0 <? length (keywords db queryText)) = true) as Hlen.
  { apply Nat.ltb_lt. destruct (keywords db queryText); [done|simpl; lia]. }
  split.
  - intros reply rows Hs Hu.
    unfold findSimilarLyrics, embeddingTier, keywordTier, try_catch, bind.
    by rewrite He, Hlen, Hs, Hu.
  - intros e' Hs. split; [|done].
    unfold findSimilarLyrics, embeddingTier, keywordTier, try_catch, bind.
    by rewrite He, Hlen, Hs.
Qed.

Lemma thrown_query_ends_in_last_fallback_witness :
  findSimilarLyrics broken_search (utf16 "love song") 3 default_matchThreshold
  = Ok final_fallback.
Proof.
  refine (proj1 (proj2 (thrown_query_ends_in_last_fallback broken_search
                          (utf16 "love song") 3 default_matchThreshold
                          (ErrorObj (utf16 "quota exceeded")) _ _)
                   (ErrorObj (utf16 "fetch failed")) _)).
  - reflexivity.
  - vm_compute. discriminate.
  - reflexivity.
Defined.

End KeywordFacts.

(** ** The styles of a request *)

Module StylesFacts.
Import StrFacts CleanupFacts GenerateRequest GenerateRoute MoreSamples.

Lemma trimStart_fixed s :
  (forall c, head s = Some c -> is_space c = false) -> trimStart s = s.
Proof. destruct s as [|c s]; [done|]. intros H. simpl. by rewrite (H c). Qed.

Lemma trimStart_idem s : trimStart (trimStart s) = trimStart s.
Proof. apply trimStart_fixed, trimStart_no_space. Qed.

Lemma trim_idem s : trim (trim s) = trim s.
Proof.
  unfold trim at 1. rewrite (trimStart_fixed (trim s)) by apply trim_head.
  unfold trim, trimEnd. by rewrite rev_involutive, trimStart_idem.
Qed.

Lemma split_comma_go_no_comma cur s :
  ~ In COMMA cur -> Forall (fun x => ~ In COMMA x) (split_comma_go cur s).
Proof.
  revert cur. induction s as [|c s IH]; intros cur Hcur; simpl.
  - by constructor.
  - destruct (N.eqb_spec c COMMA) as [->|Hc].
    + constructor; [done|]. apply IH. by intros [].
    + apply IH. rewrite in_app_iff. intros [H|[H|[]]]; [done|]. by subst.
Qed.

Lemma sublist_In {A} (l1 l2 : list A) x : l1 `sublist_of` l2 -> In x l1 -> In x l2.
Proof.
  intros Hs. induction Hs as [|y l1 l2 _ IH|y l1 l2 _ IH]; simpl; [done| |].
  - intros [->|H]; [by left|right; auto].
  - intros H. right. auto.
Qed.

Lemma split_comma_go_app cur x rest :
  ~ In COMMA x -> split_comma_go cur (x ++ rest) = split_comma_go (cur ++ x) rest.
Proof.
  revert cur. induction x as [|c x IH]; intros cur Hx; simpl.
  - by rewrite app_nil_r.
  - destruct (N.eqb_spec c COMMA) as [->|Hc]; [exfalso; apply Hx; by left|].
    rewrite IH by (intros H; apply Hx; by right).
    by rewrite <- app_assoc.
Qed.

Lemma split_comma_go_join cur x l :
  Forall (fun s => ~ In COMMA s) (x :: l) ->
  split_comma_go cur (join [COMMA; 32%N] (x :: l))
  = (cur ++ x) :: map (cons 32%N) l.
Proof.
  revert cur x. induction l as [|y l IH]; intros cur x Hall.
  - apply Forall_cons in Hall as [Hx _]. cbn [join map].
    rewrite <- (app_nil_r x) at 1. by rewrite split_comma_go_app.
  - apply Forall_cons in Hall as [Hx Hall].
    change (join [COMMA; 32%N] (x :: y :: l))
      with (x ++ COMMA :: 32%N :: join [COMMA; 32%N] (y :: l)).
    rewrite split_comma_go_app by done.
    cbn [split_comma_go]. rewrite N.eqb_refl.
    change (32 =? COMMA)%N with false. cbv iota.
    change ([] ++ [32%N]) with [32%N].
    by rewrite IH.
Qed.

Lemma trim_after_space s : trim (32%N :: s) = trim s.
Proof. reflexivity. Qed.

(** X22: the styles parsed from a string are plain: none is empty, none
    holds a comma, none begins or ends with white space.  An array is taken
    as it is, and anything else gives no style. *)
Theorem parsed_styles_are_plain (s : str) :
  Forall plain_style (stylesArray (StylesString s))
  /\ (forall items, stylesArray (StylesArray items) = items)
  /\ stylesArray StylesOther = [].
Proof.
  split; [|done]. apply Forall_forall. intros x Hx.
  apply list_elem_of_In in Hx. cbn [stylesArray] in Hx.
  apply filter_In in Hx as [Hin Hlen].
  apply in_map_iff in Hin as (piece & <- & Hpiece).
  split; [|split].
  - intros H. rewrite H in Hlen. done.
  - intros Hc. apply (sublist_In _ piece) in Hc; [|apply trim_sublist].
    pose proof (split_comma_go_no_comma [] s ltac:(by intros [])) as Hall.
    rewrite Forall_forall in Hall. apply (Hall piece); [|done].
    by apply list_elem_of_In.
  - apply trim_idem.
Qed.

(** X23: plain styles survive the round trip through the text the route
    stores as the tags of the song: joined with a comma and a space, they
    are parsed back to the same styles. *)
Theorem stored_tags_parse_back
    (params : RouteParams) (result : AiMusic.CompleteSong) (tags : str) :
  styles params <> [] ->
  Forall plain_style (styles params) ->
  Song.p_tags (task_info params result) = Some tags ->
  stylesArray (StylesString tags) = styles params.
Proof.
  intros Hne Hall Htags.
  assert (tags = join [COMMA; 32%N] (styles params)) as ->.
  { unfold task_info in Htags. cbn [Song.p_tags] in Htags.
    destruct (styles params); [done|]. by injection Htags as <-. }
  destruct (styles params) as [|x l]; [done|].
  cbn [stylesArray]. unfold split_comma.
  rewrite split_comma_go_join
    by (eapply Forall_impl; [exact Hall|]; by intros s (_ & H & _)).
  cbn [app map List.filter].
  apply Forall_cons in Hall as [(Hx & _ & Htx) Hall].
  rewrite Htx. destruct x as [|c x]; [done|]. cbn [length Nat.ltb Nat.leb].
  f_equal. clear -Hall. induction Hall as [|y l (Hy & _ & Hty) _ IH]; [done|].
  cbn [map List.filter]. rewrite trim_after_space, Hty.
  destruct y as [|c y]; [done|]. cbn [length Nat.ltb Nat.leb]. by rewrite IH.
Qed.

Lemma stored_tags_parse_back_witness :
  stylesArray (StylesString (utf16 "romantic, sufi")) = [utf16 "romantic"; utf16 "sufi"].
Proof.
  apply (stored_tags_parse_back styled_params a_result (utf16 "romantic, sufi")).
  - discriminate.
  - repeat constructor; try (vm_compute; discriminate); try (vm_compute; reflexivity);
      vm_compute; intros H; repeat (destruct H as [H|H]; [discriminate H|]); exact H.
  - vm_compute. reflexivity.
Defined.

End StylesFacts.
